(** * The block-graph editor of the visual programming front end

    A shallow embedding of [CanvasManager]
    (frontend/static/js/canvas.js) together with the helpers of
    [Utils] (frontend/static/js/utils.js) it relies on, and the
    properties of the graph store, the auto-linker, the undo/redo history
    and the debounced autosave.

    Conventions of the embedding.
    - A JavaScript number is an exact rational ([Q]); [None] in a place
      that holds a number stands for [undefined] or [NaN], which the code
      never tells apart (both are falsy and both make an invalid CSS
      length).  The editor computes in binary64.  Its snapping to the
      grid gives the exact results within the range [coordinate_limit],
      and the statements about snapped coordinates are made for that
      range; the statements about the view use the comparisons and the
      clamps only, which are exact, and never the value of a sum, a
      product or a quotient.
    - A string-valued property that may be [undefined] is an
      [option string].
    - The editor object is a record [State]; a method is a function on
      it.  A method that can raise an exception returns a [Result]
      together with the state reached when the exception left it.
    - [this.blocks] is a JavaScript [Map]: an association list in
      insertion order.  Its values are DOM elements, modelled by the
      properties the editor reads and writes on them.
    - Strings, numbers and records of them are immutable values, so
      [Utils.deepClone] of such data is the data; it is spelled out
      where it changes what an object is, on DOM elements.
    - Presentation (class names, the SVG layer, the modal dialog, the
      toolbar buttons) is not part of the state.  The gestures that
      only change the view (panning, zooming, pressing a block) are
      events of their own, apart from the events of a session; the
      fields they write ([selectedBlock], [zoom], [panX], [panY]) are
      fields of the state.
    - Time is a counter of milliseconds; a pending timeout is an entry
      of a list, with the time it is due. *)

From Stdlib Require Import List String Ascii Bool Arith ZArith QArith Qabs Qround Lia Lqa.
From Stdlib Require Import Sorted Permutation DecimalString DecimalNat.
Import ListNotations.

Set Warnings "-register-all".

Local Open Scope string_scope.
Local Open Scope list_scope.
Local Open Scope Z_scope.

(** ** JavaScript helpers *)

Module Js.

(** [a === b] on values that are a string or [undefined]. *)
Definition str_eqb (a b : option string) : bool :=
  match a, b with
  | Some x, Some y => String.eqb x y
  | None, None => true
  | _, _ => false
  end.

(** [Math.round]: the nearest integer, halves going up. *)
Definition Math_round (q : Q) : Z := Qfloor (q + (1 # 2)).

(** [n || d] on numbers: [0] and [NaN]/[undefined] are falsy. *)
Definition num_or (n : option Q) (d : Q) : Q :=
  match n with
  | Some q => if Qeq_bool q 0 then d else q
  | None => d
  end.

(** The decimal numeral of a counter, as a template literal prints it. *)
Definition decimal (n : nat) : string :=
  NilEmpty.string_of_uint (Nat.to_uint n).

(** [s.split(sep)] for a one-character separator. *)
Fixpoint split_on (sep : ascii) (s : string) : list string :=
  match s with
  | EmptyString => [EmptyString]
  | String c rest =>
      if Ascii.eqb c sep then EmptyString :: split_on sep rest
      else match split_on sep rest with
           | w :: ws => String c w :: ws
           | [] => [String c EmptyString]
           end
  end.

Definition is_space (c : ascii) : bool :=
  let n := nat_of_ascii c in
  ((9 <=? n) && (n <=? 13))%nat || (n =? 32)%nat.

Fixpoint skip_spaces (s : string) : string :=
  match s with
  | String c rest => if is_space c then skip_spaces rest else s
  | EmptyString => s
  end.

Definition digit_value (c : ascii) : option Z :=
  let n := Z.of_nat (nat_of_ascii c) in
  if (48 <=? n) && (n <=? 57) then Some (n - 48)
  else if (97 <=? n) && (n <=? 122) then Some (n - 87)
  else if (65 <=? n) && (n <=? 90) then Some (n - 55)
  else None.

(** The value of the longest prefix of digits of the radix; [acc] is
    [None] until a digit has been read. *)
Fixpoint parse_digits (radix : Z) (s : string) (acc : option Z) : option Z :=
  match s with
  | String c rest =>
      match digit_value c with
      | Some d =>
          if d <? radix
          then parse_digits radix rest
                 (Some (match acc with Some a => a * radix + d | None => d end))
          else acc
      | None => acc
      end
  | EmptyString => acc
  end.

(** [parseInt(s)] without a radix; [None] is [NaN].  The argument
    [None] is [undefined], whose string form has no digit. *)
Definition parseInt (arg : option string) : option Z :=
  match arg with
  | None => None
  | Some s0 =>
      let s := skip_spaces s0 in
      let '(sign, s1) :=
        match s with
        | String "-" r => (-1, r)
        | String "+" r => (1, r)
        | _ => (1, s)
        end in
      let '(radix, s2) :=
        match s1 with
        | String "0" (String "x" r) => (16, r)
        | String "0" (String "X" r) => (16, r)
        | _ => (10, s1)
        end in
      option_map (Z.mul sign) (parse_digits radix s2 None)
  end.

(** [Array.prototype.sort] with a comparison function: a stable sort; a
    negative result puts the first argument first.  The result is the
    one the language fixes whenever the comparison is consistent; for
    an inconsistent comparison (one that gives [NaN] for some pairs
    only) the language leaves the order to the engine, and only what
    holds for every order is true of the code. *)
Section Sort.
Context {A : Type} (cmp : A -> A -> Z).

Fixpoint insert_sorted (a : A) (l : list A) : list A :=
    match l with
    | [] => [a]
    | b :: l' => if cmp a b <=? 0 then a :: l else b :: insert_sorted a l'
    end.

Definition sort (l : list A) : list A := fold_right insert_sorted [] l.
End Sort.

(** A JavaScript [Map] with keys that are strings or [undefined]. *)
Section MapOps.
Context {V : Type}.
Definition JsMap := list (option string * V).

Fixpoint map_get (k : option string) (m : JsMap) : option V :=
    match m with
    | [] => None
    | (k', v) :: m' => if str_eqb k' k then Some v else map_get k m'
    end.

  (** [set] keeps the place of a key that is already there. *)
Fixpoint map_set (k : option string) (v : V) (m : JsMap) : JsMap :=
    match m with
    | [] => [(k, v)]
    | (k', v') :: m' =>
        if str_eqb k' k then (k, v) :: m' else (k', v') :: map_set k v m'
    end.

Definition map_delete (k : option string) (m : JsMap) : JsMap :=
    filter (fun kv => negb (str_eqb (fst kv) k)) m.

Definition map_keys (m : JsMap) : list (option string) := map fst m.
Definition map_values (m : JsMap) : list V := map snd m.
End MapOps.
Arguments JsMap : clear implicits.

End Js.

Import Js.

(** ** Data model *)

(** A value that is a string or [undefined]: block ids, block types. *)
Definition Id := option string.

(** A block-type definition as the sidebar hands it over; the editor
    reads its description and whether it has inputs. *)
Record BlockDefinition := {
  def_description : option string;
  def_inputs : list string
}.

(** The empty object [{}] used as a default definition. *)
Definition no_definition : BlockDefinition :=
  {| def_description := None; def_inputs := [] |}.

Definition Props := list (string * string).

(** A block object: what [addBlock] builds, what a document lists and what
    [createBlockFromData] keeps.  A field the object lacks is [None]. *)
Record BlockObj := {
  b_id : Id;
  b_type : Id;
  b_x : option Q;
  b_y : option Q;
  b_properties : option Props;
  b_definition : option BlockDefinition;
  b_language : option string
}.

(** The plain objects that end up in [element.blockData] and in history
    entries: a block object, or the copy [Utils.deepClone] makes of a DOM
    element.  [Object.keys] of an element lists the properties the code
    has put on it ([blockData], and [x], [y] once it was dragged), so
    the copy is an object with just those. *)
Inductive JsObj : Type :=
| Plain (b : BlockObj)
| Cloned (blockData : option JsObj) (x y : option Q).

(** Property reads on such an object. *)
Definition obj_id (o : JsObj) : Id :=
  match o with Plain b => b_id b | Cloned _ _ _ => None end.
Definition obj_type (o : JsObj) : Id :=
  match o with Plain b => b_type b | Cloned _ _ _ => None end.
Definition obj_x (o : JsObj) : option Q :=
  match o with Plain b => b_x b | Cloned _ x _ => x end.
Definition obj_y (o : JsObj) : option Q :=
  match o with Plain b => b_y b | Cloned _ _ y => y end.
Definition obj_properties (o : JsObj) : option Props :=
  match o with Plain b => b_properties b | Cloned _ _ _ => None end.
Definition obj_definition (o : JsObj) : option BlockDefinition :=
  match o with Plain b => b_definition b | Cloned _ _ _ => None end.
Definition obj_language (o : JsObj) : option string :=
  match o with Plain b => b_language b | Cloned _ _ _ => None end.

(** A block element of the canvas (an [HTMLDivElement]). *)
Record Element := {
  el_id : string;                 (* the id attribute; empty when never set *)
  el_left : option Q;             (* style.left in px; None when unset *)
  el_top : option Q;
  el_blockData : option JsObj;    (* the blockData property *)
  el_x : option Q;                (* x and y properties, put by a drag *)
  el_y : option Q;
  el_draggable : bool             (* carries the listeners of addBlockEventListeners *)
}.

(** A [div] element has no [type] property and the editor never puts
    one on it. *)
Definition el_type (e : Element) : Id := None.

Record Connection := {
  conn_from : Id;
  conn_to : Id;
  conn_fromPort : option string;
  conn_toPort : option string
}.

Definition conn (f t : Id) : Connection :=
  {| conn_from := f; conn_to := t; conn_fromPort := None; conn_toPort := None |}.

(** A history entry as [saveState] builds it. *)
Record Snapshot := {
  s_blocks : list (Id * JsObj);
  s_connections : list Connection;
  s_zoom : Q;
  s_panX : Q;
  s_panY : Q
}.

(** Messages handed to the notification component. *)
Inductive Notice :=
| Added (type : string)
| Removed (type : string)
| Undid
| Redid
| Cleared
| Imported
| PropertiesUpdated.

Inductive Error :=
| TypeError (what : string)
| InvalidCanvasData.

Inductive Result (A : Type) :=
| Ok (a : A)
| Throw (e : Error).
Arguments Ok {A} a.
Arguments Throw {A} e.

(** The editor.  The last block of fields is the environment the editor
    acts on: the clock and the pending timeouts of the window, the calls
    of [saveToJSON] made so far (by the time of the call), the messages
    shown, and the catalogue of the block manager. *)
Record State := {
  zoom : Q;
  panX : Q;
  panY : Q;
  selectedBlock : option Element;
  blocks : JsMap Element;
  connections : list Connection;
  blockCounter : nat;
  history : list Snapshot;
  historyIndex : Z;
  autoSaveTimeout : option nat;
  currentLanguage : option string;
  clock : Z;
  timers : list (nat * Z);
  nextTimerId : nat;
  saveCalls : list Z;
  notices : list Notice;
  availableBlocks : list string
}.

Definition maxHistorySize : nat := 50.
Definition autoSaveDelay : Z := 1000.

(** The state the constructor sets up, before any session is loaded. *)
Definition fresh : State := {|
  zoom := 1; panX := 0; panY := 0;
  selectedBlock := None;
  blocks := [];
  connections := [];
  blockCounter := 0;
  history := [];
  historyIndex := -1;
  autoSaveTimeout := None;
  currentLanguage := None;
  clock := 0; timers := []; nextTimerId := 1; saveCalls := [];
  notices := [];
  availableBlocks := []
|}.

(** Field updates. *)
Definition with_view (z px py : Q) (st : State) : State :=
  {| zoom := z; panX := px; panY := py;
     selectedBlock := selectedBlock st; blocks := blocks st;
     connections := connections st; blockCounter := blockCounter st;
     history := history st; historyIndex := historyIndex st;
     autoSaveTimeout := autoSaveTimeout st; currentLanguage := currentLanguage st;
     clock := clock st; timers := timers st; nextTimerId := nextTimerId st;
     saveCalls := saveCalls st; notices := notices st;
     availableBlocks := availableBlocks st |}.

Definition with_selectedBlock (s : option Element) (st : State) : State :=
  {| zoom := zoom st; panX := panX st; panY := panY st;
     selectedBlock := s; blocks := blocks st;
     connections := connections st; blockCounter := blockCounter st;
     history := history st; historyIndex := historyIndex st;
     autoSaveTimeout := autoSaveTimeout st; currentLanguage := currentLanguage st;
     clock := clock st; timers := timers st; nextTimerId := nextTimerId st;
     saveCalls := saveCalls st; notices := notices st;
     availableBlocks := availableBlocks st |}.

Definition with_blocks (b : JsMap Element) (st : State) : State :=
  {| zoom := zoom st; panX := panX st; panY := panY st;
     selectedBlock := selectedBlock st; blocks := b;
     connections := connections st; blockCounter := blockCounter st;
     history := history st; historyIndex := historyIndex st;
     autoSaveTimeout := autoSaveTimeout st; currentLanguage := currentLanguage st;
     clock := clock st; timers := timers st; nextTimerId := nextTimerId st;
     saveCalls := saveCalls st; notices := notices st;
     availableBlocks := availableBlocks st |}.

Definition with_connections (c : list Connection) (st : State) : State :=
  {| zoom := zoom st; panX := panX st; panY := panY st;
     selectedBlock := selectedBlock st; blocks := blocks st;
     connections := c; blockCounter := blockCounter st;
     history := history st; historyIndex := historyIndex st;
     autoSaveTimeout := autoSaveTimeout st; currentLanguage := currentLanguage st;
     clock := clock st; timers := timers st; nextTimerId := nextTimerId st;
     saveCalls := saveCalls st; notices := notices st;
     availableBlocks := availableBlocks st |}.

Definition with_blockCounter (n : nat) (st : State) : State :=
  {| zoom := zoom st; panX := panX st; panY := panY st;
     selectedBlock := selectedBlock st; blocks := blocks st;
     connections := connections st; blockCounter := n;
     history := history st; historyIndex := historyIndex st;
     autoSaveTimeout := autoSaveTimeout st; currentLanguage := currentLanguage st;
     clock := clock st; timers := timers st; nextTimerId := nextTimerId st;
     saveCalls := saveCalls st; notices := notices st;
     availableBlocks := availableBlocks st |}.

Definition with_history (h : list Snapshot) (i : Z) (st : State) : State :=
  {| zoom := zoom st; panX := panX st; panY := panY st;
     selectedBlock := selectedBlock st; blocks := blocks st;
     connections := connections st; blockCounter := blockCounter st;
     history := h; historyIndex := i;
     autoSaveTimeout := autoSaveTimeout st; currentLanguage := currentLanguage st;
     clock := clock st; timers := timers st; nextTimerId := nextTimerId st;
     saveCalls := saveCalls st; notices := notices st;
     availableBlocks := availableBlocks st |}.

Definition with_currentLanguage (l : option string) (st : State) : State :=
  {| zoom := zoom st; panX := panX st; panY := panY st;
     selectedBlock := selectedBlock st; blocks := blocks st;
     connections := connections st; blockCounter := blockCounter st;
     history := history st; historyIndex := historyIndex st;
     autoSaveTimeout := autoSaveTimeout st; currentLanguage := l;
     clock := clock st; timers := timers st; nextTimerId := nextTimerId st;
     saveCalls := saveCalls st; notices := notices st;
     availableBlocks := availableBlocks st |}.

(** The window's side: timeouts, clock, issued saves. *)
Definition with_timers (a : option nat) (t : list (nat * Z)) (n : nat)
    (st : State) : State :=
  {| zoom := zoom st; panX := panX st; panY := panY st;
     selectedBlock := selectedBlock st; blocks := blocks st;
     connections := connections st; blockCounter := blockCounter st;
     history := history st; historyIndex := historyIndex st;
     autoSaveTimeout := a; currentLanguage := currentLanguage st;
     clock := clock st; timers := t; nextTimerId := n;
     saveCalls := saveCalls st; notices := notices st;
     availableBlocks := availableBlocks st |}.

Definition with_clock (c : Z) (t : list (nat * Z)) (s : list Z)
    (st : State) : State :=
  {| zoom := zoom st; panX := panX st; panY := panY st;
     selectedBlock := selectedBlock st; blocks := blocks st;
     connections := connections st; blockCounter := blockCounter st;
     history := history st; historyIndex := historyIndex st;
     autoSaveTimeout := autoSaveTimeout st; currentLanguage := currentLanguage st;
     clock := c; timers := t; nextTimerId := nextTimerId st;
     saveCalls := s; notices := notices st;
     availableBlocks := availableBlocks st |}.

(** The block manager has loaded the catalogue of a language. *)
Definition with_availableBlocks (c : list string) (st : State) : State :=
  {| zoom := zoom st; panX := panX st; panY := panY st;
     selectedBlock := selectedBlock st; blocks := blocks st;
     connections := connections st; blockCounter := blockCounter st;
     history := history st; historyIndex := historyIndex st;
     autoSaveTimeout := autoSaveTimeout st; currentLanguage := currentLanguage st;
     clock := clock st; timers := timers st; nextTimerId := nextTimerId st;
     saveCalls := saveCalls st; notices := notices st;
     availableBlocks := c |}.

Definition notify (n : Notice) (st : State) : State :=
  {| zoom := zoom st; panX := panX st; panY := panY st;
     selectedBlock := selectedBlock st; blocks := blocks st;
     connections := connections st; blockCounter := blockCounter st;
     history := history st; historyIndex := historyIndex st;
     autoSaveTimeout := autoSaveTimeout st; currentLanguage := currentLanguage st;
     clock := clock st; timers := timers st; nextTimerId := nextTimerId st;
     saveCalls := saveCalls st; notices := notices st ++ [n];
     availableBlocks := availableBlocks st |}.

(** ** Methods that raise: state and exception *)

Definition M (A : Type) : Type := State -> Result A * State.

Definition ret {A} (a : A) : M A := fun st => (Ok a, st).
Definition throw {A} (e : Error) : M A := fun st => (Throw e, st).
Definition bind {A B} (m : M A) (k : A -> M B) : M B :=
  fun st =>
    match m st with
    | (Ok a, st') => k a st'
    | (Throw e, st') => (Throw e, st')
    end.
(** A statement that cannot raise. *)
Definition run (f : State -> State) : M unit := fun st => (Ok tt, f st).

Notation "x <- m ;; k" := (bind m (fun x => k))
  (at level 61, m at next level, right associativity).
Notation "m ;;; k" := (bind m (fun _ => k))
  (at level 61, right associativity).

(** ** Autosave timer *)

Definition clearTimeout (id : nat) (t : list (nat * Z)) : list (nat * Z) :=
  filter (fun p => negb (fst p =? id)%nat) t.

(** [scheduleAutoSave]: drop the pending timeout when the field holds a
    (truthy) handle, then arm a new one for [saveToJSON]. *)
Definition scheduleAutoSave (st : State) : State :=
  let t := match autoSaveTimeout st with
           | Some id => if (id =? 0)%nat then timers st
                        else clearTimeout id (timers st)
           | None => timers st
           end in
  let id := nextTimerId st in
  with_timers (Some id) (t ++ [(id, clock st + autoSaveDelay)]) (S id) st.

(** The window is idle for [dt] milliseconds: every timeout that comes
    due runs its callback, which calls [saveToJSON]. *)
Definition tick (dt : nat) (st : State) : State :=
  let now := clock st + Z.of_nat dt in
  let due := filter (fun p => snd p <=? now) (timers st) in
  let rest := filter (fun p => negb (snd p <=? now)) (timers st) in
  with_clock now rest (saveCalls st ++ map snd due) st.

(** ** History *)

(** [Utils.deepClone] on a plain object: a new object with a copy of
    every property.  The fields of a block object are immutable data
    here, which are their own copies. *)
Fixpoint deepClone (o : JsObj) : JsObj :=
  match o with
  | Plain b => Plain b
  | Cloned blockData x y =>
      Cloned (match blockData with
              | Some inner => Some (deepClone inner)
              | None => None
              end) x y
  end.

(** [Utils.deepClone] of a block element: it is an object and no array,
    so the copy is a plain object with a copy of each of the element's
    own enumerable properties. *)
Definition deepClone_element (e : Element) : JsObj :=
  Cloned (match el_blockData e with
          | Some blockData => Some (deepClone blockData)
          | None => None
          end) (el_x e) (el_y e).

Definition snapshot (st : State) : Snapshot :=
  {| s_blocks := map (fun kv => (fst kv, deepClone_element (snd kv))) (blocks st);
     s_connections := connections st;
     s_zoom := zoom st;
     s_panX := panX st;
     s_panY := panY st |}.

(** [l.slice(0, e)]; a negative [e] counts from the end. *)
Definition slice0 {A} (e : Z) (l : list A) : list A :=
  if 0 <=? e then firstn (Z.to_nat e) l
  else firstn (List.length l - Z.to_nat (- e)) l.

(** [saveState()]: push a snapshot after the cursor, drop the oldest
    entry past the size limit, schedule the autosave. *)
Definition saveState (st : State) : State :=
  let state := snapshot st in
  let h := if historyIndex st <? Z.of_nat (List.length (history st)) - 1
           then slice0 (historyIndex st + 1) (history st)
           else history st in
  let h1 := h ++ [state] in
  let st1 := if (maxHistorySize <? List.length h1)%nat
             then with_history (tl h1) (historyIndex st) st
             else with_history h1 (historyIndex st + 1) st in
  scheduleAutoSave st1.

(** The element [restoreState] builds for the entry [[id, blockData]].
    No id attribute is set.  The content set-up that depends on
    [blockManager.getBlockDefinition(blockData.type)] only touches the
    presentation. *)
Definition restored_element (blockData : JsObj) : Element :=
  {| el_id := "";
     el_left := Some (num_or (obj_x blockData) 0);
     el_top := Some (num_or (obj_y blockData) 0);
     el_blockData := Some (deepClone blockData);
     el_x := None; el_y := None;
     el_draggable := false |}.

(** [history[i]]: [undefined] outside the array. *)
Definition history_at (st : State) (i : Z) : option Snapshot :=
  if i <? 0 then None else nth_error (history st) (Z.to_nat i).

(** [restoreState(state)]: the map is emptied and filled from the
    entries of the snapshot. *)
Definition restoreState (state : option Snapshot) (st : State) : State :=
  match state with
  | None => st
  | Some s =>
      let bl := fold_left (fun m kv => map_set (fst kv) (restored_element (snd kv)) m)
                  (s_blocks s) [] in
      with_view (num_or (Some (s_zoom s)) 1)
                (num_or (Some (s_panX s)) 0)
                (num_or (Some (s_panY s)) 0)
        (with_connections (s_connections s) (with_blocks bl st))
  end.

Definition undo (st : State) : State :=
  if 0 <? historyIndex st then
    let i := historyIndex st - 1 in
    let st1 := with_history (history st) i st in
    notify Undid (restoreState (history_at st1 i) st1)
  else st.

Definition redo (st : State) : State :=
  if historyIndex st <? Z.of_nat (List.length (history st)) - 1 then
    let i := historyIndex st + 1 in
    let st1 := with_history (history st) i st in
    notify Redid (restoreState (history_at st1 i) st1)
  else st.

(** ** Graph store *)

(** A template literal prints [undefined] by its name. *)
Definition template (v : Id) : string :=
  match v with Some s => s | None => "undefined" end.

(** [Math.round(v / 20) * 20], computed exactly.  For a binary64
    number of magnitude up to [10^15] this is what the editor computes:
    the quotient is rounded by less than its distance to the nearest
    half-integer, so [Math.round] returns the integer the exact
    quotient rounds to, and the product of that integer by 20 is below
    [2^53] and exact.  For larger numbers the editor's product is
    rounded and the result differs. *)
Definition snap (v : option Q) : option Q :=
  option_map (fun q => inject_Z (Math_round (q / 20) * 20)) v.

(** [createBlockElement]: the element gets the id [canvas-<block.id>]
    and the position of the block.  [Utils.camelToTitle(block.type)]
    calls a method of the type, [block.definition.description] reads a
    property of the definition and [Object.keys(block.properties)] needs
    an object: each raises a [TypeError] on [undefined]. *)
Definition createBlockElement (block : BlockObj) : Result Element :=
  match b_type block, b_definition block, b_properties block with
  | None, _, _ => Throw (TypeError "str.replace")
  | Some _, None, _ => Throw (TypeError "block.definition.description")
  | Some _, Some _, None => Throw (TypeError "Object.keys")
  | Some _, Some _, Some _ =>
      Ok {| el_id := ("canvas-" ++ template (b_id block))%string;
            el_left := b_x block;
            el_top := b_y block;
            el_blockData := None;
            el_x := None; el_y := None;
            el_draggable := true |}
  end.

Definition set_blockData (o : JsObj) (e : Element) : Element :=
  {| el_id := el_id e; el_left := el_left e; el_top := el_top e;
     el_blockData := Some o;
     el_x := el_x e; el_y := el_y e; el_draggable := el_draggable e |}.

(** [parseInt(a.id.split('_')[1])] on an element of the map. *)
Definition id_number (e : Element) : option Z :=
  parseInt (nth_error (split_on "_" (el_id e)) 1).

(** The comparison of [autoConnectNewBlock], [bNum - aNum]; [sort] takes
    a [NaN] result for zero. *)
Definition by_id_number_desc (a b : Element) : Z :=
  match id_number b, id_number a with
  | Some bNum, Some aNum => bNum - aNum
  | _, _ => 0
  end.

(** [autoConnectNewBlock(newBlock)]: nothing for an empty map;
    otherwise the first element after sorting is the last block. *)
Definition autoConnectNewBlock (newBlock : BlockObj) (st : State) : State :=
  let existingBlocks := map_values (blocks st) in
  match sort by_id_number_desc existingBlocks with
  | [] => st
  | lastBlock :: _ =>
      if str_eqb (el_type lastBlock) (Some "end") then st
      else if str_eqb (b_type newBlock) (Some "start")
              && (0 <? List.length existingBlocks)%nat then st
      else with_connections
             (connections st ++ [conn (Some (el_id lastBlock)) (b_id newBlock)]) st
  end.

Definition block_id (n : nat) : string := ("block_" ++ decimal n)%string.

(** The block object [addBlock] builds. *)
Definition new_block (blockId : string) (type : Id) (position : option Q * option Q)
    (definition : BlockDefinition) : BlockObj :=
  {| b_id := Some blockId;
     b_type := type;
     b_x := snap (fst position);
     b_y := snap (snd position);
     b_properties := Some [];
     b_definition := Some definition;
     b_language := None |}.

(** [block.properties = p]. *)
Definition set_properties (p : option Props) (block : BlockObj) : BlockObj :=
  {| b_id := b_id block; b_type := b_type block;
     b_x := b_x block; b_y := b_y block;
     b_properties := p;
     b_definition := b_definition block;
     b_language := b_language block |}.

(** [addBlock(type, position, definition)].  Opening the properties
    dialog for a definition with inputs changes nothing here. *)
Definition addBlock (type : Id) (position : option Q * option Q)
    (definition : BlockDefinition) : M string :=
  run (fun st => with_blockCounter (S (blockCounter st)) st) ;;;
  fun st =>
  (let blockId := block_id (blockCounter st) in
   let block := new_block blockId type position definition in
   run (autoConnectNewBlock block) ;;;
   blockElement <- (fun st => (createBlockElement block, st)) ;;
   run (fun st => with_blocks
          (map_set (Some blockId) (set_blockData (Plain block) blockElement)
             (blocks st)) st) ;;;
   run saveState ;;;
   run (notify (Added (template type))) ;;;
   ret blockId) st.

(** The selection is dropped when it is the removed block. *)
Definition deselect_removed (blockId : Id) (st : State) : State :=
  match selectedBlock st with
  | Some sel =>
      match el_blockData sel with
      | Some blockData =>
          if str_eqb (obj_id blockData) blockId
          then with_selectedBlock None st else st
      | None => st
      end
  | None => st
  end.

(** [removeBlock(blockId)]. *)
Definition removeBlock (blockId : Id) : M unit :=
  fun st =>
  match map_get blockId (blocks st) with
  | None => (Ok tt, st)
  | Some blockElement =>
      (let blockType := match el_blockData blockElement with
                        | Some blockData => obj_type blockData
                        | None => Some "unknown"
                        end in
       run (fun st => with_blocks (map_delete blockId (blocks st)) st) ;;;
       run (fun st => with_connections
              (filter (fun c => negb (str_eqb (conn_from c) blockId)
                                && negb (str_eqb (conn_to c) blockId))
                      (connections st)) st) ;;;
       run (deselect_removed blockId) ;;;
       run saveState ;;;
       match blockType with
       | Some t => run (notify (Removed t))
       | None => throw (TypeError "str.replace")
       end) st
  end.

(** An element moved to the snapped point, with the snapped point
    written on it as [x] and [y]. *)
Definition dragged_to (x y : Q) (e : Element) : Element :=
  let snappedX := snap (Some x) in
  let snappedY := snap (Some y) in
  {| el_id := el_id e; el_left := snappedX; el_top := snappedY;
     el_blockData := el_blockData e;
     el_x := snappedX; el_y := snappedY;
     el_draggable := el_draggable e |}.

(** The snapped point written as [x] and [y] on a value of the map
    that is not the element the listener moves. *)
Definition moved_data (x y : Q) (e : Element) : Element :=
  {| el_id := el_id e; el_left := el_left e; el_top := el_top e;
     el_blockData := el_blockData e;
     el_x := snap (Some x); el_y := snap (Some y);
     el_draggable := el_draggable e |}.

(** The [mousemove] listener that [addBlockEventListeners] registers for
    the element of [blockId], while that element is dragged to the
    canvas point [(x, y)]: the element is moved to the snapped point,
    and the snapped point is written as [x] and [y] on whatever the map
    holds under the id.  That is the element itself as long as it is
    the one [createBlockElement] made; once an undo, a redo or a
    session load has put a rebuilt element under the id, the listener
    moves the old element, which is off the canvas, and writes on the
    rebuilt one. *)
Definition onBlockMouseMove (blockId : Id) (x y : Q) (st : State) : State :=
  match map_get blockId (blocks st) with
  | Some e =>
      with_blocks
        (map_set blockId
           (if el_draggable e then dragged_to x y e else moved_data x y e)
           (blocks st)) st
  | None => st
  end.

(** The [mouseup] listener of a block element whose drag is in
    progress ([isDragging] is set).  A [mouseup] without a drag in
    progress does nothing and is no event of a session. *)
Definition onBlockMouseUp (st : State) : State := saveState st.

(** [blockManager.getBlockDefinition(type)] finds an entry. *)
Definition known_type (type : Id) (st : State) : bool :=
  existsb (fun t => str_eqb (Some t) type) (availableBlocks st).

(** [{ ...a, ...b }] on property maps. *)
Fixpoint prop_set (k v : string) (p : Props) : Props :=
  match p with
  | [] => [(k, v)]
  | (k', v') :: p' =>
      if String.eqb k' k then (k, v) :: p' else (k', v') :: prop_set k v p'
  end.
Definition spread (a b : Props) : Props :=
  fold_left (fun p kv => prop_set (fst kv) (snd kv) p) b a.

(** The [onSave] callback of the properties dialog that
    [editBlockProperties(blockId)] opens; the dialog is opened for a
    block whose type the catalogue knows. *)
Definition saveBlockProperties (blockId : Id) (newProperties : Props)
    (st : State) : State :=
  match map_get blockId (blocks st) with
  | Some e =>
      match el_blockData e with
      | Some (Plain block) =>
          if known_type (b_type block) st then
            let block' :=
              set_properties
                (Some (spread (match b_properties block with
                               | Some p => p | None => [] end) newProperties))
                block in
            notify PropertiesUpdated
              (saveState
                 (with_blocks (map_set blockId (set_blockData (Plain block') e)
                                 (blocks st)) st))
          else st
      | _ => st
      end
  | None => st
  end.

(** [duplicateBlock(blockId)].  An [undefined] definition makes
    [addBlock] fall back on its default [{}]. *)
Definition duplicateBlock (blockId : Id) : M unit :=
  fun st =>
  match map_get blockId (blocks st) with
  | Some originalBlockElement =>
      match el_blockData originalBlockElement with
      | Some originalBlock =>
          (let newPosition :=
             (option_map (fun v => v + 40)%Q (obj_x originalBlock),
              option_map (fun v => v + 40)%Q (obj_y originalBlock)) in
           newBlockId <- addBlock (obj_type originalBlock) newPosition
                           (match obj_definition originalBlock with
                            | Some d => d | None => no_definition end) ;;
           run (fun st =>
                  match map_get (Some newBlockId) (blocks st) with
                  | Some e =>
                      match el_blockData e with
                      | Some (Plain nb) =>
                          with_blocks
                            (map_set (Some newBlockId)
                               (set_blockData
                                  (Plain (set_properties
                                            (obj_properties originalBlock) nb)) e)
                               (blocks st)) st
                      | _ => st
                      end
                  | None => st
                  end)) st
      | None => (Ok tt, st)
      end
  | None => (Ok tt, st)
  end.

(** [clear()], the clear-all of the tool bar and of [import]. *)
Definition clear (st : State) : State :=
  notify Cleared
    (saveState (with_selectedBlock None (with_connections [] (with_blocks [] st)))).

(** [clearCanvas()], used when a saved session is loaded. *)
Definition clearCanvas (st : State) : State :=
  with_blockCounter 0 (with_connections [] (with_blocks [] st)).

(** ** Export, import and saved sessions *)

Record Metadata := {
  m_zoom : option Q;
  m_panX : option Q;
  m_panY : option Q
}.

(** The object [export()] returns and [import(data)] reads (the time
    stamp of the metadata is left out). *)
Record CanvasData := {
  cd_blocks : option (list BlockObj);
  cd_connections : option (list Connection);
  cd_metadata : option Metadata
}.

(** The document of a saved session. *)
Record SessionDoc := {
  sd_blocks : option (list BlockObj);
  sd_connections : option (list Connection);
  sd_zoom : option Q;
  sd_panX : option Q;
  sd_panY : option Q;
  sd_language : option string
}.

(** What the browser measures for an element: the offsets
    [rect.left - canvasRect.left] and [rect.top - canvasRect.top] of its
    bounding box against the box of the canvas content. *)
Definition Layout := Element -> Q * Q.

(** [export()].  The position written for a block is computed from what
    the browser measures, not from the stored [x] and [y].  (The zoom
    is never 0: every assignment of it falls back on 1.) *)
Definition export (layout : Layout) (st : State) : CanvasData :=
  {| cd_blocks :=
       Some (flat_map
         (fun blockElement =>
            match el_blockData blockElement with
            | Some block =>
                [ {| b_id := obj_id block;
                     b_type := obj_type block;
                     b_x := Some ((fst (layout blockElement) - panX st) / zoom st)%Q;
                     b_y := Some ((snd (layout blockElement) - panY st) / zoom st)%Q;
                     b_properties :=
                       Some (match obj_properties block with
                             | Some p => p | None => [] end);
                     b_definition :=
                       Some (match obj_definition block with
                             | Some d => d | None => no_definition end);
                     b_language := None |} ]
            | None => []      (* no type property on an element: null, filtered *)
            end)
         (map_values (blocks st)));
     cd_connections := Some (connections st);
     cd_metadata := Some {| m_zoom := Some (zoom st);
                            m_panX := Some (panX st);
                            m_panY := Some (panY st) |} |}.

(** The body of the [forEach] of [import]. *)
Definition import_block (block : BlockObj) : M unit :=
  element <- (fun st => (createBlockElement block, st)) ;;
  run (fun st => with_blocks
         (map_set (b_id block) (set_blockData (Plain block) element) (blocks st)) st).

(** [l.forEach(f)]: an exception of [f] ends the loop. *)
Fixpoint forEach {A} (f : A -> M unit) (l : list A) : M unit :=
  match l with
  | [] => ret tt
  | a :: l' => f a ;;; forEach f l'
  end.

(** [import(data)]; [None] is a missing argument. *)
Definition import (data : option CanvasData) : M unit :=
  match data with
  | None => throw InvalidCanvasData
  | Some data =>
      match cd_blocks data with
      | None => throw InvalidCanvasData
      | Some data_blocks =>
          run clear ;;;
          forEach import_block data_blocks ;;;
          run (fun st => match cd_connections data with
                         | Some c => with_connections c st
                         | None => st
                         end) ;;;
          run (fun st => match cd_metadata data with
                         | Some m => with_view (num_or (m_zoom m) 1)
                                               (num_or (m_panX m) 0)
                                               (num_or (m_panY m) 0) st
                         | None => st
                         end) ;;;
          run saveState ;;;
          run (notify Imported)
      end
  end.

(** [a || b] on strings: the empty string is falsy. *)
Definition str_or (a b : option string) : option string :=
  match a with
  | Some "" => b
  | Some s => Some s
  | None => b
  end.

(** [createBlockFromData(blockData)]: nothing is created for a type the
    catalogue does not know. *)
Definition createBlockFromData (blockData : BlockObj) (st : State) : State :=
  if known_type (b_type blockData) st then
    let data := {| b_id := b_id blockData;
                   b_type := b_type blockData;
                   b_x := None; b_y := None;
                   b_properties := Some (match b_properties blockData with
                                         | Some p => p | None => [] end);
                   b_definition := None;
                   b_language := str_or (b_language blockData) (currentLanguage st) |} in
    with_blocks
      (map_set (b_id blockData)
         {| el_id := "";
            el_left := b_x blockData;
            el_top := b_y blockData;
            el_blockData := Some (Plain data);
            el_x := None; el_y := None;
            el_draggable := false |} (blocks st)) st
  else st.

(** [restoreFromJSONState(canvasState)], called when a saved session
    has been fetched. *)
Definition restoreFromJSONState (canvasState : SessionDoc) (st : State) : State :=
  let st1 := clearCanvas st in
  let st2 := match sd_blocks canvasState with
             | Some bs => fold_left (fun s b => createBlockFromData b s) bs st1
             | None => st1
             end in
  let st3 := match sd_connections canvasState with
             | Some cs =>
                 with_connections
                   (map (fun c => {| conn_from := conn_from c; conn_to := conn_to c;
                                     conn_fromPort := conn_fromPort c;
                                     conn_toPort := conn_toPort c |}) cs) st2
             | None => st2
             end in
  with_currentLanguage (str_or (sd_language canvasState) (Some "python"))
    (with_view (num_or (sd_zoom canvasState) 1)
               (num_or (sd_panX canvasState) 0)
               (num_or (sd_panY canvasState) 0) st3).

(** ** Sessions as sequences of events *)

Inductive Event :=
| EvAddBlock (type : Id) (position : option Q * option Q) (definition : BlockDefinition)
| EvRemoveBlock (blockId : Id)
| EvMouseMove (blockId : Id) (x y : Q)
| EvMouseUp
| EvSaveProperties (blockId : Id) (newProperties : Props)
| EvDuplicate (blockId : Id)
| EvClear
| EvUndo
| EvRedo
| EvImport (data : option CanvasData)
| EvLoad (canvasState : SessionDoc)
| EvCatalog (blockTypes : list string)
| EvTick (dt : nat).

(** One event; an exception that leaves a handler leaves the editor as
    the handler had it by then. *)
Definition step (ev : Event) (st : State) : State :=
  match ev with
  | EvAddBlock type position definition => snd (addBlock type position definition st)
  | EvRemoveBlock blockId => snd (removeBlock blockId st)
  | EvMouseMove blockId x y => onBlockMouseMove blockId x y st
  | EvMouseUp => onBlockMouseUp st
  | EvSaveProperties blockId p => saveBlockProperties blockId p st
  | EvDuplicate blockId => snd (duplicateBlock blockId st)
  | EvClear => clear st
  | EvUndo => undo st
  | EvRedo => redo st
  | EvImport data => snd (import data st)
  | EvLoad canvasState => restoreFromJSONState canvasState st
  | EvCatalog blockTypes => with_availableBlocks blockTypes st
  | EvTick dt => tick dt st
  end.

Definition steps (evs : list Event) (st : State) : State :=
  fold_left (fun s ev => step ev s) evs st.

(** ** Notions used in the statements *)

(** The history cursor is between [-1] and the last index. *)
Definition history_wf (st : State) : Prop :=
  -1 <= historyIndex st < Z.of_nat (List.length (history st)).

(** At most the timeout of the [autoSaveTimeout] field is pending, and
    timeout handles are positive. *)
Definition timers_wf (st : State) : Prop :=
  (1 <= nextTimerId st)%nat /\
  (timers st = [] \/
   exists id d, timers st = [(id, d)] /\ autoSaveTimeout st = Some id /\ id <> 0%nat).

(** The entries [saveState] arrives at before the size limit applies:
    those up to the cursor and the new snapshot. *)
Definition pushed (st : State) : list Snapshot :=
  firstn (Z.to_nat (historyIndex st + 1)) (history st) ++ [snapshot st].

(** The handler of the event reaches [saveState] in this state: the
    event is a committed mutation. *)
Definition commits (ev : Event) (st : State) : bool :=
  match ev with
  | EvAddBlock (Some _) _ _ => true
  | EvRemoveBlock blockId =>
      match map_get blockId (blocks st) with Some _ => true | None => false end
  | EvMouseUp => true
  | EvSaveProperties blockId _ =>
      match map_get blockId (blocks st) with
      | Some e =>
          match el_blockData e with
          | Some (Plain block) => known_type (b_type block) st
          | _ => false
          end
      | None => false
      end
  | EvDuplicate blockId =>
      match map_get blockId (blocks st) with
      | Some e =>
          match el_blockData e with
          | Some o => match obj_type o with Some _ => true | None => false end
          | None => false
          end
      | None => false
      end
  | EvClear => true
  | EvImport (Some data) =>
      match cd_blocks data with Some _ => true | None => false end
  | _ => false
  end.

(** A burst after a first mutation: each further mutation comes [gap]
    milliseconds after the one before. *)
Fixpoint burst (b : list (nat * Event)) (st : State) : State :=
  match b with
  | [] => st
  | (gap, ev) :: b' => burst b' (step ev (tick gap st))
  end.

(** Every gap is shorter than the debounce delay and every event of the
    burst is a committed mutation. *)
Fixpoint within_window (b : list (nat * Event)) (st : State) : Prop :=
  match b with
  | [] => True
  | (gap, ev) :: b' =>
      Z.of_nat gap < autoSaveDelay /\
      commits ev (tick gap st) = true /\
      within_window b' (step ev (tick gap st))
  end.

(** The window's side of the state. *)
Definition env (st : State) : option nat * list (nat * Z) * nat * Z * list Z :=
  (autoSaveTimeout st, timers st, nextTimerId st, clock st, saveCalls st).

(** In [st] exactly one timeout is pending, armed at the time of [st0],
    and nothing was saved since [st0]. *)
Definition armed (st0 st : State) : Prop :=
  clock st = clock st0 /\
  saveCalls st = saveCalls st0 /\
  (1 <= nextTimerId st)%nat /\
  exists id, id <> 0%nat /\
    timers st = [(id, clock st0 + autoSaveDelay)] /\
    autoSaveTimeout st = Some id.

(** Sample inputs: a drop at the origin of the canvas. *)
Definition origin : option Q * option Q := (Some 0%Q, Some 0%Q).
Definition insert (type : string) : Event :=
  EvAddBlock (Some type) origin no_definition.

(** The id is a key of the block map. *)
Definition names_block (st : State) (i : Id) : bool :=
  match map_get i (blocks st) with Some _ => true | None => false end.

(** A connection with an end that is no block of the store. *)
Definition dangling (st : State) (c : Connection) : bool :=
  negb (names_block st (conn_from c)) || negb (names_block st (conn_to c)).

Definition add_or_remove (ev : Event) : Prop :=
  match ev with
  | EvAddBlock _ _ _ | EvRemoveBlock _ => True
  | _ => False
  end.

Definition starts_with (c : ascii) (s : string) : bool :=
  match s with
  | String c' _ => Ascii.eqb c c'
  | EmptyString => false
  end.

(** Keys of the map read [block_...], element ids and the sources of the
    connections read [canvas-...]. *)
Definition named_apart (st : State) : Prop :=
  Forall (fun kv => (exists s, fst kv = Some s /\ starts_with "b" s = true) /\
                    starts_with "c" (el_id (snd kv)) = true) (blocks st) /\
  Forall (fun c => exists s, conn_from c = Some s /\ starts_with "c" s = true)
         (connections st).

(** The type of the block stored under an id, read the way the editor
    reads it, through [blockData]. *)
Definition stored_type (st : State) (blockId : string) : option Id :=
  option_map (fun e => match el_blockData e with
                       | Some blockData => obj_type blockData
                       | None => None
                       end)
             (map_get (Some blockId) (blocks st)).

(** The ends of the connections, in order. *)
Definition links (st : State) : list (Id * Id) :=
  map (fun c => (conn_from c, conn_to c)) (connections st).

(** A property of the entries of the block map and of the entries of
    the history snapshots. *)
Definition store_inv (PE : Id -> Element -> Prop) (PO : Id -> JsObj -> Prop)
    (st : State) : Prop :=
  (forall k e, In (k, e) (blocks st) -> PE k e) /\
  (forall s k o, In s (history st) -> In (k, o) (s_blocks s) -> PO k o).

(** Events other than importing a document and loading a session. *)
Definition no_reload (ev : Event) : Prop :=
  match ev with
  | EvImport _ | EvLoad _ => False
  | _ => True
  end.

(** The block object the handler of the event passes to
    [createBlockElement], when it calls [addBlock]. *)
Definition inserted_block (ev : Event) (st : State) : option BlockObj :=
  let blockId := block_id (S (blockCounter st)) in
  match ev with
  | EvAddBlock type position definition =>
      Some (new_block blockId type position definition)
  | EvDuplicate original =>
      match map_get original (blocks st) with
      | Some e =>
          match el_blockData e with
          | Some o =>
              Some (new_block blockId (obj_type o)
                      (option_map (fun v => (v + 40)%Q) (obj_x o),
                       option_map (fun v => (v + 40)%Q) (obj_y o))
                      (match obj_definition o with
                       | Some d => d | None => no_definition end))
          | None => None
          end
      | None => None
      end
  | _ => None
  end.

(** The call tells its caller that it failed: it raises. *)
Definition reports_failure {A} (r : Result A) : Prop := exists e, r = Throw e.

(** A coordinate that is a multiple of the grid unit. *)
Definition on_grid (v : option Q) : Prop :=
  exists q k, v = Some q /\ q == inject_Z (k * 20).

(** The same for a property that may be missing. *)
Definition maybe_on_grid (v : option Q) : Prop := v = None \/ on_grid v.

Fixpoint obj_on_grid (o : JsObj) : Prop :=
  match o with
  | Plain b => on_grid (b_x b) /\ on_grid (b_y b)
  | Cloned inner x y =>
      maybe_on_grid x /\ maybe_on_grid y /\
      match inner with Some i => obj_on_grid i | None => True end
  end.

(** Every coordinate kept for a block element: its place on the canvas,
    the point a drag wrote on it, and the position in its block data. *)
Definition el_on_grid (e : Element) : Prop :=
  on_grid (el_left e) /\ on_grid (el_top e) /\
  maybe_on_grid (el_x e) /\ maybe_on_grid (el_y e) /\
  match el_blockData e with Some o => obj_on_grid o | None => True end.

(** Events that create and move blocks inside the editor: no import, no
    session load, and a drop at a point with two coordinates. *)
Definition placed (ev : Event) : Prop :=
  match ev with
  | EvAddBlock _ (Some _, Some _) _ => True
  | EvAddBlock _ _ _ => False
  | EvImport _ | EvLoad _ => False
  | _ => True
  end.

(** The range the editor is used in: coordinates of magnitude up to
    [10^15], in sessions of up to [10^12] events.  On binary64 numbers
    of that size the quotient by 20 rounds to the integer the exact
    quotient rounds to, and the integers that arise, their products by
    20 and their sums with 40 are below [2^53] and hence exact: there
    the arithmetic of the editor is the exact arithmetic used here.
    Beyond it the product by 20 is rounded and need not be a multiple
    of 20. *)
Definition coordinate_limit : Q := inject_Z (10 ^ 15).
Definition session_limit : Z := 10 ^ 12.

(** A coordinate, when there is one, is of magnitude at most [B]. *)
Definition within (B : Q) (v : option Q) : Prop :=
  match v with
  | Some q => (Qabs q <= B)%Q
  | None => True
  end.

Fixpoint obj_within (B : Q) (o : JsObj) : Prop :=
  match o with
  | Plain b => within B (b_x b) /\ within B (b_y b)
  | Cloned inner x y =>
      within B x /\ within B y /\
      match inner with Some i => obj_within B i | None => True end
  end.

Definition el_within (B : Q) (e : Element) : Prop :=
  within B (el_left e) /\ within B (el_top e) /\
  within B (el_x e) /\ within B (el_y e) /\
  match el_blockData e with Some o => obj_within B o | None => True end.

(** The points of the insertions and of the drag moves are in the
    range. *)
Definition in_range (ev : Event) : Prop :=
  match ev with
  | EvAddBlock _ (x, y) _ => within coordinate_limit x /\ within coordinate_limit y
  | EvMouseMove _ x y =>
      within coordinate_limit (Some x) /\ within coordinate_limit (Some y)
  | _ => True
  end.

(** How far a coordinate can be from the origin after [n] events in the
    range: a snap moves a point by at most 10, a duplication by 40
    more. *)
Definition reach (n : nat) : Q :=
  (coordinate_limit + 10 + 50 * inject_Z (Z.of_nat n))%Q.

(** A document with one block off the grid. *)
Definition off_grid_block : BlockObj :=
  {| b_id := Some "block_1"; b_type := Some "start";
     b_x := Some (7 # 1); b_y := Some (33 # 1);
     b_properties := Some []; b_definition := Some no_definition;
     b_language := None |}.

Definition off_grid_data : CanvasData :=
  {| cd_blocks := Some [off_grid_block];
     cd_connections := Some [];
     cd_metadata := None |}.

Definition off_grid_session : SessionDoc :=
  {| sd_blocks := Some [off_grid_block];
     sd_connections := Some [];
     sd_zoom := Some 1%Q; sd_panX := Some 0%Q; sd_panY := Some 0%Q;
     sd_language := Some "python" |}.

(** Keys of the form [block_j] with [j] up to a bound. *)
Definition numbered_up_to (N : nat) (k : Id) : Prop :=
  exists j, k = Some (block_id j) /\ (j <= N)%nat.

(** A saved session without blocks. *)
Definition empty_session : SessionDoc :=
  {| sd_blocks := Some []; sd_connections := Some [];
     sd_zoom := Some 1%Q; sd_panX := Some 0%Q; sd_panY := Some 0%Q;
     sd_language := Some "python" |}.

(** A document with one block, on the grid. *)
Definition one_block_data : CanvasData :=
  {| cd_blocks :=
       Some [ {| b_id := Some "block_1"; b_type := Some "start";
                 b_x := Some (40 # 1); b_y := Some (60 # 1);
                 b_properties := Some []; b_definition := Some no_definition;
                 b_language := None |} ];
     cd_connections := Some [];
     cd_metadata := None |}.

(** What a block of the store is, position aside: its id, type,
    properties and definition as its block data give them. *)
Definition content (e : Element)
    : option (Id * Id * option Props * option BlockDefinition) :=
  option_map (fun o => (obj_id o, obj_type o, obj_properties o, obj_definition o))
             (el_blockData e).

Definition contents (st : State) :=
  map (fun kv => (fst kv, content (snd kv))) (blocks st).

(** The element stored under [k] carries a block object with that id,
    with a type, properties and a definition. *)
Definition complete_block (k : Id) (e : Element) : Prop :=
  exists b t p d,
    el_blockData e = Some (Plain b) /\ b_id b = k /\
    b_type b = Some t /\ b_properties b = Some p /\ b_definition b = Some d.

(** The blocks [export] writes for the elements of a map, in a state
    with the view of [st0]. *)
Definition exported_blocks (layout : Layout) (st0 : State) (m : JsMap Element)
    : list BlockObj :=
  match cd_blocks (export layout (with_blocks m st0)) with
  | Some l => l
  | None => []
  end.

(** ** Notions for the further properties *)

(** The history holds no more entries than its size limit. *)
Definition history_bounded (st : State) : Prop :=
  (List.length (history st) <= maxHistorySize)%nat.

(** [n] calls of [undo]. *)
Fixpoint undo_times (n : nat) (st : State) : State :=
  match n with
  | O => st
  | S n' => undo_times n' (undo st)
  end.

(** What a snapshot keeps of the graph: keys, connections and view. *)
Definition snapshot_keys (s : Snapshot) : list Id := map fst (s_blocks s).

(** Insertions of a block of some type, and removals. *)
Definition typed_add_or_remove (ev : Event) : Prop :=
  match ev with
  | EvAddBlock (Some _) _ _ | EvRemoveBlock _ => True
  | _ => False
  end.

(** A drag of a block: the [mousemove] events of one gesture, by the
    canvas points they compute. *)
Definition drag (blockId : Id) (pts : list (Q * Q)) : list Event :=
  map (fun p => EvMouseMove blockId (fst p) (snd p)) pts.

(** [createBlockElement] accepts the block object. *)
Definition element_created (block : BlockObj) : Prop :=
  exists e, createBlockElement block = Ok e.

(** The view of the canvas. *)
Definition view (st : State) : Q * Q * Q := (zoom st, panX st, panY st).

(** The element [createBlockFromData] stores for a block of the
    document, in an editor whose current language is [language]. *)
Definition loaded_element (language : option string) (blockData : BlockObj)
    : Element :=
  {| el_id := "";
     el_left := b_x blockData;
     el_top := b_y blockData;
     el_blockData :=
       Some (Plain {| b_id := b_id blockData;
                      b_type := b_type blockData;
                      b_x := None; b_y := None;
                      b_properties := Some (match b_properties blockData with
                                            | Some p => p | None => [] end);
                      b_definition := None;
                      b_language := str_or (b_language blockData) language |});
     el_x := None; el_y := None;
     el_draggable := false |}.

(** Editing events: everything but undo, redo and the load of a saved
    session, with insertions of a block of some type. *)
Definition edit (ev : Event) : Prop :=
  match ev with
  | EvAddBlock None _ _ | EvUndo | EvRedo | EvLoad _ => False
  | _ => True
  end.

(** The keys of the block map are distinct and every element carries a
    complete block object with the id it is stored under. *)
Definition complete_store (st : State) : Prop :=
  NoDup (map_keys (blocks st)) /\
  forall k e, In (k, e) (blocks st) -> complete_block k e.

(** A document whose second block has no type. *)
Definition untyped_block_data : CanvasData :=
  {| cd_blocks :=
       Some [ {| b_id := Some "block_1"; b_type := Some "start";
                 b_x := Some (40 # 1); b_y := Some (60 # 1);
                 b_properties := Some []; b_definition := Some no_definition;
                 b_language := None |};
              {| b_id := Some "block_2"; b_type := None;
                 b_x := Some (40 # 1); b_y := Some (160 # 1);
                 b_properties := Some []; b_definition := Some no_definition;
                 b_language := None |};
              {| b_id := Some "block_3"; b_type := Some "end";
                 b_x := Some (40 # 1); b_y := Some (260 # 1);
                 b_properties := Some []; b_definition := Some no_definition;
                 b_language := None |} ];
     cd_connections := Some [conn (Some "block_1") (Some "block_2")];
     cd_metadata := None |}.

(** ** The view: zoom and pan *)

(** [Math.min] and [Math.max] of two numbers. *)
Definition Math_min (a b : Q) : Q := if Qle_bool a b then a else b.
Definition Math_max (a b : Q) : Q := if Qle_bool a b then b else a.

(** [zoomIn()], [zoomOut()] and [resetZoom()]. *)
Definition zoomIn (st : State) : State :=
  with_view (Math_min 3 (zoom st * (12 # 10))%Q) (panX st) (panY st) st.

Definition zoomOut (st : State) : State :=
  with_view (Math_max (1 # 10) (zoom st / (12 # 10))%Q) (panX st) (panY st) st.

Definition resetZoom (st : State) : State := with_view 1 0 0 st.

(** [onCanvasWheel(e)]; [mouseX] and [mouseY] are the offsets of the
    pointer in the box the browser measures for the canvas.  The new
    zoom and pan are written with exact operations where the editor
    rounds; what is stated of them below (the bounds of the clamp) does
    not depend on the rounding. *)
Definition onCanvasWheel (deltaY mouseX mouseY : Q) (st : State) : State :=
  let delta := if Qle_bool deltaY 0 then 11 # 10 else 9 # 10 in
  let newZoom := Math_max (1 # 10) (Math_min 3 (zoom st * delta)%Q) in
  if Qeq_bool newZoom (zoom st) then st
  else
    let canvasX := ((mouseX - panX st) / zoom st)%Q in
    let canvasY := ((mouseY - panY st) / zoom st)%Q in
    with_view newZoom (mouseX - canvasX * newZoom)%Q (mouseY - canvasY * newZoom)%Q st.

(** The object in [this.dragData]: the one [onCanvasMouseDown] makes,
    of type [pan], or the one the [mousedown] listener of
    [setupBlockEventListeners] makes, which has no type. *)
Inductive DragData :=
| PanData (startX startY : Q)
| BlockData (offsetX offsetY : Q).

(** The fields [isDragging] and [dragData] of the editor. *)
Record Pointer := {
  isDragging : bool;
  dragData : option DragData
}.

Definition released : Pointer := {| isDragging := false; dragData := None |}.

(** [onCanvasMouseDown(e)]; [onBackground] tells whether the target of
    the event is the canvas or its grid. *)
Definition onCanvasMouseDown (onBackground : bool) (clientX clientY : Q)
    (ps : Pointer * State) : Pointer * State :=
  let (p, st) := ps in
  if onBackground then
    ({| isDragging := true;
        dragData := Some (PanData (clientX - panX st)%Q (clientY - panY st)%Q) |},
     with_selectedBlock None st)
  else ps.

Definition onCanvasMouseMove (clientX clientY : Q) (ps : Pointer * State)
    : Pointer * State :=
  let (p, st) := ps in
  if isDragging p then
    match dragData p with
    | Some (PanData startX startY) =>
        (p, with_view (zoom st) (clientX - startX)%Q (clientY - startY)%Q st)
    | _ => ps
    end
  else ps.

Definition onCanvasMouseUp (ps : Pointer * State) : Pointer * State :=
  let (p, st) := ps in
  if isDragging p then
    match dragData p with
    | Some (PanData _ _) => (released, st)
    | _ => ps
    end
  else ps.

(** The elements that carry the [mousedown] listener of
    [setupBlockEventListeners]: those [createBlockFromData] builds.
    [restoreState] calls [setupBlockEventListeners] only when the
    catalogue knows [blockData.type], and on the copy of an element it
    restores from, that type is [undefined]. *)
Definition carries_listener (e : Element) : bool :=
  negb (el_draggable e) &&
  match el_blockData e with
  | Some (Plain _) => true
  | _ => false
  end.

(** That listener, for a [mousedown] on the element of [blockId] away
    from its delete button.  [selectBlock] is handed the element where
    it expects an id: it drops the selection and finds nothing to
    select. *)
Definition onLoadedBlockMouseDown (blockId : Id) (offsetX offsetY : Q)
    (ps : Pointer * State) : Pointer * State :=
  let (p, st) := ps in
  match map_get blockId (blocks st) with
  | Some e =>
      if carries_listener e
      then ({| isDragging := true; dragData := Some (BlockData offsetX offsetY) |},
            with_selectedBlock None st)
      else ps
  | None => ps
  end.

(** Events on the view. *)
Inductive ViewEvent :=
| VZoomIn
| VZoomOut
| VResetZoom
| VWheel (deltaY mouseX mouseY : Q)
| VMouseDown (onBackground : bool) (clientX clientY : Q)
| VMouseMove (clientX clientY : Q)
| VMouseUp
| VLoadedBlockMouseDown (blockId : Id) (offsetX offsetY : Q).

Definition view_step (ev : ViewEvent) (ps : Pointer * State) : Pointer * State :=
  match ev with
  | VZoomIn => (fst ps, zoomIn (snd ps))
  | VZoomOut => (fst ps, zoomOut (snd ps))
  | VResetZoom => (fst ps, resetZoom (snd ps))
  | VWheel deltaY mouseX mouseY => (fst ps, onCanvasWheel deltaY mouseX mouseY (snd ps))
  | VMouseDown onBackground clientX clientY =>
      onCanvasMouseDown onBackground clientX clientY ps
  | VMouseMove clientX clientY => onCanvasMouseMove clientX clientY ps
  | VMouseUp => onCanvasMouseUp ps
  | VLoadedBlockMouseDown blockId offsetX offsetY =>
      onLoadedBlockMouseDown blockId offsetX offsetY ps
  end.

Definition view_steps (evs : list ViewEvent) (ps : Pointer * State) : Pointer * State :=
  fold_left (fun s ev => view_step ev s) evs ps.

(** The zoom is between 10% and 300%. *)
Definition zoom_in_range (st : State) : Prop :=
  ((1 # 10) <= zoom st)%Q /\ (zoom st <= 3)%Q.

(** The graph, the history and the window's side of a state. *)
Definition document_of (st : State) :=
  (blocks st, connections st, blockCounter st, history st, historyIndex st, env st).

(** Pointer moves and releases. *)
Definition move_or_release (ev : ViewEvent) : Prop :=
  match ev with
  | VMouseMove _ _ | VMouseUp => True
  | _ => False
  end.

(** The [mousemove] events of a gesture over the canvas. *)
Definition pointer_moves (pts : list (Q * Q)) : list ViewEvent :=
  map (fun p => VMouseMove (fst p) (snd p)) pts.

(** The element a block of the store got from [createBlockElement]:
    the key reads [block_j] and the element id [canvas-block_j]. *)
Definition element_of_block (k : Id) (e : Element) : Prop :=
  exists j, k = Some (block_id j) /\ el_id e = ("canvas-" ++ block_id j)%string.

(** ** [Utils.debounce] and [Utils.throttle] *)

Section Wrappers.
Context {Args : Type}.

(** A function made by [Utils.debounce(func, wait)], with the window it
    runs in: the clock, the variable [timeout] of the closure, the
    pending timeouts with the arguments their [later] callbacks hold,
    the next handle, and the calls of [func] made so far with their
    times. *)
Record Debounced := {
  db_clock : Z;
  db_timeout : option nat;
  db_pending : list (nat * (Z * Args));
  db_next : nat;
  db_calls : list (Z * Args)
}.

(** [clearTimeout(timeout)]; nothing happens for [undefined]. *)
Definition db_clear (h : option nat) (l : list (nat * (Z * Args)))
    : list (nat * (Z * Args)) :=
  match h with
  | Some id => filter (fun p => negb (fst p =? id)%nat) l
  | None => l
  end.

(** A call of the returned function [executedFunction(...args)]. *)
Definition executedFunction (wait : Z) (args : Args) (s : Debounced) : Debounced :=
  let id := db_next s in
  {| db_clock := db_clock s;
     db_timeout := Some id;
     db_pending := db_clear (db_timeout s) (db_pending s)
                   ++ [(id, (db_clock s + Z.max 0 wait, args))];
     db_next := S id;
     db_calls := db_calls s |}.

(** The callback [later] of a timeout, run when it is due. *)
Definition later (due : Z) (args : Args) (s : Debounced) : Debounced :=
  {| db_clock := db_clock s;
     db_timeout := db_timeout s;
     db_pending := db_clear (db_timeout s) (db_pending s);
     db_next := db_next s;
     db_calls := db_calls s ++ [(due, args)] |}.

(** The timeouts of [todo] that are due and still pending fire in
    order. *)
Fixpoint db_fire (now : Z) (todo : list (nat * (Z * Args))) (s : Debounced)
    : Debounced :=
  match todo with
  | [] => s
  | (id, (due, args)) :: rest =>
      if (due <=? now) && existsb (fun p => (fst p =? id)%nat) (db_pending s)
      then db_fire now rest
             (later due args
                {| db_clock := db_clock s;
                   db_timeout := db_timeout s;
                   db_pending := filter (fun p => negb (fst p =? id)%nat) (db_pending s);
                   db_next := db_next s;
                   db_calls := db_calls s |})
      else db_fire now rest s
  end.

(** The window is idle for [dt] milliseconds. *)
Definition db_tick (dt : nat) (s : Debounced) : Debounced :=
  let now := db_clock s + Z.of_nat dt in
  let s' := db_fire now (db_pending s) s in
  {| db_clock := now;
     db_timeout := db_timeout s';
     db_pending := db_pending s';
     db_next := db_next s';
     db_calls := db_calls s' |}.

(** Further calls, each [gap] milliseconds after the one before. *)
Fixpoint db_burst (wait : Z) (b : list (nat * Args)) (s : Debounced) : Debounced :=
  match b with
  | [] => s
  | (gap, args) :: b' => db_burst wait b' (executedFunction wait args (db_tick gap s))
  end.

(** Nothing is pending but, at most, the timeout of the last call. *)
Definition db_wf (s : Debounced) : Prop :=
  db_pending s = [] \/
  exists id due args, db_pending s = [(id, (due, args))] /\ db_timeout s = Some id.

(** A function made by [Utils.throttle(func, limit)]: the clock, the
    variable [inThrottle] of the closure, the due times of the pending
    timeouts that reset it, and the calls of [func] so far. *)
Record Throttled := {
  th_clock : Z;
  th_inThrottle : bool;
  th_pending : list Z;
  th_calls : list (Z * Args)
}.

(** A call of the returned function. *)
Definition throttled (limit : Z) (args : Args) (s : Throttled) : Throttled :=
  if th_inThrottle s then s
  else {| th_clock := th_clock s;
          th_inThrottle := true;
          th_pending := th_pending s ++ [th_clock s + Z.max 0 limit];
          th_calls := th_calls s ++ [(th_clock s, args)] |}.

Definition th_tick (dt : nat) (s : Throttled) : Throttled :=
  let now := th_clock s + Z.of_nat dt in
  {| th_clock := now;
     th_inThrottle := if existsb (fun due => due <=? now) (th_pending s)
                      then false else th_inThrottle s;
     th_pending := filter (fun due => negb (due <=? now)) (th_pending s);
     th_calls := th_calls s |}.

Inductive ThrottleEvent :=
| ThCall (args : Args)
| ThTick (dt : nat).

Definition th_step (limit : Z) (ev : ThrottleEvent) (s : Throttled) : Throttled :=
  match ev with
  | ThCall args => throttled limit args s
  | ThTick dt => th_tick dt s
  end.

Definition th_steps (limit : Z) (evs : list ThrottleEvent) (s : Throttled) : Throttled :=
  fold_left (fun s ev => th_step limit ev s) evs s.

(** A wrapper that has not been called yet. *)
Definition th_new (now : Z) : Throttled :=
  {| th_clock := now; th_inThrottle := false; th_pending := []; th_calls := [] |}.

(** The invariant of a throttled function: every call made so far is
    at least the limit before [bound], the reset that is pending is due
    at [bound], and without a pending reset [bound] has passed. *)
Definition th_inv (limit : Z) (bound : Z) (s : Throttled) : Prop :=
  Forall (fun c => fst c + Z.max 0 limit <= bound) (th_calls s) /\
  StronglySorted (fun t t' => t + Z.max 0 limit <= t') (map fst (th_calls s)) /\
  (if th_inThrottle s then th_pending s = [bound]
   else th_pending s = [] /\ bound <= th_clock s).
End Wrappers.
Arguments Debounced : clear implicits.
Arguments Throttled : clear implicits.
Arguments ThrottleEvent : clear implicits.

(** ** The data the compiler manager prepares *)

(** What the compiler manager reads on a value of the block map: its
    [id], [type], [x], [y] and [properties]. *)
Record BlockView := {
  bv_id : Id;
  bv_type : Id;
  bv_x : option Q;
  bv_y : option Q;
  bv_properties : option Props
}.

(** The sign of a difference of two numbers; [NaN], which a missing
    operand gives, counts as zero for [sort]. *)
Definition sign_of_difference (a b : option Q) : Z :=
  match a, b with
  | Some p, Some q =>
      match Qcompare p q with Lt => -1 | Eq => 0 | Gt => 1 end
  | _, _ => 0
  end.

(** [a === b] on values that are numbers or [undefined]. *)
Definition strictly_equal (a b : option Q) : bool :=
  match a, b with
  | Some p, Some q => Qeq_bool p q
  | None, None => true
  | _, _ => false
  end.

(** The comparison of [prepareConnectionsData]: by [y], then by [x]. *)
Definition by_position (a b : BlockView) : Z :=
  if strictly_equal (bv_y a) (bv_y b)
  then sign_of_difference (bv_x a) (bv_x b)
  else sign_of_difference (bv_y a) (bv_y b).

(** The loop of [prepareConnectionsData]: one connection from each
    block to the next. *)
Fixpoint sequential (blocks : list BlockView) : list Connection :=
  match blocks with
  | a :: (b :: _) as rest => conn (bv_id a) (bv_id b) :: sequential rest
  | _ => []
  end.

(** [prepareConnectionsData()] on the values of the block map. *)
Definition prepareConnectionsData (values : list BlockView) : list Connection :=
  sequential (sort by_position values).

(** ** The document of a saved session *)

(** The object [saveToJSON()] sends to the server ([session_id], which
    [restoreFromJSONState] does not read, is left out).  The position
    of a block is what the browser measures.  A value of the map
    without [blockData] is an element, which has no [type]: it is
    filtered out. *)
Definition saveToJSON_payload (layout : Layout) (st : State) : SessionDoc :=
  {| sd_blocks :=
       Some (flat_map
         (fun blockElement =>
            match el_blockData blockElement with
            | Some block =>
                [ {| b_id := obj_id block;
                     b_type := obj_type block;
                     b_x := Some ((fst (layout blockElement) - panX st) / zoom st)%Q;
                     b_y := Some ((snd (layout blockElement) - panY st) / zoom st)%Q;
                     b_properties :=
                       Some (match obj_properties block with
                             | Some p => p | None => [] end);
                     b_definition := None;
                     b_language := str_or (obj_language block) (currentLanguage st) |} ]
            | None => []
            end)
         (map_values (blocks st)));
     sd_connections :=
       Some (map (fun c => {| conn_from := conn_from c; conn_to := conn_to c;
                              conn_fromPort := conn_fromPort c;
                              conn_toPort := conn_toPort c |}) (connections st));
     sd_zoom := Some (zoom st);
     sd_panX := Some (panX st);
     sd_panY := Some (panY st);
     sd_language := currentLanguage st |}.

(** The blocks of the store by key, with the type and the properties
    their block data give. *)
Definition typed_contents (st : State) : list (Id * option (Id * option Props)) :=
  map (fun kv => (fst kv,
                  option_map (fun o => (obj_type o, obj_properties o))
                             (el_blockData (snd kv))))
      (blocks st).

(** The catalogue of [st'] knows the type of every block of [st]. *)
Definition types_known (st st' : State) : Prop :=
  forall k e o, In (k, e) (blocks st) -> el_blockData e = Some o ->
                known_type (obj_type o) st' = true.

(** The Delete and Backspace branch of [onKeyDown]: the id handed to
    [removeBlock] is the [id] of the selected element. *)
Definition onDeleteKey : M unit :=
  fun st =>
  match selectedBlock st with
  | Some sel => removeBlock (Some (el_id sel)) st
  | None => (Ok tt, st)
  end.

(** The connections [renderConnections()] draws: those whose two ends
    are keys of the block map. *)
Definition drawn_connections (st : State) : list Connection :=
  filter (fun c => names_block st (conn_from c) && names_block st (conn_to c))
         (connections st).

(** * Properties *)

(** ** Helpers *)

Lemma str_eqb_eq a b : str_eqb a b = true <-> a = b.
Proof.
  destruct a as [x|], b as [y|]; simpl; try (split; congruence).
  rewrite String.eqb_eq. split; congruence.
Qed.

Lemma str_eqb_refl a : str_eqb a a = true.
Proof. now apply str_eqb_eq. Qed.

Lemma str_eqb_neq a b : str_eqb a b = false <-> a <> b.
Proof.
  rewrite <- str_eqb_eq. destruct (str_eqb a b); split; congruence.
Qed.

Lemma deepClone_id : forall o, deepClone o = o.
Proof.
  fix IH 1. intros [b|[inner|] x y]; simpl; [reflexivity| |reflexivity].
  now rewrite (IH inner).
Qed.

Lemma deepClone_element_eq e :
  deepClone_element e = Cloned (el_blockData e) (el_x e) (el_y e).
Proof.
  unfold deepClone_element. destruct (el_blockData e); [|reflexivity].
  now rewrite deepClone_id.
Qed.

Lemma decimal_inj n m : decimal n = decimal m -> n = m.
Proof.
  unfold decimal. intros H.
  apply Unsigned.to_uint_inj.
  assert (E : NilEmpty.uint_of_string (NilEmpty.string_of_uint (Nat.to_uint n))
            = NilEmpty.uint_of_string (NilEmpty.string_of_uint (Nat.to_uint m)))
    by now rewrite H.
  rewrite !NilEmpty.usu in E. congruence.
Qed.

Lemma block_id_inj n m : block_id n = block_id m -> n = m.
Proof.
  unfold block_id. intros H. apply decimal_inj.
  simpl in H. congruence.
Qed.

Section SortFacts.
Context {A : Type} (cmp : A -> A -> Z).

Lemma insert_sorted_In a l x :
    In x (insert_sorted cmp a l) <-> x = a \/ In x l.
Proof.
    induction l as [|b l IH]; simpl.
    - intuition congruence.
    - destruct (cmp a b <=? 0); simpl; [intuition congruence|].
      rewrite IH. intuition congruence.
Qed.

Lemma sort_In l x : In x (sort cmp l) <-> In x l.
Proof.
    induction l as [|a l IH]; simpl; [tauto|].
    rewrite insert_sorted_In, IH. intuition congruence.
Qed.
End SortFacts.

(** ** History engine *)

Lemma slice0_nonneg {A} (e : Z) (l : list A) :
  0 <= e -> slice0 e l = firstn (Z.to_nat e) l.
Proof.
  intros H. unfold slice0. destruct (0 <=? e) eqn:E; [reflexivity|lia].
Qed.

(** What [saveState] leaves in the history fields. *)
Lemma saveState_cut st :
  history_wf st ->
  (if historyIndex st <? Z.of_nat (List.length (history st)) - 1
   then slice0 (historyIndex st + 1) (history st)
   else history st)
  = firstn (Z.to_nat (historyIndex st + 1)) (history st).
Proof.
  intros [Hlo Hhi].
  destruct (historyIndex st <? Z.of_nat (List.length (history st)) - 1) eqn:C.
  - apply slice0_nonneg. lia.
  - symmetry. apply firstn_all2. lia.
Qed.

Lemma saveState_history st :
  history_wf st ->
  history (saveState st) =
  if (maxHistorySize <? List.length (pushed st))%nat
  then tl (pushed st) else pushed st.
Proof.
  intros Hwf. unfold saveState. cbv zeta. rewrite (saveState_cut st Hwf).
  fold (pushed st). destruct (maxHistorySize <? _)%nat; reflexivity.
Qed.

Lemma saveState_historyIndex st :
  history_wf st ->
  historyIndex (saveState st) =
  if (maxHistorySize <? List.length (pushed st))%nat
  then historyIndex st else historyIndex st + 1.
Proof.
  intros Hwf. unfold saveState. cbv zeta. rewrite (saveState_cut st Hwf).
  fold (pushed st). destruct (maxHistorySize <? _)%nat; reflexivity.
Qed.

Lemma pushed_length st :
  history_wf st -> List.length (pushed st) = S (Z.to_nat (historyIndex st + 1)).
Proof.
  intros [Hlo Hhi]. unfold pushed. rewrite length_app, length_firstn. simpl. lia.
Qed.

Lemma saveState_cursor_last st :
  history_wf st ->
  historyIndex (saveState st) = Z.of_nat (List.length (history (saveState st))) - 1.
Proof.
  intros Hwf.
  rewrite (saveState_history st Hwf), (saveState_historyIndex st Hwf).
  pose proof (pushed_length st Hwf) as L. destruct Hwf as [Hlo Hhi].
  destruct (maxHistorySize <? _)%nat eqn:C.
  - destruct (pushed st) as [|x h]; simpl in *; lia.
  - rewrite L. lia.
Qed.

Lemma saveState_wf st : history_wf st -> history_wf (saveState st).
Proof.
  intros Hwf. unfold history_wf.
  rewrite (saveState_cursor_last st Hwf), (saveState_history st Hwf).
  pose proof (pushed_length st Hwf) as L.
  destruct (maxHistorySize <? _)%nat eqn:C.
  - apply Nat.ltb_lt in C. unfold maxHistorySize in C.
    destruct (pushed st) as [|x h]; simpl in *; lia.
  - lia.
Qed.

Lemma restoreState_history s st :
  history (restoreState s st) = history st /\
  historyIndex (restoreState s st) = historyIndex st.
Proof. destruct s; simpl; auto. Qed.

Lemma undo_wf st : history_wf st -> history_wf (undo st).
Proof.
  unfold history_wf, undo. intros H.
  destruct (0 <? historyIndex st) eqn:C; [|exact H].
  simpl. destruct (restoreState_history
    (history_at (with_history (history st) (historyIndex st - 1) st) (historyIndex st - 1))
    (with_history (history st) (historyIndex st - 1) st)) as [-> ->].
  simpl. lia.
Qed.

Lemma redo_at_end st :
  Z.of_nat (List.length (history st)) - 1 <= historyIndex st -> redo st = st.
Proof.
  intros H. unfold redo.
  destruct (historyIndex st <? _) eqn:C; [lia|reflexivity].
Qed.

(** C4.  Push, push, undo, push: the last push cuts the history after
    the cursor, the cursor ends on the last entry, and [redo] then leaves
    the editor as it is. *)
Theorem push_push_undo_push_redo_noop (st : State) :
  history_wf st ->
  let st3 := undo (saveState (saveState st)) in
  let st4 := saveState st3 in
  history st4 =
    (if (maxHistorySize <? List.length (pushed st3))%nat
     then tl (pushed st3) else pushed st3) /\
  historyIndex st4 = Z.of_nat (List.length (history st4)) - 1 /\
  redo st4 = st4.
Proof.
  intros Hwf st3 st4.
  assert (W3 : history_wf st3)
    by (apply undo_wf, saveState_wf, saveState_wf, Hwf).
  split; [|split].
  - exact (saveState_history st3 W3).
  - apply saveState_cursor_last, W3.
  - apply redo_at_end. subst st4. rewrite (saveState_cursor_last st3 W3). lia.
Qed.

Lemma push_push_undo_push_redo_noop_witness :
  history_wf fresh /\
  redo (saveState (undo (saveState (saveState fresh))))
  = saveState (undo (saveState (saveState fresh))).
Proof.
  assert (W : history_wf fresh) by (unfold history_wf; simpl; lia).
  split; [exact W|].
  exact (proj2 (proj2 (push_push_undo_push_redo_noop fresh W))).
Defined.

(** ** Debounced autosave *)

Lemma scheduleAutoSave_armed st st1 :
  env st1 = env st -> timers_wf st -> armed st (scheduleAutoSave st1).
Proof.
  unfold env. intros E [Hn Ht]. injection E as Ea Et En Ec Es.
  unfold armed, scheduleAutoSave. simpl.
  rewrite Ea, Et, En, Ec, Es.
  repeat split; try lia.
  exists (nextTimerId st). split; [lia|].
  destruct Ht as [Ht | (id & d & Ht & Hid & Hnz)].
  - rewrite Ht. split; [|reflexivity].
    destruct (autoSaveTimeout st) as [i|]; [destruct (i =? 0)%nat|]; reflexivity.
  - rewrite Ht, Hid. split; [|reflexivity].
    destruct (id =? 0)%nat eqn:Z0; [apply Nat.eqb_eq in Z0; congruence|].
    unfold clearTimeout. simpl. rewrite Nat.eqb_refl. reflexivity.
Qed.

Lemma saveState_env st : exists st1, saveState st = scheduleAutoSave st1 /\ env st1 = env st.
Proof.
  unfold saveState. cbv zeta.
  destruct (maxHistorySize <? _)%nat; eexists; split; reflexivity.
Qed.

Lemma saveState_armed st st1 :
  env st1 = env st -> timers_wf st -> armed st (saveState st1).
Proof.
  intros E W. destruct (saveState_env st1) as (st2 & -> & E2).
  apply scheduleAutoSave_armed; [congruence|exact W].
Qed.

Lemma armed_wf st0 st : armed st0 st -> timers_wf st.
Proof.
  intros (_ & _ & Hn & id & Hz & Ht & Ha). split; [exact Hn|].
  right. eauto.
Qed.

Lemma armed_env st0 st st' : armed st0 st -> env st' = env st -> armed st0 st'.
Proof.
  unfold env, armed. intros (Hc & Hs & Hn & id & Hz & Ht & Ha) E.
  injection E as Ea Et En Ec Es. rewrite Ea, Et, En, Ec, Es. eauto 10.
Qed.

Lemma armed_again st0 st st' : armed st0 st -> armed st st' -> armed st0 st'.
Proof.
  unfold armed. intros (Hc & Hs & _) (Hc' & Hs' & Hn' & id & Hz & Ht & Ha).
  rewrite Hc', Hs', Hc, Hs. rewrite Hc in Ht. eauto 10.
Qed.

Lemma saveState_then st st1 st' :
  timers_wf st -> env st' = env (saveState st1) -> env st1 = env st ->
  armed st st'.
Proof.
  intros W E' E. eapply armed_env; [apply saveState_armed; eassumption|exact E'].
Qed.

Ltac after_saveState W :=
  eapply saveState_then; [exact W | reflexivity | ].

Lemma forEach_import_env bs st :
  env (snd (forEach import_block bs st)) = env st.
Proof.
  revert st. induction bs as [|b bs IH]; intros st; [reflexivity|].
  simpl. unfold bind at 1. unfold import_block at 1. unfold bind at 1.
  destruct (createBlockElement b) as [e|err]; [|reflexivity].
  unfold run. rewrite IH. reflexivity.
Qed.

Lemma import_armed data st :
  commits (EvImport data) st = true -> timers_wf st ->
  armed st (snd (import data st)).
Proof.
  destruct data as [data|]; [|discriminate]. simpl.
  destruct (cd_blocks data) as [bs|]; [|discriminate]. intros _ W.
  assert (A1 : armed st (clear st)).
  { unfold clear. after_saveState W. reflexivity. }
  unfold bind, run.
  pose proof (forEach_import_env bs (clear st)) as E.
  destruct (forEach import_block bs (clear st)) as [[[]|err] st2]; simpl in E |- *.
  - eapply armed_again; [exact A1|].
    assert (W2 : timers_wf (clear st)) by (eapply armed_wf; eauto).
    after_saveState W2. rewrite <- E.
    destruct (cd_connections data), (cd_metadata data); reflexivity.
  - eapply armed_env; eauto.
Qed.

Lemma addBlock_armed type position definition st :
  type <> None -> timers_wf st ->
  armed st (snd (addBlock type position definition st)).
Proof.
  intros Ht W. destruct type as [t|]; [|congruence].
  unfold addBlock, bind, run. simpl.
  after_saveState W.
  unfold autoConnectNewBlock. simpl.
  destruct (sort _ _); [reflexivity|].
  destruct (_ && _); reflexivity.
Qed.

(** After a committed mutation exactly one autosave is pending, due one
    delay later. *)
Lemma commit_armed ev st :
  commits ev st = true -> timers_wf st -> armed st (step ev st).
Proof.
  intros C W. destruct ev; simpl in C |- *; try discriminate.
  - destruct type; [|discriminate]. apply addBlock_armed; [discriminate|exact W].
  - unfold removeBlock. destruct (map_get blockId (blocks st)) as [e|]; [|discriminate].
    unfold bind, run. simpl.
    destruct (el_blockData e) as [o|]; simpl.
    + destruct (obj_type o); simpl; after_saveState W;
        unfold deselect_removed; simpl;
        destruct (selectedBlock st) as [sel|]; simpl; try reflexivity;
        destruct (el_blockData sel) as [o'|]; simpl; try reflexivity;
        destruct (str_eqb _ _); reflexivity.
    + after_saveState W. unfold deselect_removed; simpl.
      destruct (selectedBlock st) as [sel|]; simpl; try reflexivity;
        destruct (el_blockData sel) as [o'|]; simpl; try reflexivity;
        destruct (str_eqb _ _); reflexivity.
  - apply saveState_armed; [reflexivity|exact W].
  - unfold saveBlockProperties.
    destruct (map_get blockId (blocks st)) as [e|]; [|discriminate].
    destruct (el_blockData e) as [[b|]|]; try discriminate.
    rewrite C. after_saveState W. reflexivity.
  - unfold duplicateBlock.
    destruct (map_get blockId (blocks st)) as [e|]; [|discriminate].
    destruct (el_blockData e) as [o|]; [|discriminate].
    destruct (obj_type o) as [t|] eqn:Ot; [|discriminate].
    unfold bind at 1.
    pose proof (addBlock_armed (Some t)
      (option_map (fun v => (v + 40)%Q) (obj_x o),
       option_map (fun v => (v + 40)%Q) (obj_y o))
      (match obj_definition o with Some d => d | None => no_definition end)
      st ltac:(discriminate) W) as A.
    destruct (addBlock _ _ _ st) as [[newId|err] st1]; simpl in A |- *; [|exact A].
    eapply armed_env; [exact A|].
    destruct (map_get (Some newId) (blocks st1)) as [e1|]; [|reflexivity].
    destruct (el_blockData e1) as [[nb|]|]; reflexivity.
  - unfold clear. after_saveState W. reflexivity.
  - apply import_armed; assumption.
Qed.

Lemma armed_self st0 st : armed st0 st -> armed st st.
Proof.
  unfold armed. intros (Hc & Hs & Hn & id & Hz & Ht & Ha).
  rewrite Hc. eauto 10.
Qed.

(** A pause shorter than the delay fires nothing. *)
Lemma tick_before_due st gap :
  armed st st -> Z.of_nat gap < autoSaveDelay ->
  timers_wf (tick gap st) /\ saveCalls (tick gap st) = saveCalls st.
Proof.
  intros (_ & _ & Hn & id & Hz & Ht & Ha) Hg.
  unfold tick, timers_wf. simpl. rewrite Ht. simpl.
  destruct (clock st + autoSaveDelay <=? clock st + Z.of_nat gap) eqn:C; [lia|].
  simpl. rewrite app_nil_r. split; [|reflexivity]. split; [exact Hn|].
  right. eauto.
Qed.

(** A pause of at least the delay fires the pending timeout, once. *)
Lemma tick_when_due st idle :
  armed st st -> autoSaveDelay <= Z.of_nat idle ->
  saveCalls (tick idle st) = saveCalls st ++ [clock st + autoSaveDelay] /\
  timers (tick idle st) = [].
Proof.
  intros (_ & _ & Hn & id & Hz & Ht & Ha) Hg.
  unfold tick. simpl. rewrite Ht. simpl.
  destruct (clock st + autoSaveDelay <=? clock st + Z.of_nat idle) eqn:C; [|lia].
  split; reflexivity.
Qed.

Lemma burst_armed b : forall st,
  armed st st -> within_window b st ->
  armed (burst b st) (burst b st) /\ saveCalls (burst b st) = saveCalls st.
Proof.
  induction b as [|[gap ev] b IH]; intros st A Hw; simpl.
  - split; [exact A|reflexivity].
  - destruct Hw as (Hg & Hc & Hw).
    destruct (tick_before_due st gap A Hg) as [W1 S1].
    pose proof (commit_armed ev (tick gap st) Hc W1) as A2.
    destruct (IH _ (armed_self _ _ A2) Hw) as [A3 S3].
    split; [exact A3|]. rewrite S3.
    destruct A2 as (_ & -> & _). exact S1.
Qed.

(** C7.  A burst of committed mutations, each less than the delay after
    the one before, issues no save while it lasts and leaves one timeout
    pending, re-armed at the last mutation; once the editor has been
    idle for the delay, exactly one save has been issued, one delay
    after the last mutation, and no timeout is left. *)
Theorem burst_saves_once (st : State) (ev0 : Event) (rest : list (nat * Event))
    (idle : nat) :
  timers_wf st ->
  commits ev0 st = true ->
  within_window rest (step ev0 st) ->
  autoSaveDelay <= Z.of_nat idle ->
  let last := burst rest (step ev0 st) in
  saveCalls last = saveCalls st /\
  (exists id, timers last = [(id, clock last + autoSaveDelay)] /\
              autoSaveTimeout last = Some id) /\
  (forall dt, Z.of_nat dt < autoSaveDelay -> saveCalls (tick dt last) = saveCalls st) /\
  saveCalls (tick idle last) = saveCalls st ++ [clock last + autoSaveDelay] /\
  timers (tick idle last) = [].
Proof.
  intros W C Hw Hi last.
  pose proof (commit_armed ev0 st C W) as A0.
  destruct (burst_armed rest _ (armed_self _ _ A0) Hw) as [A S].
  fold last in A, S.
  assert (S0 : saveCalls last = saveCalls st)
    by (rewrite S; now destruct A0 as (_ & -> & _)).
  split; [exact S0|]. split; [|split].
  - destruct A as (_ & _ & _ & id & _ & Ht & Ha). eauto.
  - intros dt Hdt. rewrite <- S0. now apply tick_before_due.
  - rewrite <- S0. now apply tick_when_due.
Qed.

Lemma burst_saves_once_witness :
  let ten := (300%nat, EvMouseUp) ::
             (999%nat, EvAddBlock (Some "print") (Some 0%Q, Some 0%Q) no_definition) ::
             repeat (500%nat, EvClear) 7 in
  let last := burst ten (step (EvAddBlock (Some "start") (Some 0%Q, Some 0%Q)
                                 no_definition) fresh) in
  saveCalls last = [] /\
  saveCalls (tick 1000 last) = [clock last + autoSaveDelay].
Proof.
  intros ten last.
  assert (W : timers_wf fresh) by (split; [simpl; lia|left; reflexivity]).
  assert (Hw : within_window ten
                 (step (EvAddBlock (Some "start") (Some 0%Q, Some 0%Q) no_definition)
                    fresh)).
  { unfold ten. simpl. unfold autoSaveDelay. repeat split; lia. }
  destruct (burst_saves_once fresh
              (EvAddBlock (Some "start") (Some 0%Q, Some 0%Q) no_definition)
              ten 1000 W eq_refl Hw ltac:(unfold autoSaveDelay; lia))
    as (H1 & _ & _ & H2 & _).
  split; [exact H1|exact H2].
Defined.

(** ** Graph store and auto-linker *)

Lemma saveState_blocks st : blocks (saveState st) = blocks st.
Proof. unfold saveState. cbv zeta. destruct (_ <? _)%nat; reflexivity. Qed.

Lemma saveState_connections st : connections (saveState st) = connections st.
Proof. unfold saveState. cbv zeta. destruct (_ <? _)%nat; reflexivity. Qed.

Lemma saveState_blockCounter st : blockCounter (saveState st) = blockCounter st.
Proof. unfold saveState. cbv zeta. destruct (_ <? _)%nat; reflexivity. Qed.

Lemma Forall_map_set {V} (P : Id * V -> Prop) k v (m : JsMap V) :
  Forall P m -> P (k, v) -> Forall P (map_set k v m).
Proof.
  intros Hm Hkv. induction m as [|[k' v'] m IH]; simpl.
  - constructor; [exact Hkv|constructor].
  - inversion Hm; subst. destruct (str_eqb k' k); constructor; auto.
Qed.

Lemma Forall_filter {A} (P : A -> Prop) f (l : list A) :
  Forall P l -> Forall P (filter f l).
Proof.
  intros H. apply Forall_forall. intros x Hx. apply filter_In in Hx.
  rewrite Forall_forall in H. now apply H.
Qed.

Lemma autoConnectNewBlock_blocks b st :
  blocks (autoConnectNewBlock b st) = blocks st.
Proof.
  unfold autoConnectNewBlock. destruct (sort _ _); [reflexivity|].
  simpl. destruct (_ && _); reflexivity.
Qed.

Lemma autoConnectNewBlock_history b st :
  history (autoConnectNewBlock b st) = history st /\
  historyIndex (autoConnectNewBlock b st) = historyIndex st /\
  blockCounter (autoConnectNewBlock b st) = blockCounter st.
Proof.
  unfold autoConnectNewBlock. destruct (sort _ _); [auto|].
  simpl. destruct (_ && _); auto.
Qed.

(** The auto-linker adds at most one connection, and its source is the
    id attribute of an element of the map. *)
Lemma autoConnectNewBlock_connections b st :
  connections (autoConnectNewBlock b st) = connections st \/
  exists e, In e (map_values (blocks st)) /\
    connections (autoConnectNewBlock b st)
    = connections st ++ [conn (Some (el_id e)) (b_id b)].
Proof.
  unfold autoConnectNewBlock.
  destruct (sort by_id_number_desc (map_values (blocks st))) as [|e l] eqn:S;
    [now left|].
  simpl. destruct (_ && _); [now left|].
  right. exists e. split; [|reflexivity].
  apply (sort_In by_id_number_desc). rewrite S. now left.
Qed.

Lemma addBlock_named_apart type position definition st :
  named_apart st -> named_apart (snd (addBlock type position definition st)).
Proof.
  intros [Hb Hc]. unfold addBlock, bind, run. simpl.
  set (st1 := with_blockCounter (S (blockCounter st)) st).
  set (block := new_block (block_id (S (blockCounter st))) type position definition).
  assert (Hc1 : Forall (fun c => exists s, conn_from c = Some s /\
                                  starts_with "c" s = true)
                  (connections (autoConnectNewBlock block st1))).
  { destruct (autoConnectNewBlock_connections block st1) as [-> | (e & He & ->)];
      [exact Hc|].
    apply Forall_app. split; [exact Hc|]. constructor; [|constructor].
    simpl. eexists. split; [reflexivity|].
    apply in_map_iff in He. destruct He as ([k e'] & <- & Hin).
    rewrite Forall_forall in Hb. apply (Hb _ Hin). }
  unfold createBlockElement. subst block. simpl.
  destruct type as [t|]; simpl.
  - unfold named_apart. cbn [notify blocks connections].
    rewrite saveState_blocks, saveState_connections. simpl.
    rewrite autoConnectNewBlock_blocks. split; [|exact Hc1].
    apply Forall_map_set; [exact Hb|]. simpl. split; [|reflexivity].
    eexists. split; reflexivity.
  - unfold named_apart. rewrite autoConnectNewBlock_blocks.
    split; [exact Hb|exact Hc1].
Qed.

Lemma deselect_removed_graph blockId st :
  blocks (deselect_removed blockId st) = blocks st /\
  connections (deselect_removed blockId st) = connections st.
Proof.
  unfold deselect_removed. destruct (selectedBlock st) as [sel|]; [|now split].
  destruct (el_blockData sel) as [o|]; [|now split].
  destruct (str_eqb _ _); now split.
Qed.

(** The graph [removeBlock] leaves. *)
Lemma removeBlock_graph blockId st :
  let st' := snd (removeBlock blockId st) in
  match map_get blockId (blocks st) with
  | Some _ =>
      blocks st' = map_delete blockId (blocks st) /\
      connections st' =
        filter (fun c => negb (str_eqb (conn_from c) blockId)
                         && negb (str_eqb (conn_to c) blockId)) (connections st)
  | None => st' = st
  end.
Proof.
  unfold removeBlock.
  destruct (map_get blockId (blocks st)) as [e|]; [|reflexivity].
  unfold bind, run.
  destruct (match el_blockData e with
            | Some blockData => obj_type blockData
            | None => Some "unknown"
            end); cbn [fst snd notify throw blocks connections];
    rewrite saveState_blocks, saveState_connections;
    destruct (deselect_removed_graph blockId
      (with_connections
         (filter (fun c => negb (str_eqb (conn_from c) blockId)
                           && negb (str_eqb (conn_to c) blockId)) (connections
            (with_blocks (map_delete blockId (blocks st)) st)))
         (with_blocks (map_delete blockId (blocks st)) st))) as [-> ->];
    split; reflexivity.
Qed.

Lemma removeBlock_named_apart blockId st :
  named_apart st -> named_apart (snd (removeBlock blockId st)).
Proof.
  intros [Hb Hc]. pose proof (removeBlock_graph blockId st) as G. cbv zeta in G.
  destruct (map_get blockId (blocks st)) as [e|]; [|rewrite G; now split].
  destruct G as [G1 G2]. unfold named_apart. rewrite G1, G2.
  split; apply Forall_filter; assumption.
Qed.

Lemma steps_snoc evs ev st : steps (evs ++ [ev]) st = step ev (steps evs st).
Proof. unfold steps. now rewrite fold_left_app. Qed.

(** Whatever is inserted and removed, the source of a connection never
    is a key of the block map: the auto-linker names the element, the
    map is keyed by the block. *)
Lemma autolink_source_names_no_block evs :
  Forall add_or_remove evs ->
  forall c, In c (connections (steps evs fresh)) ->
    names_block (steps evs fresh) (conn_from c) = false.
Proof.
  intros Hevs.
  assert (N : named_apart (steps evs fresh)).
  { induction evs as [|ev evs IH] using rev_ind.
    - split; constructor.
    - apply Forall_app in Hevs. destruct Hevs as [H1 H2].
      inversion H2 as [|? ? Hev _]; subst.
      rewrite steps_snoc.
      destruct ev; simpl in Hev; try contradiction; simpl.
      + apply addBlock_named_apart, IH, H1.
      + apply removeBlock_named_apart, IH, H1. }
  destruct N as [Hb Hc]. intros c Hin.
  rewrite Forall_forall in Hc. destruct (Hc c Hin) as (s & -> & Hs).
  unfold names_block.
  induction (blocks (steps evs fresh)) as [|[k e] m IH]; [reflexivity|].
  inversion Hb as [|? ? [(s' & Hk & Hs') _] Hm]; subst. simpl in *. subst k.
  simpl. destruct (String.eqb s' s) eqn:E; [|now apply IH].
  apply String.eqb_eq in E. subst s'.
  destruct s as [|a s]; [discriminate|]. unfold starts_with in Hs, Hs'.
  apply Ascii.eqb_eq in Hs, Hs'. congruence.
Qed.

(** C1.  Two insertions into the empty store leave a dangling
    connection: its source [canvas-block_1] is the id attribute of the
    first element and no key of the block map.  Removing the first block
    afterwards does not remove the connection either. *)
Theorem autolink_leaves_dangling_connection :
  let st := steps [insert "start"; insert "print"] fresh in
  map_keys (blocks st) = [Some "block_1"; Some "block_2"] /\
  links st = [(Some "canvas-block_1", Some "block_2")] /\
  names_block st (Some "canvas-block_1") = false /\
  existsb (dangling st) (connections st) = true /\
  let st' := step (EvRemoveBlock (Some "block_1")) st in
  map_keys (blocks st') = [Some "block_2"] /\
  links st' = [(Some "canvas-block_1", Some "block_2")].
Proof. vm_compute. repeat split. Qed.

(** C3.  Inserting start, assign, print, end links each block to the
    one before, the source being named by the id attribute of its
    element, and a second start adds nothing.  A block inserted after an
    end block is linked to it all the same: the test of the last
    block's type reads the element, which has no type. *)
Theorem autolink_ignores_end_block :
  let st := steps [insert "start"; insert "assign"; insert "print"; insert "end"]
              fresh in
  links st = [(Some "canvas-block_1", Some "block_2");
              (Some "canvas-block_2", Some "block_3");
              (Some "canvas-block_3", Some "block_4")] /\
  links (step (insert "start") st) = links st /\
  stored_type st "block_4" = Some (Some "end") /\
  links (step (insert "print") st)
  = links st ++ [(Some "canvas-block_4", Some "block_5")] /\
  links (steps [insert "end"; insert "print"] fresh)
  = [(Some "canvas-block_1", Some "block_2")].
Proof. vm_compute. repeat split. Qed.

(** C2.  Two insertions and one undo: the cursor is on the first entry,
    but the live graph is not the graph of that entry.  Each restored
    element carries the whole entry as its block data, so a snapshot of
    the live state differs from the entry, and the type and id of the
    block read as undefined. *)
Theorem undo_restores_wrapped_blocks :
  let first := step (insert "start") fresh in
  let st := steps [insert "start"; insert "print"; EvUndo] fresh in
  historyIndex st = 0 /\
  history_at st 0 = Some (snapshot first) /\
  s_blocks (snapshot st) <> s_blocks (snapshot first) /\
  stored_type first "block_1" = Some (Some "start") /\
  stored_type st "block_1" = Some None.
Proof.
  repeat split; try (vm_compute; reflexivity).
  vm_compute. discriminate.
Qed.

(** C5.  After two insertions and an undo the block of the canvas is
    exported without id and type, whatever the browser measures, and
    importing the exported data raises a [TypeError] after the canvas
    was cleared. *)
Theorem export_import_after_undo_fails (layout : Layout) :
  let st := steps [insert "start"; insert "print"; EvUndo] fresh in
  map_keys (blocks st) = [Some "block_1"] /\
  option_map (map (fun b => (b_id b, b_type b))) (cd_blocks (export layout st))
  = Some [(None, None)] /\
  fst (import (Some (export layout st)) st) = Throw (TypeError "str.replace") /\
  blocks (snd (import (Some (export layout st)) st)) = [].
Proof. repeat split. Qed.

(** ** Invariants of the store and of the history *)

Lemma In_map_set {V} k v (m : JsMap V) k' v' :
  In (k', v') (map_set k v m) -> (k', v') = (k, v) \/ In (k', v') m.
Proof.
  induction m as [|[k0 v0] m IH]; simpl.
  - intuition.
  - destruct (str_eqb k0 k); simpl; intuition.
Qed.

Lemma map_get_In {V} k (m : JsMap V) v : map_get k m = Some v -> In (k, v) m.
Proof.
  induction m as [|[k0 v0] m IH]; simpl; [discriminate|].
  destruct (str_eqb k0 k) eqn:E.
  - intros H. injection H as ->. apply str_eqb_eq in E. subst. now left.
  - auto.
Qed.

Lemma In_map_delete {V} k (m : JsMap V) kv :
  In kv (map_delete k m) -> In kv m.
Proof. unfold map_delete. intros H. now apply filter_In in H. Qed.

Lemma In_prefix {A} n (l : list A) x : In x (firstn n l) -> In x l.
Proof.
  intros H. rewrite <- (firstn_skipn n l). apply in_or_app. now left.
Qed.

Lemma In_slice0 {A} e (l : list A) x : In x (slice0 e l) -> In x l.
Proof. unfold slice0. destruct (0 <=? e); apply In_prefix. Qed.

Lemma In_tl {A} (l : list A) x : In x (tl l) -> In x l.
Proof. destruct l; simpl; auto. Qed.

(** An entry of the history after [saveState] is an older entry or the
    snapshot just taken. *)
Lemma saveState_history_In st s :
  In s (history (saveState st)) -> In s (history st) \/ s = snapshot st.
Proof.
  unfold saveState. cbv zeta.
  set (h := if historyIndex st <? _ then _ else _).
  assert (Hh : forall x, In x h -> In x (history st)).
  { subst h. destruct (_ <? _); [apply In_slice0|auto]. }
  assert (G : In s (h ++ [snapshot st]) -> In s (history st) \/ s = snapshot st).
  { intros H. apply in_app_or in H. destruct H as [H|[H|[]]]; auto. }
  destruct (_ <? _)%nat; cbn [scheduleAutoSave with_timers with_history history];
    intros H; [apply In_tl in H|]; auto.
Qed.

Lemma restoreState_blocks_In s st k e :
  In (k, e) (blocks (restoreState (Some s) st)) ->
  exists o, In (k, o) (s_blocks s) /\ e = restored_element o.
Proof.
  simpl.
  assert (G : forall l acc,
             In (k, e) (fold_left
                          (fun m kv => map_set (fst kv) (restored_element (snd kv)) m)
                          l acc) ->
             In (k, e) acc \/ exists o, In (k, o) l /\ e = restored_element o).
  { induction l as [|[k0 o0] l IH]; intros acc H; simpl in *; [auto|].
    apply IH in H. destruct H as [H|(o & Ho & He)]; [|right; eauto].
    apply In_map_set in H. destruct H as [H|H]; [|auto].
    injection H as -> ->. right. eauto. }
  intros H. apply G in H. destruct H as [[]|H]; exact H.
Qed.

Lemma history_at_In st i s : history_at st i = Some s -> In s (history st).
Proof.
  unfold history_at. destruct (i <? 0); [discriminate|]. apply nth_error_In.
Qed.

Section StoreInvariant.
Variable PE : Id -> Element -> Prop.
Variable PO : Id -> JsObj -> Prop.
Hypothesis snapshot_ok : forall k e, PE k e -> PO k (deepClone_element e).
Hypothesis restore_ok : forall k o, PO k o -> PE k (restored_element o).


Lemma inv_ext st st' :
    blocks st' = blocks st -> history st' = history st ->
    store_inv PE PO st -> store_inv PE PO st'.
Proof. unfold store_inv. intros -> ->. auto. Qed.

Lemma saveState_inv st : store_inv PE PO st -> store_inv PE PO (saveState st).
Proof.
    intros [Hb Hh]. split.
    - rewrite saveState_blocks. exact Hb.
    - intros s k o Hs Hin. apply saveState_history_In in Hs.
      destruct Hs as [Hs | ->]; [eauto|].
      simpl in Hin. apply in_map_iff in Hin.
      destruct Hin as ([k' e] & E & Hin). injection E as <- <-.
      apply snapshot_ok, Hb, Hin.
Qed.

Lemma restoreState_inv s st :
    (forall x, s = Some x -> In x (history st)) ->
    store_inv PE PO st -> store_inv PE PO (restoreState s st).
Proof.
    intros Hs [Hb Hh]. destruct s as [x|]; [|now split].
    split.
    - intros k e Hin. apply restoreState_blocks_In in Hin.
      destruct Hin as (o & Ho & ->). apply restore_ok. eapply Hh; eauto.
    - exact Hh.
Qed.

Lemma undo_inv st : store_inv PE PO st -> store_inv PE PO (undo st).
Proof.
    intros H. unfold undo. destruct (0 <? historyIndex st); [|exact H].
    eapply inv_ext; [reflexivity|reflexivity|].
    apply restoreState_inv.
    - intros x Hx. apply history_at_In in Hx. exact Hx.
    - eapply inv_ext; [| |exact H]; reflexivity.
Qed.

Lemma redo_inv st : store_inv PE PO st -> store_inv PE PO (redo st).
Proof.
    intros H. unfold redo. destruct (historyIndex st <? _); [|exact H].
    eapply inv_ext; [reflexivity|reflexivity|].
    apply restoreState_inv.
    - intros x Hx. apply history_at_In in Hx. exact Hx.
    - eapply inv_ext; [| |exact H]; reflexivity.
Qed.

  (** Replacing or adding one entry, then committing. *)
Lemma set_inv st st1 k e :
    blocks st1 = map_set k e (blocks st) -> history st1 = history st ->
    PE k e -> store_inv PE PO st -> store_inv PE PO st1.
Proof.
    intros Eb Eh He [Hb Hh]. split.
    - rewrite Eb. intros k' e' Hin. apply In_map_set in Hin.
      destruct Hin as [E|Hin]; [injection E as -> ->; exact He|auto].
    - rewrite Eh. exact Hh.
Qed.

Lemma clear_inv st : store_inv PE PO st -> store_inv PE PO (clear st).
Proof.
    intros [Hb Hh]. unfold clear.
    eapply inv_ext; [reflexivity|reflexivity|].
    apply saveState_inv. split; [intros k e []|exact Hh].
Qed.

Lemma removeBlock_inv blockId st :
    store_inv PE PO st -> store_inv PE PO (snd (removeBlock blockId st)).
Proof.
    intros H. unfold removeBlock.
    destruct (map_get blockId (blocks st)) as [e|]; [|exact H].
    unfold bind, run.
    assert (G : store_inv PE PO (saveState (deselect_removed blockId
                 (with_connections
                    (filter (fun c => negb (str_eqb (conn_from c) blockId)
                                      && negb (str_eqb (conn_to c) blockId))
                       (connections st))
                    (with_blocks (map_delete blockId (blocks st)) st))))).
    { apply saveState_inv. destruct H as [Hb Hh]. split.
      - intros k e' Hin.
        rewrite (proj1 (deselect_removed_graph _ _)) in Hin. simpl in Hin.
        apply In_map_delete in Hin. auto.
      - unfold deselect_removed. simpl.
        destruct (selectedBlock st) as [sel|]; [|exact Hh].
        destruct (el_blockData sel) as [o|]; [|exact Hh].
        destruct (str_eqb _ _); exact Hh. }
    destruct (match el_blockData e with
              | Some blockData => obj_type blockData
              | None => Some "unknown"
              end); simpl; [|exact G].
    eapply inv_ext; [| |exact G]; reflexivity.
Qed.

  (** [addBlock] either raises before the block is stored, or stores the
      new element under the new id and commits. *)
Lemma addBlock_inv type position definition st :
    (forall e,
       createBlockElement
         (new_block (block_id (S (blockCounter st))) type position definition) = Ok e ->
       PE (Some (block_id (S (blockCounter st))))
          (set_blockData
             (Plain (new_block (block_id (S (blockCounter st))) type position definition))
             e)) ->
    store_inv PE PO st ->
    store_inv PE PO (snd (addBlock type position definition st)).
Proof.
    intros He H. unfold addBlock, bind, run. cbn [fst snd blockCounter with_blockCounter].
    destruct (createBlockElement _) as [e|err] eqn:C; cbn [fst snd].
    - eapply inv_ext; [reflexivity|reflexivity|].
      apply saveState_inv.
      eapply set_inv; [| |apply (He e eq_refl)|exact H].
      + cbn [blocks with_blocks]. rewrite autoConnectNewBlock_blocks. reflexivity.
      + cbn [history with_blocks].
        now rewrite (proj1 (autoConnectNewBlock_history _ _)).
    - eapply inv_ext; [| |exact H].
      + now rewrite autoConnectNewBlock_blocks.
      + now rewrite (proj1 (autoConnectNewBlock_history _ _)).
Qed.

Hypothesis properties_ok : forall k e b p,
    PE k e -> el_blockData e = Some (Plain b) ->
    PE k (set_blockData (Plain (set_properties p b)) e).

Lemma onBlockMouseMove_inv blockId x y st :
    (forall k e, PE k e -> PE k (dragged_to x y e) /\ PE k (moved_data x y e)) ->
    store_inv PE PO st -> store_inv PE PO (onBlockMouseMove blockId x y st).
Proof.
    intros Hd H. unfold onBlockMouseMove.
    destruct (map_get blockId (blocks st)) as [e|] eqn:G; [|exact H].
    eapply set_inv; [reflexivity|reflexivity| |exact H].
    apply map_get_In in G. apply (proj1 H) in G.
    destruct (Hd _ _ G) as [D M]. destruct (el_draggable e); assumption.
Qed.

Lemma saveBlockProperties_inv blockId p st :
    store_inv PE PO st -> store_inv PE PO (saveBlockProperties blockId p st).
Proof.
    intros H. unfold saveBlockProperties.
    destruct (map_get blockId (blocks st)) as [e|] eqn:G; [|exact H].
    destruct (el_blockData e) as [[b|]|] eqn:B; try exact H.
    destruct (known_type _ _); [|exact H].
    eapply inv_ext; [reflexivity|reflexivity|].
    apply saveState_inv.
    eapply set_inv; [reflexivity|reflexivity| |exact H].
    apply properties_ok; [|exact B]. apply (proj1 H). now apply map_get_In.
Qed.

Lemma duplicateBlock_inv blockId st :
    (forall e o, map_get blockId (blocks st) = Some e -> el_blockData e = Some o ->
       forall e',
       let block := new_block (block_id (S (blockCounter st))) (obj_type o)
                      (option_map (fun v => (v + 40)%Q) (obj_x o),
                       option_map (fun v => (v + 40)%Q) (obj_y o))
                      (match obj_definition o with
                       | Some d => d | None => no_definition end) in
       createBlockElement block = Ok e' ->
       PE (Some (block_id (S (blockCounter st)))) (set_blockData (Plain block) e')) ->
    store_inv PE PO st -> store_inv PE PO (snd (duplicateBlock blockId st)).
Proof.
    intros He H. unfold duplicateBlock.
    destruct (map_get blockId (blocks st)) as [e|] eqn:G; [|exact H].
    destruct (el_blockData e) as [o|] eqn:B; [|exact H].
    unfold bind at 1.
    pose proof (addBlock_inv (obj_type o)
      (option_map (fun v => (v + 40)%Q) (obj_x o),
       option_map (fun v => (v + 40)%Q) (obj_y o))
      (match obj_definition o with Some d => d | None => no_definition end)
      st (He e o eq_refl B) H) as A.
    destruct (addBlock _ _ _ st) as [[newId|err] st1]; cbn [fst snd] in A |- *;
      [|exact A].
    unfold run. cbn [snd].
    destruct (map_get (Some newId) (blocks st1)) as [e1|] eqn:G1; [|exact A].
    destruct (el_blockData e1) as [[nb|]|] eqn:B1; try exact A.
    eapply set_inv; [reflexivity|reflexivity| |exact A].
    apply properties_ok; [|exact B1]. apply (proj1 A). now apply map_get_In.
Qed.

  (** One event that is not a reload keeps the invariant, provided the
      element of a block it inserts has the property. *)
Lemma step_inv ev st :
    no_reload ev ->
    (forall blockId x y, ev = EvMouseMove blockId x y ->
       forall k e, PE k e -> PE k (dragged_to x y e) /\ PE k (moved_data x y e)) ->
    (forall block e,
       inserted_block ev st = Some block -> createBlockElement block = Ok e ->
       PE (Some (block_id (S (blockCounter st)))) (set_blockData (Plain block) e)) ->
    store_inv PE PO st -> store_inv PE PO (step ev st).
Proof.
    intros Hev Hdrag Hnew H. destruct ev; simpl in Hev; try contradiction;
      cbn [step].
    - apply addBlock_inv; [|exact H]. intros e. apply Hnew. reflexivity.
    - apply removeBlock_inv, H.
    - apply onBlockMouseMove_inv; [|exact H]. now apply (Hdrag blockId x y).
    - apply saveState_inv, H.
    - apply saveBlockProperties_inv, H.
    - apply duplicateBlock_inv; [|exact H].
      intros e o G B e' block. apply Hnew. cbn [inserted_block].
      rewrite G, B. reflexivity.
    - apply clear_inv, H.
    - apply undo_inv, H.
    - apply redo_inv, H.
    - eapply inv_ext; [| |exact H]; reflexivity.
    - eapply inv_ext; [| |exact H]; reflexivity.
Qed.
End StoreInvariant.

(** ** Removing an unknown block *)

(** C6, as the code has it.  [removeBlock] of an id that is not in the
    store returns normally and changes nothing: the map, the
    connections, the selection, the history, the pending timeout and the
    messages are those of before. *)
Theorem removeBlock_unknown_changes_nothing (st : State) (blockId : Id) :
  map_get blockId (blocks st) = None ->
  removeBlock blockId st = (Ok tt, st).
Proof. intros H. unfold removeBlock. now rewrite H. Qed.

Lemma removeBlock_unknown_changes_nothing_witness :
  map_get (Some "block_7") (blocks (step (insert "start") fresh)) = None /\
  removeBlock (Some "block_7") (step (insert "start") fresh)
  = (Ok tt, step (insert "start") fresh).
Proof.
  split; [reflexivity|].
  apply removeBlock_unknown_changes_nothing. reflexivity.
Defined.

(** C6, the part that fails.  The caller of [removeBlock] is told
    nothing about an unknown id: the call returns as the removal of a
    block that exists does, and no message is issued. *)
Lemma removeBlock_unknown_reports_nothing :
  let st := step (insert "start") fresh in
  names_block st (Some "block_7") = false /\
  names_block st (Some "block_1") = true /\
  ~ reports_failure (fst (removeBlock (Some "block_7") st)) /\
  fst (removeBlock (Some "block_7") st) = fst (removeBlock (Some "block_1") st) /\
  notices (snd (removeBlock (Some "block_7") st)) = notices st.
Proof.
  repeat split.
  intros [e H]. vm_compute in H. discriminate.
Qed.

(** ** Grid alignment *)

Lemma Math_round_bounds (q : Q) :
  (inject_Z (Math_round q) - (1 # 2) <= q)%Q /\
  (q < inject_Z (Math_round q) + (1 # 2))%Q.
Proof.
  unfold Math_round.
  pose proof (Qfloor_le (q + (1 # 2))) as L.
  pose proof (Qlt_floor (q + (1 # 2))) as U.
  rewrite inject_Z_plus in U. change (inject_Z 1) with 1%Q in U. split; lra.
Qed.

Lemma snap_on_grid q : on_grid (snap (Some q)).
Proof.
  unfold on_grid, snap. simpl. eexists _, (Math_round (q / 20)).
  split; reflexivity.
Qed.

Lemma num_or_on_grid v : maybe_on_grid v -> on_grid (Some (num_or v 0)).
Proof.
  intros [-> | (q & k & -> & Hq)]; simpl.
  - exists 0%Q, 0. split; reflexivity.
  - destruct (Qeq_bool q 0).
    + exists 0%Q, 0. split; reflexivity.
    + exists q, k. split; [reflexivity|exact Hq].
Qed.

Lemma obj_x_maybe_on_grid o :
  obj_on_grid o -> maybe_on_grid (obj_x o) /\ maybe_on_grid (obj_y o).
Proof.
  destruct o as [b|inner x y]; simpl.
  - intros [Hx Hy]. split; right; assumption.
  - intros (Hx & Hy & _). split; assumption.
Qed.

Lemma plus_40_snap_on_grid v :
  on_grid v -> on_grid (snap (option_map (fun q => (q + 40)%Q) v)).
Proof. intros (q & k & -> & _). apply snap_on_grid. Qed.

Lemma new_element_on_grid blockId type x y definition e :
  createBlockElement (new_block blockId type (x, y) definition) = Ok e ->
  on_grid (snap x) -> on_grid (snap y) ->
  el_on_grid (set_blockData (Plain (new_block blockId type (x, y) definition)) e).
Proof.
  unfold createBlockElement. simpl. destruct type; [|discriminate].
  intros E Hx Hy. injection E as <-. unfold el_on_grid. simpl.
  repeat split; try assumption; now left.
Qed.

Lemma within_mono B B' v : (B <= B')%Q -> within B v -> within B' v.
Proof. destruct v as [q|]; unfold within; [|auto]. intros; lra. Qed.

Lemma obj_within_mono B B' : (B <= B')%Q -> forall o, obj_within B o -> obj_within B' o.
Proof.
  intros L. fix IH 1. intros [b|[inner|] x y]; cbn.
  - intros [Hx Hy]. split; eapply within_mono; eauto.
  - intros (Hx & Hy & Hi). repeat split; try (eapply within_mono; eauto).
    now apply IH.
  - intros (Hx & Hy & _). repeat split; eapply within_mono; eauto.
Qed.

Lemma el_within_mono B B' e : (B <= B')%Q -> el_within B e -> el_within B' e.
Proof.
  intros L (H1 & H2 & H3 & H4 & H5). unfold el_within.
  repeat split; try (eapply within_mono; eauto).
  destruct (el_blockData e); [|exact I]. eapply obj_within_mono; eauto.
Qed.

Lemma snap_within B q : (Qabs q <= B)%Q -> within (B + 10) (snap (Some q)).
Proof.
  intros H. unfold within, snap. cbn [option_map].
  apply Qabs_Qle_condition in H. apply Qabs_Qle_condition.
  destruct (Math_round_bounds (q / 20)) as [L U].
  assert (E : (q == q / 20 * 20)%Q) by field.
  rewrite inject_Z_mult. change (inject_Z 20) with 20%Q. split; lra.
Qed.

Lemma snap_option_within B v : within B v -> within (B + 10) (snap v).
Proof.
  destruct v as [q|]; [apply snap_within|intros _; exact I].
Qed.

Lemma plus_40_within B v :
  within B v -> within (B + 40) (option_map (fun q => (q + 40)%Q) v).
Proof.
  destruct v as [q|]; unfold within; cbn [option_map]; [|auto]. intros H.
  apply Qabs_Qle_condition in H. apply Qabs_Qle_condition. split; lra.
Qed.

Lemma num_or_within B v : (0 <= B)%Q -> within B v -> within B (Some (num_or v 0)).
Proof.
  intros B0. destruct v as [q|]; unfold within, num_or.
  - intros H. destruct (Qeq_bool q 0); [|exact H].
    apply Qabs_Qle_condition. split; lra.
  - intros _. apply Qabs_Qle_condition. split; lra.
Qed.

Lemma obj_x_within B o : obj_within B o -> within B (obj_x o) /\ within B (obj_y o).
Proof. destruct o as [b|inner x y]; cbn; tauto. Qed.

Lemma reach_nonneg n : (0 <= reach n)%Q.
Proof.
  unfold reach, coordinate_limit.
  assert (H : (0 <= inject_Z (Z.of_nat n))%Q)
    by (rewrite <- (Zle_Qle 0); lia).
  assert (C : (0 <= inject_Z (10 ^ 15))%Q) by (rewrite <- (Zle_Qle 0); lia).
  lra.
Qed.

Lemma reach_next n : (reach (S n) == reach n + 50)%Q.
Proof.
  unfold reach. rewrite Nat2Z.inj_succ. unfold Z.succ. rewrite inject_Z_plus.
  change (inject_Z 1) with 1%Q. ring.
Qed.

Lemma reach_start n : (coordinate_limit + 10 <= reach n)%Q.
Proof.
  unfold reach.
  assert (H : (0 <= inject_Z (Z.of_nat n))%Q)
    by (rewrite <- (Zle_Qle 0); lia).
  lra.
Qed.

Lemma store_inv_mono (PE PE' : Id -> Element -> Prop) (PO PO' : Id -> JsObj -> Prop) st :
  (forall k e, PE k e -> PE' k e) -> (forall k o, PO k o -> PO' k o) ->
  store_inv PE PO st -> store_inv PE' PO' st.
Proof. intros HE HO [Hb Hh]. split; eauto. Qed.

(** Within the range, after [n] events every coordinate kept in the map
    and in the history is on the grid and within reach. *)
Lemma positions_in_reach (evs : list Event) :
  Forall placed evs -> Forall in_range evs ->
  store_inv (fun _ e => el_on_grid e /\ el_within (reach (List.length evs)) e)
            (fun _ o => obj_on_grid o /\ obj_within (reach (List.length evs)) o)
            (steps evs fresh).
Proof.
  induction evs as [|ev evs IH] using rev_ind; intros Hp Hr.
  - split; [intros k e []|intros s k o []].
  - apply Forall_app in Hp. destruct Hp as [Hp1 Hp2].
    apply Forall_app in Hr. destruct Hr as [Hr1 Hr2].
    inversion Hp2 as [|? ? Hev _]; subst. inversion Hr2 as [|? ? Hin _]; subst.
    specialize (IH Hp1 Hr1).
    rewrite steps_snoc, length_app. cbn [List.length].
    replace (List.length evs + 1)%nat with (S (List.length evs)) by lia.
    set (n := List.length evs) in *.
    pose proof (reach_next n) as RN. pose proof (reach_nonneg n) as R0.
    pose proof (reach_start n) as RS.
    assert (M : (reach n <= reach (S n))%Q) by lra.
    assert (IH' : store_inv (fun _ e => el_on_grid e /\ el_within (reach (S n)) e)
                    (fun _ o => obj_on_grid o /\ obj_within (reach (S n)) o)
                    (steps evs fresh)).
    { eapply store_inv_mono; [| |exact IH]; cbn beta.
      - intros k e [G W]. split; [exact G|]. now apply (el_within_mono (reach n)).
      - intros k o [G W]. split; [exact G|]. now apply (obj_within_mono (reach n)). }
    apply step_inv; try exact IH'.
    + intros _ e [(Hl & Ht & Hx & Hy & Hb) (Wl & Wt & Wx & Wy & Wb)].
      rewrite deepClone_element_eq. cbn. auto 10.
    + intros _ o [Ho Wo]. destruct (obj_x_maybe_on_grid o Ho) as [Hx Hy].
      destruct (obj_x_within _ o Wo) as [Wx Wy].
      unfold el_on_grid, el_within. cbn. rewrite deepClone_id.
      assert (R1 : (0 <= reach (S n))%Q) by lra.
      repeat split; try (now left); try exact Ho; try exact Wo; try exact I;
        first [now apply num_or_on_grid | now apply num_or_within].
    + intros _ e b p [(Hl & Ht & Hx & Hy & Hb) (Wl & Wt & Wx & Wy & Wb)] B.
      unfold el_on_grid, el_within. cbn.
      rewrite B in Hb, Wb. cbn in Hb, Wb. tauto.
    + destruct ev; simpl in Hev; try contradiction; exact I.
    + intros blockId x y -> _ e [(Hl & Ht & Hx & Hy & Hb) (Wl & Wt & Wx & Wy & Wb)].
      cbn [in_range] in Hin. destruct Hin as [Ix Iy].
      assert (Sx : within (reach (S n)) (snap (Some x))).
      { apply (within_mono (coordinate_limit + 10)); [lra|]. now apply snap_within. }
      assert (Sy : within (reach (S n)) (snap (Some y))).
      { apply (within_mono (coordinate_limit + 10)); [lra|]. now apply snap_within. }
      unfold el_on_grid, el_within. cbn.
      repeat split; try assumption; try (right; apply snap_on_grid);
        apply snap_on_grid.
    + intros block e Hins Hcr. destruct ev; simpl in Hev; try contradiction;
        cbn [inserted_block] in Hins; try discriminate.
      * destruct position as [[x|] [y|]]; try contradiction.
        cbn [in_range] in Hin. destruct Hin as [Ix Iy].
        injection Hins as <-. split.
        -- apply new_element_on_grid; [exact Hcr| |]; apply snap_on_grid.
        -- unfold createBlockElement in Hcr. cbn in Hcr.
           destruct type; [|discriminate]. injection Hcr as <-.
           assert (Sx : within (reach (S n)) (snap (Some x))).
           { apply (within_mono (coordinate_limit + 10)); [lra|]. now apply snap_within. }
           assert (Sy : within (reach (S n)) (snap (Some y))).
           { apply (within_mono (coordinate_limit + 10)); [lra|]. now apply snap_within. }
           unfold el_within. cbn. repeat split; assumption.
      * destruct (map_get blockId (blocks (steps evs fresh))) as [e0|] eqn:G;
          [|discriminate].
        destruct (el_blockData e0) as [o|] eqn:B; [|discriminate].
        injection Hins as <-.
        pose proof (proj1 IH _ _ (map_get_In _ _ _ G))
          as [(_ & _ & _ & _ & Hb) (_ & _ & _ & _ & Wb)].
        rewrite B in Hb, Wb.
        destruct o as [b|inner x y];
          [|unfold createBlockElement in Hcr; simpl in Hcr; discriminate].
        destruct Hb as [Hx Hy]. destruct Wb as [Wx Wy]. split.
        -- apply new_element_on_grid; [exact Hcr| |]; now apply plus_40_snap_on_grid.
        -- unfold createBlockElement in Hcr. cbn in Hcr.
           destruct (b_type b); [|discriminate]. injection Hcr as <-.
           assert (Sx : within (reach (S n))
                          (snap (option_map (fun v => (v + 40)%Q) (b_x b)))).
           { apply (within_mono (reach n + 40 + 10)); [lra|].
             apply snap_option_within. now apply plus_40_within. }
           assert (Sy : within (reach (S n))
                          (snap (option_map (fun v => (v + 40)%Q) (b_y b)))).
           { apply (within_mono (reach n + 40 + 10)); [lra|].
             apply snap_option_within. now apply plus_40_within. }
           unfold el_within. cbn. repeat split; assumption.
Qed.

(** C8, as the code has it.  In the range of the editor (insertion and
    drag points of magnitude up to 10^15, sessions of up to 10^12
    events), through insertions at a point of the canvas, duplications,
    drag moves, removals, property edits, clear-all, undo and redo,
    every coordinate stored for a block of the canvas is a multiple of
    20, and of magnitude at most 2 * 10^15: the numbers stay where the
    editor computes them exactly. *)
Theorem positions_stay_on_grid (evs : list Event) :
  Forall placed evs ->
  Forall in_range evs ->
  Z.of_nat (List.length evs) <= session_limit ->
  forall k e, In (k, e) (blocks (steps evs fresh)) ->
    el_on_grid e /\ el_within (2 * coordinate_limit) e.
Proof.
  intros Hp Hr Hn k e Hin.
  destruct (proj1 (positions_in_reach evs Hp Hr) k e Hin) as [G W].
  split; [exact G|]. apply (el_within_mono (reach (List.length evs))); [|exact W].
  unfold reach, coordinate_limit, session_limit in *.
  assert (L : (inject_Z (Z.of_nat (List.length evs)) <= inject_Z (10 ^ 12))%Q)
    by (rewrite <- Zle_Qle; exact Hn).
  change (inject_Z (10 ^ 12)) with (1000000000000 # 1)%Q in L.
  change (inject_Z (10 ^ 15)) with (1000000000000000 # 1)%Q.
  lra.
Qed.

Lemma positions_stay_on_grid_witness :
  let evs := [insert "start";
              EvAddBlock (Some "print") (Some (33 # 1), Some (50 # 1)) no_definition;
              EvMouseMove (Some "block_1") (127 # 2) (9 # 1); EvMouseUp;
              EvDuplicate (Some "block_2"); EvUndo;
              EvMouseMove (Some "block_1") (-45 # 1) (70 # 1)] in
  Forall placed evs /\ Forall in_range evs /\
  Z.of_nat (List.length evs) <= session_limit /\
  forall k e, In (k, e) (blocks (steps evs fresh)) ->
    el_on_grid e /\ el_within (2 * coordinate_limit) e.
Proof.
  intros evs.
  assert (H : Forall placed evs) by (repeat constructor).
  assert (R : Forall in_range evs)
    by (repeat constructor; cbn; apply Qle_bool_imp_le; reflexivity).
  assert (N : Z.of_nat (List.length evs) <= session_limit)
    by (vm_compute; discriminate).
  split; [exact H|]. split; [exact R|]. split; [exact N|].
  exact (positions_stay_on_grid evs H R N).
Defined.

(** C8, the part that fails.  [import] stores the coordinates of the
    document as they are, and loading a session places the element
    where the document says: 7 and 33 are kept, not snapped. *)
Lemma import_keeps_positions_off_grid :
  let st := snd (import (Some off_grid_data) fresh) in
  fst (import (Some off_grid_data) fresh) = Ok tt /\
  option_map el_blockData (map_get (Some "block_1") (blocks st))
  = Some (Some (Plain off_grid_block)) /\
  ~ on_grid (b_x off_grid_block) /\
  let st' := steps [EvCatalog ["start"]; EvLoad off_grid_session] fresh in
  option_map el_left (map_get (Some "block_1") (blocks st')) = Some (Some (7 # 1)).
Proof.
  repeat split.
  intros (q & k & E & H). injection E as <-.
  unfold Qeq in H. simpl in H. lia.
Qed.

(** ** Block ids *)

Lemma addBlock_blockCounter type position definition st :
  blockCounter (snd (addBlock type position definition st)) = S (blockCounter st).
Proof.
  unfold addBlock, bind, run, ret. cbn [fst snd blockCounter with_blockCounter].
  destruct (createBlockElement _) as [e|err]; cbn [fst snd notify blockCounter].
  - rewrite saveState_blockCounter. cbn [blockCounter with_blocks].
    now rewrite (proj2 (proj2 (autoConnectNewBlock_history _ _))).
  - now rewrite (proj2 (proj2 (autoConnectNewBlock_history _ _))).
Qed.

Lemma addBlock_returns type position definition st id st' :
  addBlock type position definition st = (Ok id, st') ->
  id = block_id (S (blockCounter st)).
Proof.
  unfold addBlock, bind, run. cbn [fst snd blockCounter with_blockCounter].
  destruct (createBlockElement _) as [e|err]; cbn [fst snd]; [|discriminate].
  unfold ret. intros H. now injection H as <- _.
Qed.

Lemma removeBlock_blockCounter blockId st :
  blockCounter (snd (removeBlock blockId st)) = blockCounter st.
Proof.
  unfold removeBlock. destruct (map_get blockId (blocks st)) as [e|]; [|reflexivity].
  unfold bind, run.
  destruct (match el_blockData e with
            | Some blockData => obj_type blockData
            | None => Some "unknown"
            end); unfold throw; cbn [fst snd notify blockCounter];
    rewrite saveState_blockCounter; unfold deselect_removed; simpl;
    destruct (selectedBlock st) as [sel|]; try reflexivity;
    destruct (el_blockData sel) as [o|]; try reflexivity;
    destruct (str_eqb _ _); reflexivity.
Qed.

Lemma restoreState_blockCounter s st :
  blockCounter (restoreState s st) = blockCounter st.
Proof. destruct s; reflexivity. Qed.

Lemma duplicateBlock_blockCounter blockId st :
  blockCounter (snd (duplicateBlock blockId st)) =
  match inserted_block (EvDuplicate blockId) st with
  | Some _ => S (blockCounter st)
  | None => blockCounter st
  end.
Proof.
  unfold duplicateBlock. cbn [inserted_block].
  destruct (map_get blockId (blocks st)) as [e|]; [|reflexivity].
  destruct (el_blockData e) as [o|]; [|reflexivity].
  unfold bind at 1.
  pose proof (addBlock_blockCounter (obj_type o)
      (option_map (fun v => (v + 40)%Q) (obj_x o),
       option_map (fun v => (v + 40)%Q) (obj_y o))
      (match obj_definition o with Some d => d | None => no_definition end) st) as A.
  destruct (addBlock _ _ _ st) as [[newId|err] st1]; cbn [fst snd] in A |- *;
    [|exact A].
  unfold run. cbn [snd].
  destruct (map_get (Some newId) (blocks st1)) as [e1|]; [|exact A].
  destruct (el_blockData e1) as [[nb|]|]; exact A.
Qed.

(** Without a session load the counter of block ids only grows, by one
    for each call of [addBlock]. *)
Lemma step_blockCounter ev st :
  no_reload ev ->
  blockCounter (step ev st) =
  match inserted_block ev st with
  | Some _ => S (blockCounter st)
  | None => blockCounter st
  end.
Proof.
  intros Hev. destruct ev; simpl in Hev; try contradiction; cbn [step].
  - apply addBlock_blockCounter.
  - apply removeBlock_blockCounter.
  - unfold onBlockMouseMove. cbn [inserted_block].
    destruct (map_get _ _) as [e|]; reflexivity.
  - apply saveState_blockCounter.
  - unfold saveBlockProperties. cbn [inserted_block].
    destruct (map_get _ _) as [e|]; [|reflexivity].
    destruct (el_blockData e) as [[b|]|]; try reflexivity.
    destruct (known_type _ _); [|reflexivity].
    cbn [notify blockCounter]. now rewrite saveState_blockCounter.
  - apply duplicateBlock_blockCounter.
  - unfold clear. cbn [notify blockCounter inserted_block].
    now rewrite saveState_blockCounter.
  - unfold undo. cbn [inserted_block]. destruct (0 <? _); [|reflexivity].
    cbn [notify blockCounter]. now rewrite restoreState_blockCounter.
  - unfold redo. cbn [inserted_block]. destruct (_ <? _); [|reflexivity].
    cbn [notify blockCounter]. now rewrite restoreState_blockCounter.
  - reflexivity.
  - reflexivity.
Qed.

Lemma steps_blockCounter_mono evs st :
  Forall no_reload evs -> (blockCounter st <= blockCounter (steps evs st))%nat.
Proof.
  intros H. induction evs as [|ev evs IH] using rev_ind; [apply Nat.le_refl|].
  apply Forall_app in H. destruct H as [H1 H2]. inversion H2; subst.
  rewrite steps_snoc, step_blockCounter by assumption.
  specialize (IH H1). destruct (inserted_block _ _); lia.
Qed.

(** Without a reload every key, in the store and in the history, is a
    [block_j] with [j] up to the counter. *)
Lemma keys_numbered evs N :
  Forall no_reload evs ->
  (blockCounter (steps evs fresh) <= N)%nat ->
  store_inv (fun k _ => numbered_up_to N k) (fun k _ => numbered_up_to N k)
    (steps evs fresh).
Proof.
  intros Hevs. induction evs as [|ev evs IH] using rev_ind; intros HN.
  - split; [intros k e []|intros s k o []].
  - apply Forall_app in Hevs. destruct Hevs as [H1 H2].
    inversion H2 as [|? ? Hev _]; subst.
    rewrite steps_snoc in HN |- *.
    rewrite step_blockCounter in HN by exact Hev.
    apply step_inv; auto.
    + intros block e Hins _. rewrite Hins in HN.
      eexists. split; [reflexivity|exact HN].
    + apply (IH H1). destruct (inserted_block _ _); lia.
Qed.

(** C9, as the code has it.  As long as no document is imported and no
    session is loaded, the id [addBlock] assigns is the id of no block
    of the store, now or at any earlier point of the session. *)
Theorem addBlock_id_is_new (pre : list Event) (type : Id)
    (position : option Q * option Q) (definition : BlockDefinition)
    (id : string) (st' : State) :
  Forall no_reload pre ->
  addBlock type position definition (steps pre fresh) = (Ok id, st') ->
  forall n, names_block (steps (firstn n pre) fresh) (Some id) = false.
Proof.
  intros Hpre Hadd n. apply addBlock_returns in Hadd. subst id.
  rewrite <- (firstn_skipn n pre) in Hpre. apply Forall_app in Hpre.
  destruct Hpre as [H1 H2].
  assert (Hle : (blockCounter (steps (firstn n pre) fresh)
                 <= blockCounter (steps pre fresh))%nat).
  { rewrite <- (firstn_skipn n pre) at 2. unfold steps at 2.
    rewrite fold_left_app. now apply steps_blockCounter_mono. }
  pose proof (keys_numbered _ _ H1 Hle) as [Hb _].
  unfold names_block.
  destruct (map_get _ _) as [e|] eqn:G; [|reflexivity].
  apply map_get_In in G. destruct (Hb _ _ G) as (j & E & Hj).
  assert (E' : block_id (S (blockCounter (steps pre fresh))) = block_id j)
    by congruence.
  apply block_id_inj in E'. lia.
Qed.

Lemma addBlock_id_is_new_witness :
  let pre := [insert "start"; insert "print"; EvRemoveBlock (Some "block_2");
              EvClear; EvUndo] in
  Forall no_reload pre /\
  fst (addBlock (Some "end") origin no_definition (steps pre fresh)) = Ok "block_3" /\
  forall n, names_block (steps (firstn n pre) fresh) (Some "block_3") = false.
Proof.
  intros pre.
  assert (H : Forall no_reload pre) by (repeat constructor).
  split; [exact H|]. split; [reflexivity|].
  exact (addBlock_id_is_new pre (Some "end") origin no_definition "block_3"
           (snd (addBlock (Some "end") origin no_definition (steps pre fresh)))
           H eq_refl).
Defined.

(** C9, the part that fails.  Loading a session, even an empty one,
    puts the counter back to zero, so the next block gets the id of the
    first block of the session again; and the ids of imported blocks are
    those of the document, which the counter ignores. *)
Lemma session_load_restarts_ids :
  let st1 := step (insert "start") fresh in
  let st2 := step (EvLoad empty_session) st1 in
  names_block st1 (Some "block_1") = true /\
  fst (addBlock (Some "print") origin no_definition st2) = Ok "block_1" /\
  let st3 := step (EvImport (Some one_block_data)) fresh in
  names_block st3 (Some "block_1") = true /\
  fst (addBlock (Some "print") origin no_definition st3) = Ok "block_1".
Proof. repeat split. Qed.

(** ** Import and the history *)

Lemma saveState_snapshot st : snapshot (saveState st) = snapshot st.
Proof. unfold saveState. cbv zeta. destruct (_ <? _)%nat; reflexivity. Qed.

Lemma tl_app {A} (l l' : list A) : l <> [] -> tl (l ++ l') = tl l ++ l'.
Proof. destruct l; [congruence|reflexivity]. Qed.

(** The last entry after [saveState] is the snapshot just taken. *)
Lemma saveState_pushes_last st :
  history_wf st -> exists h, history (saveState st) = h ++ [snapshot st].
Proof.
  intros W. rewrite (saveState_history st W). unfold pushed.
  destruct (maxHistorySize <? _)%nat eqn:C; [|eauto].
  apply Nat.ltb_lt in C. rewrite length_app in C. simpl in C.
  unfold maxHistorySize in C. rewrite tl_app; [eauto|].
  intros E. rewrite E in C. simpl in C. lia.
Qed.

(** With the cursor on the last entry nothing is cut before the push. *)
Lemma saveState_at_end st h x :
  history st = h ++ [x] ->
  historyIndex st = Z.of_nat (List.length (history st)) - 1 ->
  exists h', history (saveState st) = h' ++ [x; snapshot st].
Proof.
  intros E I.
  assert (W : history_wf st) by (unfold history_wf; lia).
  rewrite (saveState_history st W). unfold pushed.
  replace (Z.to_nat (historyIndex st + 1)) with (List.length (history st)) by lia.
  rewrite firstn_all, E, <- app_assoc. simpl.
  destruct (maxHistorySize <? _)%nat eqn:C; [|eauto].
  apply Nat.ltb_lt in C. rewrite length_app in C. simpl in C.
  unfold maxHistorySize in C. rewrite tl_app; [eauto|].
  intros E'. rewrite E' in C. simpl in C. lia.
Qed.

Lemma forEach_import_cons b bs st :
  forEach import_block (b :: bs) st
  = match createBlockElement b with
    | Ok e => forEach import_block bs
                (with_blocks (map_set (b_id b) (set_blockData (Plain b) e) (blocks st))
                   st)
    | Throw err => (Throw err, st)
    end.
Proof.
  cbn [forEach]. unfold bind, import_block, bind, run.
  destruct (createBlockElement b); reflexivity.
Qed.

Lemma forEach_import_history bs st :
  history (snd (forEach import_block bs st)) = history st /\
  historyIndex (snd (forEach import_block bs st)) = historyIndex st.
Proof.
  revert st. induction bs as [|b bs IH]; intros st; [now split|].
  rewrite forEach_import_cons.
  destruct (createBlockElement b) as [e|err]; [|now split].
  destruct (IH (with_blocks
    (map_set (b_id b) (set_blockData (Plain b) e) (blocks st)) st)) as [-> ->].
  now split.
Qed.

(** What a successful [import] is made of. *)
Lemma import_ok data st st' :
  import data st = (Ok tt, st') ->
  exists st2 st3,
    history st2 = history (clear st) /\
    historyIndex st2 = historyIndex (clear st) /\
    history st3 = history st2 /\ historyIndex st3 = historyIndex st2 /\
    st' = notify Imported (saveState st3).
Proof.
  destruct data as [data|]; [|discriminate]. simpl.
  destruct (cd_blocks data) as [bs|]; [|discriminate].
  unfold bind, run.
  pose proof (forEach_import_history bs (clear st)) as [Eh Ei].
  destruct (forEach import_block bs (clear st)) as [[[]|err] st2];
    simpl in Eh, Ei |- *; [|discriminate].
  intros H. injection H as <-.
  refine (ex_intro _ st2 (ex_intro _ _
            (conj Eh (conj Ei (conj _ (conj _ eq_refl))))));
    destruct (cd_connections data), (cd_metadata data); reflexivity.
Qed.

(** C10, as the code has it.  A successful [import] commits twice: its
    call of [clear] pushes the emptied canvas, and [import] itself pushes
    the imported graph after it.  The cursor is on the last entry, one
    undo brings back the emptied canvas, and one autosave is pending, due
    one delay after the import. *)
Theorem import_commits_twice (data : option CanvasData) (st st' : State) :
  history_wf st -> timers_wf st ->
  import data st = (Ok tt, st') ->
  (exists h emptied,
     history st' = h ++ [emptied; snapshot st'] /\
     s_blocks emptied = [] /\ s_connections emptied = []) /\
  historyIndex st' = Z.of_nat (List.length (history st')) - 1 /\
  blocks (undo st') = [] /\ connections (undo st') = [] /\
  exists id, timers st' = [(id, clock st + autoSaveDelay)] /\
             autoSaveTimeout st' = Some id.
Proof.
  intros W T H.
  assert (A : armed st st').
  { replace st' with (snd (import data st)) by now rewrite H.
    apply import_armed; [|exact T].
    destruct data as [d|]; [|discriminate]. simpl in H |- *.
    destruct (cd_blocks d); [reflexivity|discriminate]. }
  destruct (import_ok _ _ _ H) as (st2 & st3 & Eh2 & Ei2 & Eh3 & Ei3 & ->).
  set (X := with_selectedBlock None (with_connections [] (with_blocks [] st))).
  assert (WX : history_wf X) by exact W.
  assert (Ec : history (clear st) = history (saveState X)) by reflexivity.
  assert (Eci : historyIndex (clear st) = historyIndex (saveState X)) by reflexivity.
  destruct (saveState_pushes_last X WX) as [h1 Eh1].
  assert (I3 : historyIndex st3 = Z.of_nat (List.length (history st3)) - 1).
  { rewrite Ei3, Ei2, Eci, Eh3, Eh2, Ec. now apply saveState_cursor_last. }
  assert (W3 : history_wf st3).
  { unfold history_wf. rewrite I3, Eh3, Eh2, Ec, Eh1, length_app. simpl. lia. }
  destruct (saveState_at_end st3 h1 (snapshot X)) as [h' Eh'];
    [now rewrite Eh3, Eh2, Ec|exact I3|].
  assert (Ilast : historyIndex (saveState st3)
                  = Z.of_nat (List.length (history (saveState st3))) - 1)
    by now apply saveState_cursor_last.
  assert (U : history_at (with_history (history (saveState st3))
                            (historyIndex (saveState st3) - 1)
                            (notify Imported (saveState st3)))
                (historyIndex (saveState st3) - 1) = Some (snapshot X)).
  { unfold history_at. cbn [history with_history].
    rewrite Ilast, Eh', length_app. cbn [List.length].
    destruct (_ <? 0) eqn:C; [apply Z.ltb_lt in C; lia|].
    replace (Z.to_nat _) with (List.length h' + 0)%nat by lia.
    rewrite nth_error_app2 by lia.
    replace (List.length h' + 0 - List.length h')%nat with 0%nat by lia.
    reflexivity. }
  split; [|split; [|split; [|split]]].
  - exists h', (snapshot X). cbn [notify history].
    rewrite Eh'. repeat split.
    change (snapshot (notify Imported (saveState st3)))
      with (snapshot (saveState st3)).
    now rewrite saveState_snapshot.
  - exact Ilast.
  - unfold undo. cbn [notify history historyIndex].
    destruct (0 <? historyIndex (saveState st3)) eqn:C.
    + rewrite U. reflexivity.
    + apply Z.ltb_ge in C.
      rewrite Ilast, Eh', length_app in C. cbn [List.length] in C. lia.
  - unfold undo. cbn [notify history historyIndex].
    destruct (0 <? historyIndex (saveState st3)) eqn:C.
    + rewrite U. reflexivity.
    + apply Z.ltb_ge in C.
      rewrite Ilast, Eh', length_app in C. cbn [List.length] in C. lia.
  - destruct A as (_ & _ & _ & id & _ & Ht & Ha). eauto.
Qed.

Lemma import_commits_twice_witness :
  let st := step (insert "print") fresh in
  let st' := snd (import (Some one_block_data) st) in
  history_wf st /\ timers_wf st /\
  historyIndex st' = Z.of_nat (List.length (history st')) - 1 /\
  blocks (undo st') = [].
Proof.
  intros st st'.
  assert (W : history_wf st) by (unfold history_wf; simpl; lia).
  assert (T : timers_wf st).
  { split; [simpl; lia|]. right. exists 1%nat, 1000. repeat split. lia. }
  split; [exact W|]. split; [exact T|].
  destruct (import_commits_twice (Some one_block_data) st st' W T eq_refl)
    as (_ & I & B & _).
  split; [exact I|exact B].
Defined.

(** C10, the part that fails.  Importing into a canvas with one block
    and one history entry leaves three entries, not two, and the undo
    that follows shows the empty canvas, not the block that was there
    before the import. *)
Lemma import_pushes_two_entries :
  let st := step (insert "print") fresh in
  let st' := snd (import (Some one_block_data) st) in
  fst (import (Some one_block_data) st) = Ok tt /\
  List.length (history st) = 1%nat /\
  List.length (history st') = 3%nat /\
  map_keys (blocks st) = [Some "block_1"] /\
  map_keys (blocks (undo st')) = [].
Proof. repeat split. Qed.

(** ** Reachable states *)

Lemma createBlockFromData_frame b st :
  env (createBlockFromData b st) = env st /\
  history (createBlockFromData b st) = history st /\
  historyIndex (createBlockFromData b st) = historyIndex st.
Proof. unfold createBlockFromData. destruct (known_type _ _); auto. Qed.

Lemma restoreFromJSONState_frame doc st :
  env (restoreFromJSONState doc st) = env st /\
  history (restoreFromJSONState doc st) = history st /\
  historyIndex (restoreFromJSONState doc st) = historyIndex st.
Proof.
  unfold restoreFromJSONState.
  assert (F : forall bs s,
            env (fold_left (fun s b => createBlockFromData b s) bs s) = env s /\
            history (fold_left (fun s b => createBlockFromData b s) bs s) = history s /\
            historyIndex (fold_left (fun s b => createBlockFromData b s) bs s)
            = historyIndex s).
  { induction bs as [|b bs IH]; intros s; simpl; [auto|].
    destruct (IH (createBlockFromData b s)) as (-> & -> & ->).
    apply createBlockFromData_frame. }
  destruct (sd_blocks doc) as [bs|], (sd_connections doc) as [cs|];
    cbn [with_currentLanguage with_view with_connections env history historyIndex
         autoSaveTimeout timers nextTimerId clock saveCalls];
    try (destruct (F bs (clearCanvas st)) as (E1 & E2 & E3));
    try (unfold env in E1; injection E1 as -> -> -> -> ->; rewrite E2, E3);
    auto.
Qed.

Lemma restoreState_env s st : env (restoreState s st) = env st.
Proof. destruct s; reflexivity. Qed.

(** An event that commits nothing and is not the passing of time leaves
    the timers as they are. *)
Lemma uncommitted_env ev st :
  commits ev st = false -> (forall dt, ev <> EvTick dt) ->
  env (step ev st) = env st.
Proof.
  intros C Ht. destruct ev; simpl in C; try discriminate; cbn [step].
  - destruct type; [discriminate|]. unfold addBlock, bind, run. simpl.
    unfold autoConnectNewBlock. simpl. destruct (sort _ _); reflexivity.
  - unfold removeBlock. destruct (map_get _ _); [discriminate|reflexivity].
  - unfold onBlockMouseMove. destruct (map_get _ _) as [e|]; reflexivity.
  - unfold saveBlockProperties. destruct (map_get _ _) as [e|]; [|reflexivity].
    destruct (el_blockData e) as [[b|]|]; try reflexivity.
    now rewrite C.
  - unfold duplicateBlock. destruct (map_get _ _) as [e|]; [|reflexivity].
    destruct (el_blockData e) as [o|]; [|reflexivity].
    destruct (obj_type o) eqn:Ot; [discriminate|].
    unfold bind, addBlock, bind, run. simpl.
    unfold autoConnectNewBlock. simpl.
    destruct (sort _ _); reflexivity.
  - unfold undo. destruct (0 <? _); [|reflexivity].
    destruct (history_at _ _); reflexivity.
  - unfold redo. destruct (_ <? _); [|reflexivity].
    destruct (history_at _ _); reflexivity.
  - destruct data as [data|]; [|reflexivity]. simpl.
    destruct (cd_blocks data); [discriminate|reflexivity].
  - apply restoreFromJSONState_frame.
  - reflexivity.
  - exfalso. now apply (Ht dt).
Qed.

Lemma tick_timers_wf dt st : timers_wf st -> timers_wf (tick dt st).
Proof.
  intros [Hn Ht]. split; [exact Hn|]. unfold tick. simpl.
  destruct Ht as [-> | (id & d & -> & Ha & Hz)]; [now left|].
  simpl. destruct (d <=? _); simpl; [now left|]. right. eauto.
Qed.

Lemma timers_wf_env st st' : env st' = env st -> timers_wf st -> timers_wf st'.
Proof.
  unfold env, timers_wf. intros E. injection E as Ea Et En Ec Es.
  now rewrite Ea, Et, En.
Qed.

(** In every state the editor reaches at most one autosave is pending. *)
Lemma step_timers_wf ev st : timers_wf st -> timers_wf (step ev st).
Proof.
  intros W. destruct (commits ev st) eqn:C.
  - eapply armed_wf, commit_armed; eassumption.
  - destruct ev; try (apply tick_timers_wf, W);
      (eapply timers_wf_env; [|exact W]);
      (apply uncommitted_env; [exact C|discriminate]).
Qed.

Lemma history_wf_ext st st' :
  history st' = history st -> historyIndex st' = historyIndex st ->
  history_wf st -> history_wf st'.
Proof. unfold history_wf. now intros -> ->. Qed.

Lemma redo_wf st : history_wf st -> history_wf (redo st).
Proof.
  unfold history_wf, redo. intros H.
  destruct (historyIndex st <? _) eqn:C; [|exact H].
  apply Z.ltb_lt in C. simpl.
  destruct (restoreState_history
    (history_at (with_history (history st) (historyIndex st + 1) st) (historyIndex st + 1))
    (with_history (history st) (historyIndex st + 1) st)) as [-> ->].
  simpl. lia.
Qed.

Lemma addBlock_history_wf type position definition st :
  history_wf st -> history_wf (snd (addBlock type position definition st)).
Proof.
  intros W. unfold addBlock, bind, run, ret.
  cbn [fst snd blockCounter with_blockCounter].
  destruct (createBlockElement _) as [e|err]; cbn [fst snd].
  - eapply history_wf_ext; [reflexivity|reflexivity|].
    apply saveState_wf.
    eapply history_wf_ext; [| |exact W]; cbn [history historyIndex with_blocks];
      now rewrite ?(proj1 (autoConnectNewBlock_history _ _)),
                  ?(proj1 (proj2 (autoConnectNewBlock_history _ _))).
  - eapply history_wf_ext; [| |exact W];
      now rewrite ?(proj1 (autoConnectNewBlock_history _ _)),
                  ?(proj1 (proj2 (autoConnectNewBlock_history _ _))).
Qed.

Lemma deselect_removed_history blockId st :
  history (deselect_removed blockId st) = history st /\
  historyIndex (deselect_removed blockId st) = historyIndex st.
Proof.
  unfold deselect_removed. destruct (selectedBlock st) as [sel|]; [|now split].
  destruct (el_blockData sel) as [o|]; [|now split].
  destruct (str_eqb _ _); now split.
Qed.

(** The cursor of the history stays between [-1] and the last index. *)
Lemma step_history_wf ev st : history_wf st -> history_wf (step ev st).
Proof.
  intros W. destruct ev; cbn [step].
  - now apply addBlock_history_wf.
  - unfold removeBlock. destruct (map_get _ _) as [e|]; [|exact W].
    unfold bind, run, throw.
    assert (G : history_wf (saveState (deselect_removed blockId
                 (with_connections
                    (filter (fun c => negb (str_eqb (conn_from c) blockId)
                                      && negb (str_eqb (conn_to c) blockId))
                       (connections st))
                    (with_blocks (map_delete blockId (blocks st)) st))))).
    { apply saveState_wf. eapply history_wf_ext; [| |exact W];
        now rewrite ?(proj1 (deselect_removed_history _ _)),
                    ?(proj2 (deselect_removed_history _ _)). }
    destruct (match el_blockData e with
              | Some blockData => obj_type blockData
              | None => Some "unknown"
              end); exact G.
  - unfold onBlockMouseMove. destruct (map_get _ _) as [e|]; exact W.
  - now apply saveState_wf.
  - unfold saveBlockProperties. destruct (map_get _ _) as [e|]; [|exact W].
    destruct (el_blockData e) as [[b|]|]; try exact W.
    destruct (known_type _ _); [|exact W].
    eapply history_wf_ext; [reflexivity|reflexivity|].
    now apply saveState_wf.
  - unfold duplicateBlock. destruct (map_get _ _) as [e|]; [|exact W].
    destruct (el_blockData e) as [o|]; [|exact W].
    unfold bind at 1.
    pose proof (addBlock_history_wf (obj_type o)
      (option_map (fun v => (v + 40)%Q) (obj_x o),
       option_map (fun v => (v + 40)%Q) (obj_y o))
      (match obj_definition o with Some d => d | None => no_definition end)
      st W) as A.
    destruct (addBlock _ _ _ st) as [[newId|err] st1]; cbn [fst snd] in A |- *;
      [|exact A].
    unfold run. cbn [snd].
    destruct (map_get (Some newId) (blocks st1)) as [e1|]; [|exact A].
    destruct (el_blockData e1) as [[nb|]|]; exact A.
  - unfold clear. eapply history_wf_ext; [reflexivity|reflexivity|].
    now apply saveState_wf.
  - now apply undo_wf.
  - now apply redo_wf.
  - destruct data as [data|]; [|exact W]. simpl.
    destruct (cd_blocks data) as [bs|]; [|exact W].
    unfold bind, run.
    assert (W1 : history_wf (clear st)).
    { unfold clear. eapply history_wf_ext; [reflexivity|reflexivity|].
      now apply saveState_wf. }
    pose proof (forEach_import_history bs (clear st)) as [Eh Ei].
    destruct (forEach import_block bs (clear st)) as [[[]|err] st2];
      simpl in Eh, Ei |- *.
    + eapply history_wf_ext; [reflexivity|reflexivity|].
      apply saveState_wf.
      eapply history_wf_ext; [| |exact W1];
        destruct (cd_connections data), (cd_metadata data); simpl; assumption.
    + eapply history_wf_ext; eassumption.
  - destruct (restoreFromJSONState_frame canvasState st) as (_ & Eh & Ei).
    eapply history_wf_ext; eassumption.
  - exact W.
  - exact W.
Qed.

(** The hypotheses of the statements above hold in every state a
    session reaches. *)
Lemma reachable_wf evs :
  history_wf (steps evs fresh) /\ timers_wf (steps evs fresh).
Proof.
  induction evs as [|ev evs [IH1 IH2]] using rev_ind.
  - split; [unfold history_wf; simpl; lia|split; [simpl; lia|now left]].
  - rewrite steps_snoc. split; [now apply step_history_wf|now apply step_timers_wf].
Qed.

(** ** Export and import on a store of block objects *)

Lemma map_set_new {V} k v (m : JsMap V) :
  ~ In k (map_keys m) -> map_set k v m = m ++ [(k, v)].
Proof.
  induction m as [|[k0 v0] m IH]; simpl; [reflexivity|].
  intros H. destruct (str_eqb k0 k) eqn:E.
  - apply str_eqb_eq in E. tauto.
  - f_equal. apply IH. tauto.
Qed.

Section RoundTrip.
Variable layout : Layout.
Variable st0 : State.


Lemma forEach_import_complete (m : JsMap Element) : forall s,
  NoDup (map_keys (blocks s) ++ map_keys m) ->
  (forall k e, In (k, e) m -> complete_block k e) ->
  fst (forEach import_block (exported_blocks layout st0 m) s) = Ok tt /\
  contents (snd (forEach import_block (exported_blocks layout st0 m) s))
  = contents s ++ map (fun kv => (fst kv, content (snd kv))) m.
Proof.
  induction m as [|[k e] m IH]; intros s Hnd Hc.
  - split; [reflexivity|]. simpl. now rewrite app_nil_r.
  - destruct (Hc k e (or_introl eq_refl)) as (b & t & p & d & B & Bk & Bt & Bp & Bd).
    assert (E : exported_blocks layout st0 ((k, e) :: m)
                = {| b_id := k; b_type := Some t;
                     b_x := Some ((fst (layout e) - panX st0) / zoom st0)%Q;
                     b_y := Some ((snd (layout e) - panY st0) / zoom st0)%Q;
                     b_properties := Some p; b_definition := Some d;
                     b_language := None |} :: exported_blocks layout st0 m).
    { unfold exported_blocks, export. simpl. rewrite B. simpl.
      now rewrite Bk, Bt, Bp, Bd. }
    rewrite E, forEach_import_cons. unfold createBlockElement.
    cbn [b_type b_definition b_properties b_id b_x b_y].
    assert (Hk : ~ In k (map_keys (blocks s))).
    { intros Hin. apply NoDup_remove_2 in Hnd. apply Hnd.
      apply in_or_app. now left. }
    rewrite (map_set_new _ _ _ Hk).
    match goal with |- context [forEach import_block (exported_blocks layout st0 m) ?s1] =>
      destruct (IH s1) as [I1 I2] end.
    + cbn [blocks with_blocks]. unfold map_keys in *. rewrite map_app, <- app_assoc.
      exact Hnd.
    + intros k' e' Hin. apply Hc. now right.
    + split; [exact I1|]. rewrite I2. unfold contents. cbn [blocks with_blocks].
      rewrite map_app, <- app_assoc. cbn [map app fst snd].
      do 2 f_equal. f_equal. unfold content. rewrite B. cbn.
      now rewrite Bk, Bt, Bp, Bd.
Qed.
End RoundTrip.

(** On a store of complete block objects with distinct ids, one that
    no undo has gone over, [import(export())] succeeds and brings back
    the same blocks, with their ids, types, properties and definitions,
    and the same connections.  The positions are those the browser
    measured at the export. *)
Lemma export_import_complete_store (layout : Layout) (st : State) :
  NoDup (map_keys (blocks st)) ->
  (forall k e, In (k, e) (blocks st) -> complete_block k e) ->
  fst (import (Some (export layout st)) st) = Ok tt /\
  contents (snd (import (Some (export layout st)) st)) = contents st /\
  connections (snd (import (Some (export layout st)) st)) = connections st.
Proof.
  intros Hnd Hc.
  assert (B0 : blocks (clear st) = []).
  { unfold clear. cbn [notify blocks]. now rewrite saveState_blocks. }
  destruct (forEach_import_complete layout st (blocks st) (clear st)) as [F1 F2];
    [now rewrite B0|exact Hc|].
  unfold contents at 2 in F2. rewrite B0 in F2. cbn [map app] in F2.
  assert (Est : with_blocks (blocks st) st = st) by (destruct st; reflexivity).
  unfold exported_blocks in F1, F2. rewrite Est in F1, F2.
  unfold import. cbn [export cd_blocks cd_connections cd_metadata].
  cbn [export cd_blocks] in F1, F2.
  unfold bind, run.
  destruct (forEach import_block _ (clear st)) as [[[]|err] st2];
    cbn [fst snd] in F1, F2 |- *; [|discriminate].
  split; [reflexivity|]. split.
  - unfold contents in *. cbn [notify blocks]. rewrite saveState_blocks.
    cbn [blocks with_view with_connections]. exact F2.
  - cbn [notify connections]. rewrite saveState_connections. reflexivity.
Qed.

(** ** What the defects amount to in general *)

(** Whatever the type of the last block, a block that is not a start
    block is linked when the store is not empty. *)
Lemma autolink_never_stops_at_end newBlock st :
  blocks st <> [] -> b_type newBlock <> Some "start" ->
  exists e, In e (map_values (blocks st)) /\
    connections (autoConnectNewBlock newBlock st)
    = connections st ++ [conn (Some (el_id e)) (b_id newBlock)].
Proof.
  intros Hne Ht. unfold autoConnectNewBlock.
  destruct (sort by_id_number_desc (map_values (blocks st))) as [|e l] eqn:S.
  - exfalso. destruct (blocks st) as [|[k e] m]; [congruence|].
    assert (Hin : In e (sort by_id_number_desc (map_values ((k, e) :: m))))
      by (apply sort_In; now left).
    rewrite S in Hin. exact Hin.
  - simpl. apply str_eqb_neq in Ht. rewrite Ht. simpl.
    exists e. split; [|reflexivity].
    apply (sort_In by_id_number_desc). rewrite S. now left.
Qed.

(** Whatever was saved, every block that [restoreState] puts back from
    a snapshot reads without id and without type. *)
Lemma restored_blocks_read_undefined saved st k e :
  In (k, e) (blocks (restoreState (Some (snapshot saved)) st)) ->
  option_map obj_id (el_blockData e) = Some None /\
  option_map obj_type (el_blockData e) = Some None.
Proof.
  intros H. apply restoreState_blocks_In in H. destruct H as (o & Ho & ->).
  simpl in Ho. apply in_map_iff in Ho. destruct Ho as ([k' e'] & E & _).
  injection E as _ <-. split; reflexivity.
Qed.

(** * Further properties of the editor *)

(** ** The block map *)

Lemma map_get_set_same {V} k v (m : JsMap V) : map_get k (map_set k v m) = Some v.
Proof.
  induction m as [|[k0 v0] m IH]; simpl.
  - now rewrite str_eqb_refl.
  - destruct (str_eqb k0 k) eqn:E; simpl.
    + now rewrite str_eqb_refl.
    + now rewrite E.
Qed.

Lemma map_get_set_other {V} k k' v (m : JsMap V) :
  k' <> k -> map_get k' (map_set k v m) = map_get k' m.
Proof.
  intros Hne. induction m as [|[k0 v0] m IH]; simpl.
  - destruct (str_eqb k k') eqn:E; [apply str_eqb_eq in E; congruence|reflexivity].
  - destruct (str_eqb k0 k) eqn:E; simpl.
    + apply str_eqb_eq in E. subst k0.
      destruct (str_eqb k k') eqn:E'; [apply str_eqb_eq in E'; congruence|reflexivity].
    + destruct (str_eqb k0 k'); [reflexivity|exact IH].
Qed.

Lemma map_get_delete_same {V} k (m : JsMap V) : map_get k (map_delete k m) = None.
Proof.
  induction m as [|[k0 v0] m IH]; simpl; [reflexivity|].
  destruct (str_eqb k0 k) eqn:E; simpl; [exact IH|]. now rewrite E.
Qed.

Lemma map_get_delete_other {V} k k' (m : JsMap V) :
  k' <> k -> map_get k' (map_delete k m) = map_get k' m.
Proof.
  intros Hne. induction m as [|[k0 v0] m IH]; simpl; [reflexivity|].
  destruct (str_eqb k0 k) eqn:E; simpl.
  - apply str_eqb_eq in E. subst k0.
    destruct (str_eqb k k') eqn:E'; [apply str_eqb_eq in E'; congruence|exact IH].
  - destruct (str_eqb k0 k'); [reflexivity|exact IH].
Qed.

(** ** The history in every reachable state *)

Lemma saveState_bounded st :
  history_wf st -> history_bounded st -> history_bounded (saveState st).
Proof.
  intros W B. unfold history_bounded in *.
  rewrite (saveState_history st W). pose proof (pushed_length st W) as L.
  destruct W as [Hlo Hhi].
  destruct (maxHistorySize <? _)%nat eqn:C.
  - destruct (pushed st) as [|x h]; simpl in *; lia.
  - apply Nat.ltb_ge in C. exact C.
Qed.

Section HistoryInvariant.
Variable P : State -> Prop.
Hypothesis P_ext : forall st st',
  history st' = history st -> historyIndex st' = historyIndex st -> P st -> P st'.
Hypothesis P_saveState : forall st, P st -> P (saveState st).
Hypothesis P_undo : forall st, P st -> P (undo st).
Hypothesis P_redo : forall st, P st -> P (redo st).

Lemma addBlock_history_inv type position definition st :
  P st -> P (snd (addBlock type position definition st)).
Proof.
  intros W. unfold addBlock, bind, run, ret.
  cbn [fst snd blockCounter with_blockCounter].
  destruct (createBlockElement _) as [e|err]; cbn [fst snd].
  - match goal with
      | |- P (notify _ ?x) => apply (P_ext x); [reflexivity|reflexivity|]
      end.
    apply P_saveState.
    eapply P_ext; [| |exact W]; cbn [history historyIndex with_blocks];
      now rewrite ?(proj1 (autoConnectNewBlock_history _ _)),
                  ?(proj1 (proj2 (autoConnectNewBlock_history _ _))).
  - eapply P_ext; [| |exact W];
      now rewrite ?(proj1 (autoConnectNewBlock_history _ _)),
                  ?(proj1 (proj2 (autoConnectNewBlock_history _ _))).
Qed.

(** A property of the history and its cursor that [saveState], [undo]
    and [redo] keep is kept by every event. *)
Lemma step_history_inv ev st : P st -> P (step ev st).
Proof.
  intros W. destruct ev; cbn [step].
  - now apply addBlock_history_inv.
  - unfold removeBlock. destruct (map_get _ _) as [e|]; [|exact W].
    unfold bind, run, throw.
    assert (G : P (saveState (deselect_removed blockId
                 (with_connections
                    (filter (fun c => negb (str_eqb (conn_from c) blockId)
                                      && negb (str_eqb (conn_to c) blockId))
                       (connections st))
                    (with_blocks (map_delete blockId (blocks st)) st))))).
    { apply P_saveState. eapply P_ext; [| |exact W];
        now rewrite ?(proj1 (deselect_removed_history _ _)),
                    ?(proj2 (deselect_removed_history _ _)). }
    destruct (match el_blockData e with
              | Some blockData => obj_type blockData
              | None => Some "unknown"
              end); cbn [fst snd];
      first [exact G | eapply P_ext; [| |exact G]; reflexivity].
  - unfold onBlockMouseMove. destruct (map_get _ _) as [e|]; [|exact W].
    eapply P_ext; [| |exact W]; reflexivity.
  - now apply P_saveState.
  - unfold saveBlockProperties. destruct (map_get _ _) as [e|]; [|exact W].
    destruct (el_blockData e) as [[b|]|]; try exact W.
    destruct (known_type _ _); [|exact W].
    match goal with
      | |- P (notify _ ?x) => apply (P_ext x); [reflexivity|reflexivity|]
      end.
    apply P_saveState. eapply P_ext; [| |exact W]; reflexivity.
  - unfold duplicateBlock. destruct (map_get _ _) as [e|]; [|exact W].
    destruct (el_blockData e) as [o|]; [|exact W].
    unfold bind at 1.
    pose proof (addBlock_history_inv (obj_type o)
      (option_map (fun v => (v + 40)%Q) (obj_x o),
       option_map (fun v => (v + 40)%Q) (obj_y o))
      (match obj_definition o with Some d => d | None => no_definition end)
      st W) as A.
    destruct (addBlock _ _ _ st) as [[newId|err] st1]; cbn [fst snd] in A |- *;
      [|exact A].
    unfold run. cbn [snd].
    destruct (map_get (Some newId) (blocks st1)) as [e1|]; [|exact A].
    destruct (el_blockData e1) as [[nb|]|]; try exact A.
    eapply P_ext; [| |exact A]; reflexivity.
  - unfold clear. match goal with
      | |- P (notify _ ?x) => apply (P_ext x); [reflexivity|reflexivity|]
      end.
    apply P_saveState. eapply P_ext; [| |exact W]; reflexivity.
  - now apply P_undo.
  - now apply P_redo.
  - destruct data as [data|]; [|exact W]. simpl.
    destruct (cd_blocks data) as [bs|]; [|exact W].
    unfold bind, run.
    assert (W1 : P (clear st)).
    { unfold clear. match goal with
      | |- P (notify _ ?x) => apply (P_ext x); [reflexivity|reflexivity|]
      end.
      apply P_saveState. eapply P_ext; [| |exact W]; reflexivity. }
    pose proof (forEach_import_history bs (clear st)) as [Eh Ei].
    destruct (forEach import_block bs (clear st)) as [[[]|err] st2];
      cbn [fst snd] in Eh, Ei |- *.
    + match goal with
      | |- P (notify _ ?x) => apply (P_ext x); [reflexivity|reflexivity|]
      end.
      apply P_saveState.
      apply (P_ext (clear st)); [| |exact W1];
        destruct (cd_connections data), (cd_metadata data); assumption.
    + apply (P_ext (clear st)); assumption.
  - destruct (restoreFromJSONState_frame canvasState st) as (_ & Eh & Ei).
    eapply P_ext; eassumption.
  - eapply P_ext; [| |exact W]; reflexivity.
  - eapply P_ext; [| |exact W]; reflexivity.
Qed.
End HistoryInvariant.

Lemma undo_history st :
  history (undo st) = history st /\
  historyIndex (undo st) = if 0 <? historyIndex st then historyIndex st - 1
                           else historyIndex st.
Proof.
  unfold undo. destruct (0 <? historyIndex st); [|now split].
  cbn [notify history historyIndex].
  destruct (restoreState_history
    (history_at (with_history (history st) (historyIndex st - 1) st) (historyIndex st - 1))
    (with_history (history st) (historyIndex st - 1) st)) as [-> ->].
  now split.
Qed.

Lemma redo_history st :
  history (redo st) = history st /\
  historyIndex (redo st) =
    if historyIndex st <? Z.of_nat (List.length (history st)) - 1
    then historyIndex st + 1 else historyIndex st.
Proof.
  unfold redo. destruct (historyIndex st <? _); [|now split].
  cbn [notify history historyIndex].
  destruct (restoreState_history
    (history_at (with_history (history st) (historyIndex st + 1) st) (historyIndex st + 1))
    (with_history (history st) (historyIndex st + 1) st)) as [-> ->].
  now split.
Qed.

(** X1.  In every state a session reaches, whatever the events, the
    cursor of the history lies between -1 and the last index and the
    history holds at most 50 entries. *)
Theorem history_cursor_and_size_bounds (evs : list Event) :
  let st := steps evs fresh in
  -1 <= historyIndex st < Z.of_nat (List.length (history st)) /\
  (List.length (history st) <= 50)%nat.
Proof.
  cbv zeta.
  enough (H : history_wf (steps evs fresh) /\ history_bounded (steps evs fresh))
    by exact H.
  induction evs as [|ev evs IH] using rev_ind.
  - split; [unfold history_wf; simpl; lia|unfold history_bounded; simpl; lia].
  - rewrite steps_snoc.
    apply (step_history_inv (fun st => history_wf st /\ history_bounded st));
      [| | | |exact IH].
    + unfold history_wf, history_bounded. intros st st' -> ->. auto.
    + intros st [W B]. split; [now apply saveState_wf|now apply saveState_bounded].
    + intros st [W B]. split; [now apply undo_wf|].
      unfold history_bounded. now rewrite (proj1 (undo_history st)).
    + intros st [W B]. split; [now apply redo_wf|].
      unfold history_bounded. now rewrite (proj1 (redo_history st)).
Qed.

(** X2.  In every state a session reaches at most one autosave timeout
    is pending, and it is the one the [autoSaveTimeout] field names. *)
Theorem one_autosave_pending (evs : list Event) :
  let st := steps evs fresh in
  (List.length (timers st) <= 1)%nat /\
  forall id due, In (id, due) (timers st) -> autoSaveTimeout st = Some id.
Proof.
  cbv zeta. destruct (reachable_wf evs) as [_ [_ T]].
  destruct T as [-> | (id & d & -> & Ha & _)].
  - split; [simpl; lia|intros id due []].
  - split; [simpl; lia|].
    intros id' due [E|[]]. injection E as <- _. exact Ha.
Qed.

(** X3.  With the cursor on the last entry, [saveState] appends the
    snapshot of the state; when the history is full (50 entries) the
    oldest entry is dropped and the cursor stays, otherwise the cursor
    moves on by one. *)
Theorem saveState_appends_and_evicts (st : State) :
  historyIndex st = Z.of_nat (List.length (history st)) - 1 ->
  (List.length (history st) <= 50)%nat ->
  history (saveState st)
  = (if (List.length (history st) <? 50)%nat then history st else tl (history st))
    ++ [snapshot st] /\
  historyIndex (saveState st)
  = if (List.length (history st) <? 50)%nat then historyIndex st + 1
    else historyIndex st.
Proof.
  intros I B.
  assert (W : history_wf st) by (unfold history_wf; lia).
  rewrite (saveState_history st W), (saveState_historyIndex st W).
  unfold pushed.
  replace (Z.to_nat (historyIndex st + 1)) with (List.length (history st)) by lia.
  rewrite firstn_all, length_app. cbn [List.length]. unfold maxHistorySize.
  destruct (List.length (history st) <? 50)%nat eqn:C.
  - apply Nat.ltb_lt in C.
    destruct (50 <? List.length (history st) + 1)%nat eqn:C';
      [apply Nat.ltb_lt in C'; lia|now split].
  - apply Nat.ltb_ge in C.
    destruct (50 <? List.length (history st) + 1)%nat eqn:C';
      [|apply Nat.ltb_ge in C'; lia].
    split; [|reflexivity]. apply tl_app.
    intros E. rewrite E in C. simpl in C. lia.
Qed.

Lemma saveState_appends_and_evicts_witness :
  historyIndex (steps (repeat EvMouseUp 50) fresh)
  = Z.of_nat (List.length (history (steps (repeat EvMouseUp 50) fresh))) - 1 /\
  (List.length (history (steps (repeat EvMouseUp 50) fresh)) <= 50)%nat /\
  historyIndex (saveState (steps (repeat EvMouseUp 50) fresh))
  = if (List.length (history (steps (repeat EvMouseUp 50) fresh)) <? 50)%nat
    then historyIndex (steps (repeat EvMouseUp 50) fresh) + 1
    else historyIndex (steps (repeat EvMouseUp 50) fresh).
Proof.
  split; [vm_compute; reflexivity|].
  split; [vm_compute; apply le_n|].
  apply (saveState_appends_and_evicts (steps (repeat EvMouseUp 50) fresh));
    [vm_compute; reflexivity|vm_compute; apply le_n].
Defined.

Lemma restoreState_graph s st1 st2 :
  blocks (restoreState (Some s) st1) = blocks (restoreState (Some s) st2) /\
  connections (restoreState (Some s) st1) = connections (restoreState (Some s) st2) /\
  zoom (restoreState (Some s) st1) = zoom (restoreState (Some s) st2) /\
  panX (restoreState (Some s) st1) = panX (restoreState (Some s) st2) /\
  panY (restoreState (Some s) st1) = panY (restoreState (Some s) st2).
Proof. repeat split. Qed.

Lemma history_at_in_range st i :
  0 <= i < Z.of_nat (List.length (history st)) ->
  exists s, history_at st i = Some s.
Proof.
  intros H. unfold history_at.
  destruct (i <? 0) eqn:C; [apply Z.ltb_lt in C; lia|].
  destruct (nth_error (history st) (Z.to_nat i)) as [s|] eqn:E; [eauto|].
  apply nth_error_None in E. lia.
Qed.

(** X4.  An undo followed by a redo leaves the history as it was, puts
    the cursor back where it was, and shows the graph and the view that
    [restoreState] builds from the entry under the cursor. *)
Theorem undo_then_redo_returns (st : State) :
  history_wf st -> 0 < historyIndex st ->
  let st' := redo (undo st) in
  let shown := restoreState (history_at st (historyIndex st)) st in
  history st' = history st /\
  historyIndex st' = historyIndex st /\
  blocks st' = blocks shown /\
  connections st' = connections shown /\
  (zoom st', panX st', panY st') = (zoom shown, panX shown, panY shown).
Proof.
  intros [Hlo Hhi] Hpos. cbv zeta.
  destruct (undo_history st) as [Uh Ui].
  destruct (0 <? historyIndex st) eqn:C; [|apply Z.ltb_ge in C; lia].
  destruct (redo_history (undo st)) as [Rh Ri].
  rewrite Uh, Ui in Ri. rewrite Uh in Rh.
  destruct (historyIndex st - 1 <? Z.of_nat (List.length (history st)) - 1) eqn:C2;
    [|apply Z.ltb_ge in C2; lia].
  split; [exact Rh|]. split; [rewrite Ri; lia|].
  destruct (history_at_in_range st (historyIndex st) ltac:(lia)) as [s Hs].
  rewrite Hs.
  assert (E : redo (undo st)
              = notify Redid
                  (restoreState (Some s)
                     (with_history (history (undo st)) (historyIndex (undo st) + 1)
                        (undo st)))).
  { unfold redo at 1. rewrite Uh, Ui, C2.
    replace (history_at _ _) with (Some s); [reflexivity|].
    unfold history_at in *. cbn [history with_history].
    replace (historyIndex st - 1 + 1) with (historyIndex st) by lia.
    now rewrite <- Hs. }
  rewrite E. repeat split.
Qed.

Lemma undo_then_redo_returns_witness :
  let st := steps [insert "start"; insert "print"; EvMouseMove (Some "block_2") 45 70;
                   EvMouseUp] fresh in
  history_wf st /\ 0 < historyIndex st /\
  historyIndex (redo (undo st)) = historyIndex st /\
  blocks (redo (undo st))
  = blocks (restoreState (history_at st (historyIndex st)) st).
Proof.
  intros st.
  assert (W : history_wf st) by (unfold history_wf; vm_compute; split; [discriminate|reflexivity]).
  assert (Hp : 0 < historyIndex st) by (vm_compute; reflexivity).
  destruct (undo_then_redo_returns st W Hp) as (_ & I & B & _).
  split; [exact W|]. split; [exact Hp|]. split; [exact I|exact B].
Defined.

Lemma undo_times_history n : forall st,
  0 <= historyIndex st ->
  history (undo_times n st) = history st /\
  historyIndex (undo_times n st) = Z.max 0 (historyIndex st - Z.of_nat n).
Proof.
  induction n as [|n IH]; intros st H.
  - simpl. split; [reflexivity|lia].
  - cbn [undo_times]. destruct (undo_history st) as [Uh Ui].
    destruct (0 <? historyIndex st) eqn:C.
    + apply Z.ltb_lt in C. destruct (IH (undo st) ltac:(lia)) as [-> ->].
      rewrite Uh, Ui. split; [reflexivity|lia].
    + apply Z.ltb_ge in C. destruct (IH (undo st) ltac:(lia)) as [-> ->].
      rewrite Uh, Ui. split; [reflexivity|lia].
Qed.

(** X5.  Undo never goes behind the first entry: after [n] undos the
    cursor is at [max 0 (i - n)] and the history is untouched, and at
    cursor 0 an undo changes nothing at all, so what the first commit
    recorded cannot be undone. *)
Theorem undo_stops_at_first_entry (n : nat) (st : State) :
  0 <= historyIndex st ->
  history (undo_times n st) = history st /\
  historyIndex (undo_times n st) = Z.max 0 (historyIndex st - Z.of_nat n) /\
  (historyIndex st = 0 -> undo_times n st = st).
Proof.
  intros H. destruct (undo_times_history n st H) as [Hh Hi].
  split; [exact Hh|]. split; [exact Hi|].
  intros Z0. clear Hh Hi H. induction n as [|n IH]; [reflexivity|].
  cbn [undo_times]. unfold undo at 1. rewrite Z0. cbn [Z.ltb Z.compare]. exact IH.
Qed.

Lemma undo_stops_at_first_entry_witness :
  let st := steps [insert "start"; insert "print"; insert "end"] fresh in
  0 <= historyIndex st /\
  historyIndex (undo_times 5 st) = 0 /\
  undo_times 3 (step (insert "start") fresh) = step (insert "start") fresh.
Proof.
  intros st.
  assert (H : 0 <= historyIndex st) by (vm_compute; discriminate).
  split; [exact H|]. split.
  - rewrite (proj1 (proj2 (undo_stops_at_first_entry 5 st H))).
    vm_compute. reflexivity.
  - apply (undo_stops_at_first_entry 3 (step (insert "start") fresh));
      [vm_compute; discriminate|vm_compute; reflexivity].
Defined.

(** ** The graph store *)

(** X6.  [removeBlock] of a block of the store takes the block out of
    the map, keeps every other block as it was, and keeps of the
    connections exactly those that neither start nor end at the id. *)
Theorem removeBlock_removes_block_and_its_links (blockId : Id) (e : Element)
    (st : State) :
  map_get blockId (blocks st) = Some e ->
  let st' := snd (removeBlock blockId st) in
  map_get blockId (blocks st') = None /\
  (forall k, k <> blockId -> map_get k (blocks st') = map_get k (blocks st)) /\
  (forall c, In c (connections st') <->
             In c (connections st) /\ conn_from c <> blockId /\ conn_to c <> blockId) /\
  blockCounter st' = blockCounter st.
Proof.
  intros H. cbv zeta.
  pose proof (removeBlock_graph blockId st) as G. cbv zeta in G.
  rewrite H in G. destruct G as [-> ->].
  split; [apply map_get_delete_same|].
  split; [intros k Hk; now apply map_get_delete_other|].
  split; [|apply removeBlock_blockCounter].
  intros c. rewrite filter_In, andb_true_iff, !negb_true_iff, !str_eqb_neq.
  tauto.
Qed.

Lemma removeBlock_removes_block_and_its_links_witness :
  let st := steps [insert "start"; insert "print"] fresh in
  (exists e, map_get (Some "block_2") (blocks st) = Some e) /\
  map_get (Some "block_2") (blocks (snd (removeBlock (Some "block_2") st))) = None /\
  connections (snd (removeBlock (Some "block_2") st)) = [].
Proof.
  intros st.
  assert (H : map_get (Some "block_2") (blocks st)
              = Some (set_blockData
                        (Plain (new_block "block_2" (Some "print") origin no_definition))
                        {| el_id := "canvas-block_2";
                           el_left := snap (Some 0%Q); el_top := snap (Some 0%Q);
                           el_blockData := None; el_x := None; el_y := None;
                           el_draggable := true |}))
    by (vm_compute; reflexivity).
  split; [eexists; exact H|].
  split.
  - exact (proj1 (removeBlock_removes_block_and_its_links _ _ st H)).
  - vm_compute. reflexivity.
Defined.

Lemma saveState_notices st : notices (saveState st) = notices st.
Proof. unfold saveState. cbv zeta. destruct (_ <? _)%nat; reflexivity. Qed.

Lemma autoConnectNewBlock_notices b st :
  notices (autoConnectNewBlock b st) = notices st.
Proof.
  unfold autoConnectNewBlock. destruct (sort _ _); [reflexivity|].
  cbn [el_type str_eqb]. destruct (_ && _); reflexivity.
Qed.

(** What [addBlock] does with a type: the lookups after the call. *)
Lemma addBlock_effect (t : string) (position : option Q * option Q)
    (definition : BlockDefinition) (st : State) :
  let blockId := block_id (S (blockCounter st)) in
  let block := new_block blockId (Some t) position definition in
  let r := addBlock (Some t) position definition st in
  fst r = Ok blockId /\
  blockCounter (snd r) = S (blockCounter st) /\
  map_get (Some blockId) (blocks (snd r))
  = Some {| el_id := ("canvas-" ++ blockId)%string;
            el_left := snap (fst position); el_top := snap (snd position);
            el_blockData := Some (Plain block);
            el_x := None; el_y := None; el_draggable := true |} /\
  (forall k, k <> Some blockId -> map_get k (blocks (snd r)) = map_get k (blocks st)) /\
  (connections (snd r) = connections st \/
   exists src, connections (snd r) = connections st ++ [conn src (Some blockId)]) /\
  notices (snd r) = notices st ++ [Added t].
Proof.
  cbv zeta.
  set (block := new_block (block_id (S (blockCounter st))) (Some t) position definition).
  set (st1 := with_blockCounter (S (blockCounter st)) st).
  set (el := {| el_id := _; el_left := _; el_top := _; el_blockData := Some _;
                el_x := _; el_y := _; el_draggable := _ |}).
  assert (E : addBlock (Some t) position definition st
              = (Ok (block_id (S (blockCounter st))),
                 notify (Added t)
                   (saveState
                      (with_blocks
                         (map_set (Some (block_id (S (blockCounter st)))) el
                            (blocks (autoConnectNewBlock block st1)))
                         (autoConnectNewBlock block st1)))))
    by reflexivity.
  rewrite E. cbn [fst snd notify notices blocks connections blockCounter].
  rewrite saveState_blocks, saveState_connections, saveState_blockCounter.
  cbn [with_blocks blocks connections blockCounter].
  rewrite autoConnectNewBlock_blocks.
  destruct (autoConnectNewBlock_history block st1) as (_ & _ & Hc).
  split; [reflexivity|]. split; [exact Hc|].
  split; [apply map_get_set_same|].
  split; [intros k Hk; now apply map_get_set_other|].
  split.
  - destruct (autoConnectNewBlock_connections block st1) as [C | (e & _ & C)];
      rewrite C; [now left|right; eauto].
  - rewrite saveState_notices. cbn [with_blocks notices].
    now rewrite autoConnectNewBlock_notices.
Qed.

(** X7.  [addBlock] with a type returns the id made from the
    incremented counter, stores under it a draggable element with id
    [canvas-<id>] at the snapped drop point whose block data is the new
    block object, keeps every other entry of the map, keeps the
    connections there were (adding at most the auto-link to the new
    block at the end), and announces the insertion. *)
Theorem addBlock_stores_new_block (t : string) (position : option Q * option Q)
    (definition : BlockDefinition) (st : State) :
  let blockId := block_id (S (blockCounter st)) in
  let block := new_block blockId (Some t) position definition in
  let r := addBlock (Some t) position definition st in
  fst r = Ok blockId /\
  blockCounter (snd r) = S (blockCounter st) /\
  map_get (Some blockId) (blocks (snd r))
  = Some {| el_id := ("canvas-" ++ blockId)%string;
            el_left := snap (fst position); el_top := snap (snd position);
            el_blockData := Some (Plain block);
            el_x := None; el_y := None; el_draggable := true |} /\
  (forall k, k <> Some blockId -> map_get k (blocks (snd r)) = map_get k (blocks st)) /\
  (connections (snd r) = connections st \/
   exists src, connections (snd r) = connections st ++ [conn src (Some blockId)]) /\
  notices (snd r) = notices st ++ [Added t].
Proof. exact (addBlock_effect t position definition st). Qed.

(** The auto-linker always links when the map is not empty and the new
    block is no start block. *)
Lemma autoConnectNewBlock_links b st k e :
  map_get k (blocks st) = Some e ->
  str_eqb (b_type b) (Some "start") = false ->
  exists last, In last (map_values (blocks st)) /\
    connections (autoConnectNewBlock b st)
    = connections st ++ [conn (Some (el_id last)) (b_id b)].
Proof.
  intros H T. unfold autoConnectNewBlock.
  destruct (sort by_id_number_desc (map_values (blocks st))) as [|l0 l] eqn:S.
  - exfalso. apply map_get_In in H.
    assert (I : In e (map_values (blocks st)))
      by (unfold map_values; apply in_map_iff; exists (k, e); auto).
    apply (sort_In by_id_number_desc) in I. now rewrite S in I.
  - rewrite T. cbn [el_type str_eqb andb]. exists l0. split; [|reflexivity].
    apply (sort_In by_id_number_desc). rewrite S. now left.
Qed.

(** X8.  Duplicating a block whose block data has no type (the state of
    every block that an undo or redo has rebuilt) raises a [TypeError]
    inside [addBlock]: no block is stored, nothing is committed or
    announced, but the id is used up and the auto-link to the block
    that was never stored stays in the connection list. *)
Theorem duplicateBlock_of_untyped_block_fails (blockId : Id) (e : Element)
    (o : JsObj) (st : State) :
  map_get blockId (blocks st) = Some e ->
  el_blockData e = Some o ->
  obj_type o = None ->
  let r := duplicateBlock blockId st in
  fst r = Throw (TypeError "str.replace") /\
  blocks (snd r) = blocks st /\
  history (snd r) = history st /\ historyIndex (snd r) = historyIndex st /\
  notices (snd r) = notices st /\
  blockCounter (snd r) = S (blockCounter st) /\
  exists last, In last (map_values (blocks st)) /\
    connections (snd r)
    = connections st
      ++ [conn (Some (el_id last)) (Some (block_id (S (blockCounter st))))].
Proof.
  intros H D T. cbv zeta.
  set (b := new_block (block_id (S (blockCounter st))) None
              (option_map (fun v => (v + 40)%Q) (obj_x o),
               option_map (fun v => (v + 40)%Q) (obj_y o))
              (match obj_definition o with Some d => d | None => no_definition end)).
  set (st1 := with_blockCounter (S (blockCounter st)) st).
  assert (E : duplicateBlock blockId st
              = (Throw (TypeError "str.replace"), autoConnectNewBlock b st1)).
  { unfold duplicateBlock. rewrite H, D, T. reflexivity. }
  rewrite E. cbn [fst snd].
  destruct (autoConnectNewBlock_history b st1) as (Hh & Hi & Hc).
  split; [reflexivity|].
  split; [now rewrite autoConnectNewBlock_blocks|].
  split; [exact Hh|]. split; [exact Hi|].
  split; [now rewrite autoConnectNewBlock_notices|].
  split; [exact Hc|].
  destruct (autoConnectNewBlock_links b st1 blockId e H) as (last & L1 & L2);
    [reflexivity|].
  exists last. split; [exact L1|exact L2].
Qed.

Lemma duplicateBlock_of_untyped_block_fails_witness :
  let st := steps [insert "start"; insert "print"; EvUndo] fresh in
  let r := duplicateBlock (Some "block_1") st in
  fst r = Throw (TypeError "str.replace") /\
  blocks (snd r) = blocks st /\
  blockCounter (snd r) = 3%nat /\
  existsb (dangling (snd r)) (connections (snd r)) = true.
Proof.
  intros st r.
  assert (H : map_get (Some "block_1") (blocks st)
              = Some (restored_element
                        (Cloned (Some (Plain (new_block "block_1" (Some "start")
                                                origin no_definition))) None None)))
    by (vm_compute; reflexivity).
  destruct (duplicateBlock_of_untyped_block_fails (Some "block_1") _ _ st H
              eq_refl eq_refl) as (R1 & R2 & _ & _ & _ & R3 & _).
  split; [exact R1|]. split; [exact R2|].
  split; [exact R3|]. vm_compute. reflexivity.
Defined.

(** X9.  In a session of typed insertions and removals, the target of
    every connection is a block of the store. *)
Theorem connection_targets_are_stored (evs : list Event) :
  Forall typed_add_or_remove evs ->
  forall c, In c (connections (steps evs fresh)) ->
    names_block (steps evs fresh) (conn_to c) = true.
Proof.
  induction evs as [|ev evs IH] using rev_ind; intros Hevs c.
  - intros [].
  - apply Forall_app in Hevs. destruct Hevs as [H1 H2].
    inversion H2 as [|? ? Hev _]; subst. specialize (IH H1).
    rewrite steps_snoc. set (st := steps evs fresh) in *.
    destruct ev as [[t|] position definition|blockId| | | | | | | | | | |];
      simpl in Hev; try contradiction; cbn [step].
    + pose proof (addBlock_effect t position definition st) as A.
      cbv zeta in A. destruct A as (_ & _ & G & O & C & _).
      assert (K : forall c0, In c0 (connections st) ->
                  names_block (snd (addBlock (Some t) position definition st))
                    (conn_to c0) = true).
      { intros c0 Hc0. specialize (IH c0 Hc0). unfold names_block in IH |- *.
        destruct (str_eqb (conn_to c0) (Some (block_id (S (blockCounter st))))) eqn:E.
        - apply str_eqb_eq in E. now rewrite E, G.
        - apply str_eqb_neq in E. now rewrite (O _ E). }
      destruct C as [-> | (src & ->)].
      * intros Hc. exact (K c Hc).
      * intros Hc. apply in_app_or in Hc. destruct Hc as [Hc|[<-|[]]].
        -- exact (K c Hc).
        -- unfold names_block. cbn [conn conn_to]. now rewrite G.
    + pose proof (removeBlock_graph blockId st) as G. cbv zeta in G.
      destruct (map_get blockId (blocks st)) as [e|] eqn:M.
      * destruct G as [Gb Gc]. unfold names_block. rewrite Gb, Gc.
        rewrite filter_In, andb_true_iff, !negb_true_iff, !str_eqb_neq.
        intros (Hc & _ & Hto). specialize (IH c Hc). unfold names_block in IH.
        rewrite map_get_delete_other by exact Hto. exact IH.
      * rewrite G. apply IH.
Qed.

Lemma connection_targets_are_stored_witness :
  Forall typed_add_or_remove
    [insert "start"; insert "print"; EvRemoveBlock (Some "block_1"); insert "end"] /\
  forall c,
    In c (connections (steps [insert "start"; insert "print";
                              EvRemoveBlock (Some "block_1"); insert "end"] fresh)) ->
    names_block (steps [insert "start"; insert "print";
                        EvRemoveBlock (Some "block_1"); insert "end"] fresh)
      (conn_to c) = true.
Proof.
  assert (F : Forall typed_add_or_remove
                [insert "start"; insert "print"; EvRemoveBlock (Some "block_1");
                 insert "end"])
    by (repeat constructor).
  split; [exact F|]. exact (connection_targets_are_stored _ F).
Defined.

(** ** Grid and drag *)

Lemma Math_round_inject (k : Z) : Math_round (inject_Z k) = k.
Proof.
  destruct (Math_round_bounds (inject_Z k)) as [L U].
  assert (L' : (inject_Z (Math_round (inject_Z k) - 1) < inject_Z k)%Q).
  { unfold Z.sub. rewrite inject_Z_plus. change (inject_Z (- (1))) with (-1 # 1)%Q. lra. }
  assert (U' : (inject_Z k < inject_Z (Math_round (inject_Z k) + 1))%Q).
  { rewrite inject_Z_plus. change (inject_Z 1) with 1%Q. lra. }
  rewrite <- Zlt_Qlt in L', U'. lia.
Qed.

(** X10.  In the range of the editor (magnitude up to 10^15, where
    binary64 computes the quotient's rounding and the product
    exactly), snapping puts a coordinate on the nearest multiple of 20,
    the upper one when it is half way between two, keeps it within 10
    of the range, and leaves a snapped coordinate where it is. *)
Theorem snap_is_nearest_grid_point (q : Q) :
  within coordinate_limit (Some q) ->
  exists k : Z,
    snap (Some q) = Some (inject_Z (k * 20)) /\
    (inject_Z (k * 20) - 10 <= q)%Q /\ (q < inject_Z (k * 20) + 10)%Q /\
    within (coordinate_limit + 10) (snap (Some q)) /\
    snap (snap (Some q)) = snap (Some q).
Proof.
  intros R. exists (Math_round (q / 20)).
  destruct (Math_round_bounds (q / 20)) as [L U].
  assert (E : (q == q / 20 * 20)%Q) by field.
  split; [reflexivity|].
  split; [rewrite inject_Z_mult; change (inject_Z 20) with 20%Q; lra|].
  split; [rewrite inject_Z_mult; change (inject_Z 20) with 20%Q; lra|].
  split; [now apply snap_within|].
  unfold snap. cbn [option_map]. do 2 f_equal. f_equal.
  assert (D : (inject_Z (Math_round (q / 20) * 20) / 20
               == inject_Z (Math_round (q / 20)))%Q).
  { rewrite inject_Z_mult. change (inject_Z 20) with 20%Q. field. }
  unfold Math_round at 1.
  rewrite D. apply Math_round_inject.
Qed.

Lemma snap_is_nearest_grid_point_witness :
  within coordinate_limit (Some (-70 # 1)%Q) /\
  exists k : Z,
    snap (Some (-70 # 1)%Q) = Some (inject_Z (k * 20)) /\
    (inject_Z (k * 20) - 10 <= -70 # 1)%Q /\ (-70 # 1 < inject_Z (k * 20) + 10)%Q.
Proof.
  assert (R : within coordinate_limit (Some (-70 # 1)%Q))
    by (apply Qle_bool_imp_le; reflexivity).
  split; [exact R|].
  destruct (snap_is_nearest_grid_point (-70 # 1) R) as (k & K1 & K2 & K3 & _).
  exists k. split; [exact K1|]. split; [exact K2|exact K3].
Defined.

Lemma map_set_set {V} k v v' (m : JsMap V) :
  map_set k v' (map_set k v m) = map_set k v' m.
Proof.
  induction m as [|[k0 v0] m IH]; simpl.
  - now rewrite str_eqb_refl.
  - destruct (str_eqb k0 k) eqn:E; simpl.
    + now rewrite str_eqb_refl.
    + now rewrite E, IH.
Qed.

Lemma onBlockMouseMove_twice blockId x y x' y' st :
  onBlockMouseMove blockId x' y' (onBlockMouseMove blockId x y st)
  = onBlockMouseMove blockId x' y' st.
Proof.
  unfold onBlockMouseMove at 2.
  destruct (map_get blockId (blocks st)) as [e|] eqn:G; [|reflexivity].
  unfold onBlockMouseMove. cbn [blocks with_blocks].
  rewrite map_get_set_same, G, map_set_set.
  destruct (el_draggable e) eqn:D; cbn [dragged_to moved_data el_draggable];
    rewrite D; reflexivity.
Qed.

(** X11.  Of a whole drag gesture only the last point counts: however
    many [mousemove] events come before the [mouseup], the editor ends
    in the state of a single move to the last point followed by the one
    [saveState] of the [mouseup]; no point on the way is recorded. *)
Theorem drag_records_only_last_point (blockId : Id) (pts : list (Q * Q))
    (p : Q * Q) (st : State) :
  steps (drag blockId (pts ++ [p]) ++ [EvMouseUp]) st
  = saveState (onBlockMouseMove blockId (fst p) (snd p) st).
Proof.
  rewrite steps_snoc. cbn [step]. unfold onBlockMouseUp. f_equal.
  revert st. induction pts as [|q pts IH]; intros st; [reflexivity|].
  cbn [app drag map steps fold_left step].
  change (fold_left (fun s ev => step ev s) (map _ (pts ++ [p])) ?s)
    with (steps (drag blockId (pts ++ [p])) s).
  rewrite IH. apply onBlockMouseMove_twice.
Qed.

(** ** Undo, session load and import, block by block *)

Lemma fold_set_fresh {V W} (f : W -> V) (l : JsMap W) : forall m0 : JsMap V,
  NoDup (map_keys m0 ++ map_keys l) ->
  fold_left (fun m kv => map_set (fst kv) (f (snd kv)) m) l m0
  = m0 ++ map (fun kv => (fst kv, f (snd kv))) l.
Proof.
  induction l as [|[k w] l IH]; intros m0 H; cbn [fold_left map fst snd].
  - now rewrite app_nil_r.
  - assert (Hk : ~ In k (map_keys m0)).
    { intros Hin. apply NoDup_remove_2 in H. apply H. apply in_or_app. now left. }
    rewrite (map_set_new _ _ _ Hk), IH.
    + now rewrite <- app_assoc.
    + unfold map_keys in *. rewrite map_app, <- app_assoc. exact H.
Qed.

(** X12.  [restoreState] on the snapshot of a state rebuilds one
    element per block, in the same order and under the same keys, but
    places it at the point the last drag wrote on the old element, and
    at (0, 0) when the block was never dragged; the new element has no
    id and no drag listeners, and its block data is the copy of the old
    element, not the block object.  Connections come back as they
    were, and the view with 1 for a zoom of 0. *)
Theorem restoreState_places_blocks_by_drag_point (saved st : State) :
  NoDup (map_keys (blocks saved)) ->
  let st' := restoreState (Some (snapshot saved)) st in
  blocks st'
  = map (fun kv =>
           (fst kv,
            {| el_id := "";
               el_left := Some (num_or (el_x (snd kv)) 0);
               el_top := Some (num_or (el_y (snd kv)) 0);
               el_blockData :=
                 Some (Cloned (el_blockData (snd kv)) (el_x (snd kv)) (el_y (snd kv)));
               el_x := None; el_y := None; el_draggable := false |}))
        (blocks saved) /\
  connections st' = connections saved /\
  view st' = (num_or (Some (zoom saved)) 1, num_or (Some (panX saved)) 0,
              num_or (Some (panY saved)) 0).
Proof.
  intros H. cbv zeta. split; [|split].
  - cbn [restoreState with_view with_connections with_blocks blocks snapshot s_blocks].
    rewrite fold_set_fresh.
    + cbn [app]. rewrite map_map. apply map_ext. intros [k e]. cbn [fst snd].
      unfold restored_element. rewrite deepClone_id, deepClone_element_eq.
      reflexivity.
    + cbn [map_keys map app]. unfold map_keys in *. rewrite map_map.
      cbn [fst]. exact H.
  - reflexivity.
  - reflexivity.
Qed.

Lemma restoreState_places_blocks_by_drag_point_witness :
  let saved := steps [EvAddBlock (Some "start") (Some (100 # 1), Some (60 # 1))
                        no_definition;
                      EvAddBlock (Some "print") (Some (100 # 1), Some (160 # 1))
                        no_definition;
                      EvMouseMove (Some "block_2") (205 # 1) (161 # 1);
                      EvMouseUp] fresh in
  NoDup (map_keys (blocks saved)) /\
  map (fun kv => (el_left (snd kv), el_top (snd kv))) (blocks saved)
  = [(Some (100 # 1), Some (60 # 1)); (Some (200 # 1), Some (160 # 1))] /\
  map (fun kv => (el_left (snd kv), el_top (snd kv)))
      (blocks (restoreState (Some (snapshot saved)) saved))
  = [(Some 0%Q, Some 0%Q); (Some (200 # 1), Some (160 # 1))].
Proof.
  intros saved.
  assert (H : NoDup (map_keys (blocks saved))).
  { vm_compute. repeat constructor; simpl; intuition discriminate. }
  split; [exact H|]. split; [vm_compute; reflexivity|].
  rewrite (proj1 (restoreState_places_blocks_by_drag_point saved saved H)).
  vm_compute. reflexivity.
Defined.

Lemma createBlockFromData_catalogue b st :
  availableBlocks (createBlockFromData b st) = availableBlocks st /\
  currentLanguage (createBlockFromData b st) = currentLanguage st /\
  blockCounter (createBlockFromData b st) = blockCounter st /\
  selectedBlock (createBlockFromData b st) = selectedBlock st /\
  connections (createBlockFromData b st) = connections st.
Proof. unfold createBlockFromData. destruct (known_type _ _); auto. Qed.

Lemma fold_createBlockFromData bs : forall s,
  let s' := fold_left (fun s b => createBlockFromData b s) bs s in
  blockCounter s' = blockCounter s /\
  selectedBlock s' = selectedBlock s /\
  connections s' = connections s /\
  forall k e, In (k, e) (blocks s') ->
    In (k, e) (blocks s) \/
    exists b, In b bs /\ b_id b = k /\ known_type (b_type b) s = true /\
      el_left e = b_x b /\ el_top e = b_y b /\
      option_map obj_type (el_blockData e) = Some (b_type b) /\
      option_map obj_properties (el_blockData e)
      = Some (Some (match b_properties b with Some p => p | None => [] end)).
Proof.
  induction bs as [|b bs IH]; intros s; cbn [fold_left]; cbv zeta.
  - repeat split. auto.
  - specialize (IH (createBlockFromData b s)). cbv zeta in IH.
    destruct IH as (I1 & I2 & I3 & I4).
    destruct (createBlockFromData_catalogue b s) as (C1 & _ & C3 & C4 & C5).
    rewrite I1, I2, I3, C3, C4, C5. repeat split.
    intros k e Hin. apply I4 in Hin. destruct Hin as [Hin|(b' & Hb & R)].
    + unfold createBlockFromData in Hin.
      destruct (known_type (b_type b) s) eqn:K; [|now left].
      cbn [with_blocks blocks] in Hin. apply In_map_set in Hin.
      destruct Hin as [E|Hin]; [|now left].
      injection E as E1 E2. subst k e. right. exists b.
      split; [now left|]. cbn. repeat split; auto.
    + right. exists b'. split; [now right|].
      unfold known_type in *. rewrite C1 in R. exact R.
Qed.

(** What a session load leaves in the editor. *)
Lemma restoreFromJSONState_effect (doc : SessionDoc) (st : State) :
  let st' := restoreFromJSONState doc st in
  blockCounter st' = 0%nat /\
  history st' = history st /\ historyIndex st' = historyIndex st /\
  env st' = env st /\ selectedBlock st' = selectedBlock st /\
  connections st' = match sd_connections doc with Some cs => cs | None => [] end /\
  forall k e, In (k, e) (blocks st') ->
    exists b bs, sd_blocks doc = Some bs /\ In b bs /\ b_id b = k /\
      known_type (b_type b) st = true /\
      el_left e = b_x b /\ el_top e = b_y b /\
      option_map obj_type (el_blockData e) = Some (b_type b) /\
      option_map obj_properties (el_blockData e)
      = Some (Some (match b_properties b with Some p => p | None => [] end)).
Proof.
  cbv zeta. destruct (restoreFromJSONState_frame doc st) as (E & Hh & Hi).
  split; [|split; [exact Hh|split; [exact Hi|split; [exact E|]]]].
  - unfold restoreFromJSONState.
    cbn [with_currentLanguage with_view blockCounter].
    destruct (sd_blocks doc) as [bs|], (sd_connections doc) as [cs|];
      cbn [with_connections blockCounter];
      try (destruct (fold_createBlockFromData bs (clearCanvas st)) as (-> & _));
      reflexivity.
  - unfold restoreFromJSONState.
    cbn [with_currentLanguage with_view selectedBlock connections blocks].
    assert (M : forall cs : list Connection,
              map (fun c => {| conn_from := conn_from c; conn_to := conn_to c;
                               conn_fromPort := conn_fromPort c;
                               conn_toPort := conn_toPort c |}) cs = cs).
    { induction cs as [|[] cs IH]; [reflexivity|]. cbn [map]. now rewrite IH. }
    destruct (sd_blocks doc) as [bs|].
    + destruct (fold_createBlockFromData bs (clearCanvas st)) as (_ & S & C & B).
      cbv zeta in S, C, B.
      destruct (sd_connections doc) as [cs|];
        cbn [with_connections selectedBlock connections blocks];
        rewrite ?S, ?C, ?M; (split; [reflexivity|]); (split; [reflexivity|]);
        intros k e Hin; apply B in Hin; destruct Hin as [[]|(b & Hb & R)];
        exists b, bs; (split; [reflexivity|]); (split; [exact Hb|exact R]).
    + destruct (sd_connections doc) as [cs|];
        cbn [with_connections selectedBlock connections blocks clearCanvas
             with_blockCounter with_blocks];
        rewrite ?M; (split; [reflexivity|]); (split; [reflexivity|]);
        intros k e [].
Qed.

Lemma fold_createBlockFromData_blocks bs : forall s,
  blocks (fold_left (fun s b => createBlockFromData b s) bs s)
  = fold_left (fun m b => map_set (b_id b) (loaded_element (currentLanguage s) b) m)
      (filter (fun b => known_type (b_type b) s) bs) (blocks s).
Proof.
  induction bs as [|b bs IH]; intros s; [reflexivity|].
  cbn [fold_left filter]. rewrite IH.
  destruct (createBlockFromData_catalogue b s) as (A & L & _).
  assert (F : filter (fun b0 => known_type (b_type b0) (createBlockFromData b s)) bs
              = filter (fun b0 => known_type (b_type b0) s) bs).
  { apply filter_ext. intros b0. unfold known_type. now rewrite A. }
  rewrite F, L. unfold createBlockFromData.
  destruct (known_type (b_type b) s); reflexivity.
Qed.

Lemma fold_set_distinct {A V} (key : A -> Id) (f : A -> V) (l : list A) :
  forall m0 : JsMap V,
  NoDup (map_keys m0 ++ map key l) ->
  fold_left (fun m a => map_set (key a) (f a) m) l m0
  = m0 ++ map (fun a => (key a, f a)) l.
Proof.
  induction l as [|a l IH]; intros m0 H; cbn [fold_left map].
  - now rewrite app_nil_r.
  - assert (Hk : ~ In (key a) (map_keys m0)).
    { intros Hin. apply NoDup_remove_2 in H. apply H. apply in_or_app. now left. }
    rewrite (map_set_new _ _ _ Hk), IH.
    + now rewrite <- app_assoc.
    + unfold map_keys in *. rewrite map_app, <- app_assoc. exact H.
Qed.

Lemma fold_set_keeps {A V} (key : A -> Id) (f : A -> V) (l : list A) k :
  forall m0 : JsMap V,
  (exists v, map_get k m0 = Some v) ->
  exists v, map_get k (fold_left (fun m a => map_set (key a) (f a) m) l m0) = Some v.
Proof.
  induction l as [|a l IH]; intros m0 H; [exact H|].
  cbn [fold_left]. apply IH. destruct H as [v H].
  destruct (str_eqb (key a) k) eqn:E.
  - apply str_eqb_eq in E. subst. rewrite map_get_set_same. eauto.
  - apply str_eqb_neq in E. rewrite map_get_set_other by congruence. eauto.
Qed.

Lemma fold_set_stores {A V} (key : A -> Id) (f : A -> V) (l : list A) a :
  forall m0 : JsMap V, In a l ->
  exists v, map_get (key a) (fold_left (fun m a => map_set (key a) (f a) m) l m0)
            = Some v.
Proof.
  induction l as [|a0 l IH]; intros m0 H; [destruct H|].
  cbn [fold_left]. destruct H as [->|H]; [|now apply IH].
  apply fold_set_keeps. rewrite map_get_set_same. eauto.
Qed.

(** X13.  Loading a saved session clears the graph, sets the id counter
    to 0 and stores an element for the blocks of the document whose
    type the catalogue knows at that time, and for no other: each of
    them is a key of the map afterwards, every element of the map is
    at the position and has the type and the properties its block has
    in the document, and when the ids of those blocks are distinct the
    map holds exactly their elements, in the order of the document;
    without a block list the map is empty.  The connections of the
    document are all installed, whether or not their blocks were; the
    history, the selection and the autosave timer are not touched. *)
Theorem restoreFromJSONState_keeps_known_types (doc : SessionDoc) (st : State) :
  let st' := restoreFromJSONState doc st in
  let known := filter (fun b => known_type (b_type b) st) in
  blockCounter st' = 0%nat /\
  history st' = history st /\ historyIndex st' = historyIndex st /\
  env st' = env st /\ selectedBlock st' = selectedBlock st /\
  connections st' = match sd_connections doc with Some cs => cs | None => [] end /\
  (forall k e, In (k, e) (blocks st') ->
    exists b bs, sd_blocks doc = Some bs /\ In b bs /\ b_id b = k /\
      known_type (b_type b) st = true /\
      el_left e = b_x b /\ el_top e = b_y b /\
      option_map obj_type (el_blockData e) = Some (b_type b) /\
      option_map obj_properties (el_blockData e)
      = Some (Some (match b_properties b with Some p => p | None => [] end))) /\
  (forall bs b, sd_blocks doc = Some bs -> In b (known bs) ->
     names_block st' (b_id b) = true) /\
  (forall bs, sd_blocks doc = Some bs -> NoDup (map b_id (known bs)) ->
     blocks st'
     = map (fun b => (b_id b, loaded_element (currentLanguage st) b)) (known bs)) /\
  (sd_blocks doc = None -> blocks st' = []).
Proof.
  cbv zeta.
  destruct (restoreFromJSONState_effect doc st) as (E1 & E2 & E3 & E4 & E5 & E6 & E7).
  cbv zeta in E7.
  do 6 (split; [assumption|]). split; [exact E7|].
  assert (B : forall bs, sd_blocks doc = Some bs ->
            blocks (restoreFromJSONState doc st)
            = fold_left (fun m b => map_set (b_id b)
                                      (loaded_element (currentLanguage st) b) m)
                (filter (fun b => known_type (b_type b) st) bs) []).
  { intros bs Hbs. unfold restoreFromJSONState. rewrite Hbs.
    cbn [with_currentLanguage with_view blocks].
    destruct (sd_connections doc); cbn [with_connections blocks];
      rewrite fold_createBlockFromData_blocks; reflexivity. }
  split; [|split].
  - intros bs b Hbs Hin. unfold names_block. rewrite (B bs Hbs).
    destruct (fold_set_stores b_id (loaded_element (currentLanguage st)) _ b [] Hin)
      as [v ->]. reflexivity.
  - intros bs Hbs Hnd. rewrite (B bs Hbs). now rewrite fold_set_distinct.
  - intros Hn. unfold restoreFromJSONState. rewrite Hn.
    destruct (sd_connections doc); reflexivity.
Qed.

Lemma restoreFromJSONState_keeps_known_types_witness :
  let bs := [ {| b_id := Some "block_1"; b_type := Some "start";
                 b_x := Some (40 # 1); b_y := Some (60 # 1);
                 b_properties := None; b_definition := None; b_language := None |};
              {| b_id := Some "block_2"; b_type := Some "teleport";
                 b_x := Some (40 # 1); b_y := Some (160 # 1);
                 b_properties := None; b_definition := None; b_language := None |};
              {| b_id := Some "block_3"; b_type := Some "print";
                 b_x := Some (47 # 1); b_y := Some (260 # 1);
                 b_properties := Some [("message", "hello")];
                 b_definition := None; b_language := Some "java" |} ] in
  let doc := {| sd_blocks := Some bs;
                sd_connections := Some [conn (Some "block_1") (Some "block_2")];
                sd_zoom := None; sd_panX := None; sd_panY := None;
                sd_language := None |} in
  let st := steps [EvCatalog ["start"; "print"]; insert "start"; insert "print"] fresh in
  map_keys (blocks (restoreFromJSONState doc st)) = [Some "block_1"; Some "block_3"] /\
  map (fun kv => el_left (snd kv)) (blocks (restoreFromJSONState doc st))
  = [Some (40 # 1); Some (47 # 1)].
Proof.
  intros bs doc st.
  destruct (restoreFromJSONState_keeps_known_types doc st)
    as (_ & _ & _ & _ & _ & _ & _ & _ & E & _).
  cbv zeta in E. rewrite (E bs eq_refl).
  - split; vm_compute; reflexivity.
  - vm_compute. repeat constructor; simpl; intuition discriminate.
Defined.

Lemma saveState_frame st :
  selectedBlock (saveState st) = selectedBlock st /\ view (saveState st) = view st.
Proof. unfold saveState, view. cbv zeta. destruct (_ <? _)%nat; split; reflexivity. Qed.

Lemma clear_frame st :
  blocks (clear st) = [] /\ connections (clear st) = [] /\
  selectedBlock (clear st) = None /\ view (clear st) = view st /\
  notices (clear st) = notices st ++ [Cleared].
Proof.
  unfold clear. cbn [notify blocks connections selectedBlock notices].
  rewrite saveState_blocks, saveState_connections, saveState_notices.
  destruct (saveState_frame
              (with_selectedBlock None (with_connections [] (with_blocks [] st))))
    as [S V].
  unfold view in *. cbn [notify zoom panX panY]. rewrite S, V. repeat split.
Qed.

Lemma forEach_import_frame bs : forall st,
  connections (snd (forEach import_block bs st)) = connections st /\
  selectedBlock (snd (forEach import_block bs st)) = selectedBlock st /\
  view (snd (forEach import_block bs st)) = view st /\
  notices (snd (forEach import_block bs st)) = notices st.
Proof.
  induction bs as [|b bs IH]; intros st; [repeat split|].
  rewrite forEach_import_cons.
  destruct (createBlockElement b) as [e|err]; [|repeat split].
  destruct (IH (with_blocks
    (map_set (b_id b) (set_blockData (Plain b) e) (blocks st)) st))
    as (-> & -> & -> & ->).
  repeat split.
Qed.

Lemma names_block_set_iff st k v k' :
  names_block (with_blocks (map_set k v (blocks st)) st) k' = true
  <-> names_block st k' = true \/ k' = k.
Proof.
  unfold names_block. cbn [with_blocks blocks].
  destruct (str_eqb k k') eqn:E.
  - apply str_eqb_eq in E. subst. rewrite map_get_set_same. tauto.
  - apply str_eqb_neq in E. rewrite map_get_set_other by congruence.
    split; [tauto|]. intros [H|H]; [exact H|congruence].
Qed.

Lemma forEach_import_stops good bad rest err : forall s,
  Forall element_created good ->
  createBlockElement bad = Throw err ->
  fst (forEach import_block (good ++ bad :: rest) s) = Throw err /\
  forall k, names_block (snd (forEach import_block (good ++ bad :: rest) s)) k = true
            <-> names_block s k = true \/ In k (map b_id good).
Proof.
  induction good as [|b good IH]; intros s Hg Hb; cbn [app].
  - rewrite forEach_import_cons, Hb. split; [reflexivity|].
    intros k. cbn [snd map In]. tauto.
  - inversion Hg as [|? ? [e He] Hg']; subst.
    rewrite forEach_import_cons, He.
    destruct (IH (with_blocks
      (map_set (b_id b) (set_blockData (Plain b) e) (blocks s)) s) Hg' Hb)
      as [I1 I2].
    split; [exact I1|]. intros k. rewrite I2, names_block_set_iff.
    cbn [map In]. split; [intros [[H|H]|H]|intros [H|[H|H]]]; auto.
Qed.

(** X14.  An import that fails on a block is not rolled back: the
    exception of [createBlockElement] leaves the canvas cleared, with
    the blocks of the document before the bad one and without any
    connection; the only history entry is the one [clear] pushed, the
    view is the old one and no success is announced. *)
Theorem import_stops_at_bad_block (data : CanvasData) (good : list BlockObj)
    (bad : BlockObj) (rest : list BlockObj) (err : Error) (st : State) :
  cd_blocks data = Some (good ++ bad :: rest) ->
  Forall element_created good ->
  createBlockElement bad = Throw err ->
  let r := import (Some data) st in
  fst r = Throw err /\
  (forall k, names_block (snd r) k = true <-> In k (map b_id good)) /\
  connections (snd r) = [] /\ selectedBlock (snd r) = None /\
  view (snd r) = view st /\
  history (snd r) = history (clear st) /\
  historyIndex (snd r) = historyIndex (clear st) /\
  notices (snd r) = notices st ++ [Cleared].
Proof.
  intros H Hg Hb. cbv zeta.
  destruct (forEach_import_stops good bad rest err (clear st) Hg Hb) as [F1 F2].
  destruct (forEach_import_frame (good ++ bad :: rest) (clear st))
    as (G1 & G2 & G3 & G4).
  destruct (forEach_import_history (good ++ bad :: rest) (clear st)) as [G5 G6].
  destruct (clear_frame st) as (C1 & C2 & C3 & C4 & C5).
  unfold import. rewrite H. unfold bind, run.
  destruct (forEach import_block (good ++ bad :: rest) (clear st)) as [[[]|e] s2];
    cbn [fst snd] in *; [discriminate|].
  split; [exact F1|]. split.
  - intros k. rewrite F2. unfold names_block. rewrite C1. cbn [map_get].
    split; [intros [D|I]; [discriminate|exact I]|auto].
  - rewrite G1, G2, G3, G4, G5, G6, C2, C3, C4, C5. repeat split.
Qed.

Lemma import_stops_at_bad_block_witness :
  let st := steps [insert "start"; insert "print"] fresh in
  let r := import (Some untyped_block_data) st in
  fst r = Throw (TypeError "str.replace") /\
  map_keys (blocks (snd r)) = [Some "block_1"] /\
  connections (snd r) = [] /\
  (List.length (history (snd r)) = S (List.length (history st)))%nat.
Proof.
  intros st r.
  assert (H : cd_blocks untyped_block_data
              = Some ([ {| b_id := Some "block_1"; b_type := Some "start";
                           b_x := Some (40 # 1); b_y := Some (60 # 1);
                           b_properties := Some [];
                           b_definition := Some no_definition;
                           b_language := None |} ]
                      ++ {| b_id := Some "block_2"; b_type := None;
                            b_x := Some (40 # 1); b_y := Some (160 # 1);
                            b_properties := Some [];
                            b_definition := Some no_definition;
                            b_language := None |}
                      :: [ {| b_id := Some "block_3"; b_type := Some "end";
                              b_x := Some (40 # 1); b_y := Some (260 # 1);
                              b_properties := Some [];
                              b_definition := Some no_definition;
                              b_language := None |} ]))
    by reflexivity.
  destruct (import_stops_at_bad_block untyped_block_data _ _ _
              (TypeError "str.replace") st H) as (R1 & _ & R3 & _).
  - constructor; [|constructor]. eexists. reflexivity.
  - reflexivity.
  - split; [exact R1|]. split; [vm_compute; reflexivity|].
    split; [exact R3|vm_compute; reflexivity].
Defined.

(** ** Stores of complete blocks *)

Lemma In_keys_map_set {V} k v (m : JsMap V) k' :
  In k' (map_keys (map_set k v m)) -> k' = k \/ In k' (map_keys m).
Proof.
  unfold map_keys. intros H. apply in_map_iff in H.
  destruct H as ([k0 v0] & <- & Hin). apply In_map_set in Hin.
  destruct Hin as [E|Hin]; [injection E as -> _; now left|].
  right. apply in_map_iff. exists (k0, v0). auto.
Qed.

Lemma NoDup_map_set {V} k v (m : JsMap V) :
  NoDup (map_keys m) -> NoDup (map_keys (map_set k v m)).
Proof.
  induction m as [|[k0 v0] m IH]; cbn [map_set map_keys map fst]; intros H.
  - constructor; [intros []|constructor].
  - inversion H as [|? ? Hn Hm]; subst.
    destruct (str_eqb k0 k) eqn:E; cbn [map fst].
    + apply str_eqb_eq in E. subst. constructor; assumption.
    + constructor; [|now apply IH].
      intros Hin. apply In_keys_map_set in Hin. destruct Hin as [->|Hin]; [|auto].
      now rewrite str_eqb_refl in E.
Qed.

Lemma NoDup_map_delete {V} k (m : JsMap V) :
  NoDup (map_keys m) -> NoDup (map_keys (map_delete k m)).
Proof.
  induction m as [|[k0 v0] m IH]; cbn [map_delete filter map_keys map fst]; intros H.
  - constructor.
  - inversion H as [|? ? Hn Hm]; subst.
    destruct (negb (str_eqb k0 k)); cbn [map fst]; [|now apply IH].
    constructor; [|now apply IH].
    intros Hin. apply Hn. unfold map_keys in *. apply in_map_iff in Hin.
    destruct Hin as (kv & <- & Hin). apply in_map_iff. exists kv.
    split; [reflexivity|]. now apply In_map_delete in Hin.
Qed.

Lemma complete_same st st' :
  blocks st' = blocks st -> complete_store st -> complete_store st'.
Proof. unfold complete_store. now intros ->. Qed.

Lemma complete_set st st' k v :
  blocks st' = map_set k v (blocks st) -> complete_block k v ->
  complete_store st -> complete_store st'.
Proof.
  unfold complete_store. intros -> Hv [Hn Hc]. split; [now apply NoDup_map_set|].
  intros k' e' Hin. apply In_map_set in Hin.
  destruct Hin as [E|Hin]; [injection E as -> ->; exact Hv|auto].
Qed.

Lemma complete_delete st st' k :
  blocks st' = map_delete k (blocks st) -> complete_store st -> complete_store st'.
Proof.
  unfold complete_store. intros -> [Hn Hc]. split; [now apply NoDup_map_delete|].
  intros k' e' Hin. apply In_map_delete in Hin. auto.
Qed.

Lemma complete_empty st : blocks st = [] -> complete_store st.
Proof.
  unfold complete_store. intros ->. split; [constructor|intros k e []].
Qed.

Lemma addBlock_blocks t position definition st :
  blocks (snd (addBlock (Some t) position definition st))
  = map_set (Some (block_id (S (blockCounter st))))
      {| el_id := ("canvas-" ++ block_id (S (blockCounter st)))%string;
         el_left := snap (fst position); el_top := snap (snd position);
         el_blockData :=
           Some (Plain (new_block (block_id (S (blockCounter st))) (Some t)
                          position definition));
         el_x := None; el_y := None; el_draggable := true |}
      (blocks st).
Proof.
  unfold addBlock, bind, run, ret.
  cbn [fst snd createBlockElement new_block b_type b_definition b_properties
       notify blocks].
  rewrite saveState_blocks. cbn [with_blocks blocks].
  now rewrite autoConnectNewBlock_blocks.
Qed.

Lemma forEach_import_complete_store bs : forall s,
  complete_store s -> complete_store (snd (forEach import_block bs s)).
Proof.
  induction bs as [|b bs IH]; intros s H; [exact H|].
  rewrite forEach_import_cons.
  destruct (createBlockElement b) as [e|err] eqn:C; [|exact H].
  apply IH. eapply complete_set; [reflexivity| |exact H].
  unfold createBlockElement in C.
  destruct (b_type b) as [t|] eqn:T; [|discriminate].
  destruct (b_definition b) as [d|] eqn:D; [|discriminate].
  destruct (b_properties b) as [p|] eqn:P; [|discriminate].
  exists b, t, p, d. auto.
Qed.

Lemma step_complete_store ev st :
  edit ev -> complete_store st -> complete_store (step ev st).
Proof.
  intros Hev H.
  destruct ev as [[t|] position definition|blockId|blockId x y| |blockId p|blockId
                 | | | |data|doc|c|dt];
    simpl in Hev; try contradiction; cbn [step].
  - eapply complete_set; [apply addBlock_blocks| |exact H].
    eexists _, t, [], definition. repeat split.
  - pose proof (removeBlock_graph blockId st) as G. cbv zeta in G.
    destruct (map_get blockId (blocks st)); [|now rewrite G].
    eapply complete_delete; [exact (proj1 G)|exact H].
  - unfold onBlockMouseMove.
    destruct (map_get blockId (blocks st)) as [e|] eqn:G; [|exact H].
    eapply complete_set; [reflexivity| |exact H].
    apply map_get_In in G. apply (proj2 H) in G.
    destruct G as (b & t & p & d & B & R). exists b, t, p, d.
    destruct (el_draggable e); auto.
  - eapply complete_same; [apply saveState_blocks|exact H].
  - unfold saveBlockProperties.
    destruct (map_get blockId (blocks st)) as [e|] eqn:G; [|exact H].
    destruct (el_blockData e) as [[b|]|] eqn:B; try exact H.
    destruct (known_type _ _); [|exact H].
    eapply complete_set; [cbn [notify blocks]; rewrite saveState_blocks; reflexivity
                         | |exact H].
    apply map_get_In in G. apply (proj2 H) in G.
    destruct G as (b' & t & p' & d & B' & Bk & Bt & Bp & Bd).
    rewrite B in B'. injection B' as <-.
    eexists _, t, _, d. repeat split; cbn; auto.
  - unfold duplicateBlock.
    destruct (map_get blockId (blocks st)) as [e|] eqn:G; [|exact H].
    destruct (el_blockData e) as [o|] eqn:B; [|exact H].
    apply map_get_In in G. apply (proj2 H) in G.
    destruct G as (b & t & p & d & B' & Bk & Bt & Bp & Bd).
    rewrite B in B'. injection B' as ->. cbn [obj_type obj_x obj_y obj_definition
                                              obj_properties].
    rewrite Bt, Bd, Bp. unfold bind at 1.
    pose proof (addBlock_blocks t (option_map (fun v => (v + 40)%Q) (b_x b),
                                  option_map (fun v => (v + 40)%Q) (b_y b)) d st) as A.
    pose proof (addBlock_effect t
                  (option_map (fun v => (v + 40)%Q) (b_x b),
                   option_map (fun v => (v + 40)%Q) (b_y b)) d st) as S.
    cbv zeta in S. destruct S as (S1 & _ & S3 & _).
    destruct (addBlock (Some t) _ d st) as [[id|err] st1]; cbn [fst snd] in *;
      [|discriminate].
    injection S1 as ->. unfold run. cbn [snd]. rewrite S3. cbn [el_blockData].
    assert (C1 : complete_store st1).
    { eapply complete_set; [exact A| |exact H].
      eexists _, t, [], d. repeat split. }
    eapply complete_set; [reflexivity| |exact C1].
    eexists _, t, p, d. repeat split.
  - apply complete_empty. apply clear_frame.
  - destruct data as [data|]; [|exact H]. unfold import.
    destruct (cd_blocks data) as [bs|]; [|exact H].
    pose proof (forEach_import_complete_store bs (clear st)
                  (complete_empty _ (proj1 (clear_frame st)))) as F.
    unfold bind, run.
    destruct (forEach import_block bs (clear st)) as [[[]|err] s2]; cbn [fst snd] in *;
      [|exact F].
    eapply complete_same; [|exact F].
    cbn [notify blocks]. rewrite saveState_blocks.
    destruct (cd_metadata data), (cd_connections data); reflexivity.
  - exact H.
  - exact H.
Qed.

(** X16.  After any session of editing events (insertions of typed
    blocks, removals, drags, property edits, duplications, clear-all and
    imports), without undo, redo or session load, [import(export())]
    succeeds and gives back the same blocks under the same keys and in
    the same order, with their ids, types, properties and definitions,
    and the same connections. *)
Theorem export_import_round_trip_after_edits (layout : Layout) (evs : list Event) :
  Forall edit evs ->
  let st := steps evs fresh in
  let r := import (Some (export layout st)) st in
  fst r = Ok tt /\
  contents (snd r) = contents st /\
  connections (snd r) = connections st.
Proof.
  intros Hevs. cbv zeta.
  assert (C : complete_store (steps evs fresh)).
  { induction evs as [|ev evs IH] using rev_ind.
    - now apply complete_empty.
    - apply Forall_app in Hevs. destruct Hevs as [H1 H2].
      inversion H2 as [|? ? Hev _]; subst.
      rewrite steps_snoc. apply step_complete_store; auto. }
  destruct C as [Hn Hc]. now apply export_import_complete_store.
Qed.

Lemma export_import_round_trip_after_edits_witness :
  let evs := [insert "start"; insert "print";
              EvMouseMove (Some "block_2") (205 # 1) (161 # 1); EvMouseUp;
              EvDuplicate (Some "block_1"); EvRemoveBlock (Some "block_1")] in
  let st := steps evs fresh in
  let r := import (Some (export (fun _ => (0%Q, 0%Q)) st)) st in
  Forall edit evs /\ fst r = Ok tt /\ contents (snd r) = contents st /\
  connections (snd r) = connections st.
Proof.
  intros evs.
  assert (F : Forall edit evs) by (repeat constructor).
  split; [exact F|].
  exact (export_import_round_trip_after_edits (fun _ => (0%Q, 0%Q)) evs F).
Defined.

(** ** The view *)

Lemma Math_min_spec a b : (Math_min a b <= a)%Q /\ (Math_min a b <= b)%Q /\
  (Math_min a b == a \/ Math_min a b == b)%Q.
Proof.
  unfold Math_min. destruct (Qle_bool a b) eqn:E.
  - apply Qle_bool_iff in E. repeat split; [lra|lra|left; reflexivity].
  - assert (~ (a <= b)%Q) by (rewrite <- Qle_bool_iff; congruence).
    repeat split; [lra|lra|right; reflexivity].
Qed.

Lemma Math_max_spec a b : (a <= Math_max a b)%Q /\ (b <= Math_max a b)%Q /\
  (Math_max a b == a \/ Math_max a b == b)%Q.
Proof.
  unfold Math_max. destruct (Qle_bool a b) eqn:E.
  - apply Qle_bool_iff in E. repeat split; [lra|lra|right; reflexivity].
  - assert (~ (a <= b)%Q) by (rewrite <- Qle_bool_iff; congruence).
    repeat split; [lra|lra|left; reflexivity].
Qed.

Lemma clamp_in_range q :
  ((1 # 10) <= Math_max (1 # 10) (Math_min 3 q))%Q /\
  (Math_max (1 # 10) (Math_min 3 q) <= 3)%Q.
Proof.
  destruct (Math_max_spec (1 # 10) (Math_min 3 q)) as (A & B & [C|C]);
    destruct (Math_min_spec 3 q) as (D & E & F); split; lra.
Qed.

Lemma view_step_document ev ps :
  document_of (snd (view_step ev ps)) = document_of (snd ps).
Proof.
  destruct ps as [p st].
  destruct ev as [| | |dy mx my|bg cx cy|cx cy| |bid ox oy]; cbn [view_step fst snd];
    try reflexivity.
  - unfold onCanvasWheel. cbv zeta. destruct (Qeq_bool _ _); reflexivity.
  - unfold onCanvasMouseDown. destruct bg; reflexivity.
  - unfold onCanvasMouseMove. destruct (isDragging p); [|reflexivity].
    destruct (dragData p) as [[]|]; reflexivity.
  - unfold onCanvasMouseUp. destruct (isDragging p); [|reflexivity].
    destruct (dragData p) as [[]|]; reflexivity.
  - unfold onLoadedBlockMouseDown. destruct (map_get _ _) as [e|]; [|reflexivity].
    destruct (carries_listener e); reflexivity.
Qed.

Lemma view_step_zoom ev ps :
  zoom_in_range (snd ps) -> zoom_in_range (snd (view_step ev ps)).
Proof.
  destruct ps as [p st]. unfold zoom_in_range. intros [L U].
  destruct ev as [| | |dy mx my|bg cx cy|cx cy| |bid ox oy]; cbn [view_step fst snd] in *.
  - cbn [zoomIn zoom with_view].
    destruct (Math_min_spec 3 (zoom st * (12 # 10))) as (A & B & [C|C]); split; lra.
  - cbn [zoomOut zoom with_view].
    assert (E : (zoom st / (12 # 10) == zoom st * (10 # 12))%Q) by field.
    destruct (Math_max_spec (1 # 10) (zoom st / (12 # 10))) as (A & B & [C|C]);
      split; lra.
  - cbn [resetZoom zoom with_view]. split; lra.
  - unfold onCanvasWheel. cbv zeta. destruct (Qeq_bool _ _); [split; assumption|].
    cbn [zoom with_view]. apply clamp_in_range.
  - unfold onCanvasMouseDown. destruct bg; split; assumption.
  - unfold onCanvasMouseMove. destruct (isDragging p); [|split; assumption].
    destruct (dragData p) as [[]|]; split; assumption.
  - unfold onCanvasMouseUp. destruct (isDragging p); [|split; assumption].
    destruct (dragData p) as [[]|]; split; assumption.
  - unfold onLoadedBlockMouseDown. destruct (map_get _ _) as [e|]; [|split; assumption].
    destruct (carries_listener e); split; assumption.
Qed.

Lemma view_steps_snoc evs ev ps :
  view_steps (evs ++ [ev]) ps = view_step ev (view_steps evs ps).
Proof. unfold view_steps. now rewrite fold_left_app. Qed.

(** X17.  Zooming in and out, the wheel, panning and clicks keep the
    zoom between 10% and 300% once it is there, and they change
    nothing but the view and the selection: the blocks, the
    connections, the id counter, the history and the autosave timer
    stay as they are, so no view change is ever committed or saved. *)
Theorem view_events_keep_zoom_in_range (evs : list ViewEvent)
    (p : Pointer) (st : State) :
  zoom_in_range st ->
  zoom_in_range (snd (view_steps evs (p, st))) /\
  document_of (snd (view_steps evs (p, st))) = document_of st.
Proof.
  intros H. induction evs as [|ev evs [IH1 IH2]] using rev_ind.
  - split; [exact H|reflexivity].
  - rewrite view_steps_snoc. split; [now apply view_step_zoom|].
    now rewrite view_step_document.
Qed.

Lemma view_events_keep_zoom_in_range_witness :
  zoom_in_range fresh /\
  zoom_in_range
    (snd (view_steps [VZoomIn; VZoomIn; VZoomIn; VZoomIn; VZoomIn; VZoomIn; VZoomIn;
                      VWheel 1 (50 # 1) (50 # 1); VZoomOut] (released, fresh))).
Proof.
  assert (H : zoom_in_range fresh) by (unfold zoom_in_range; simpl; split; lra).
  split; [exact H|].
  exact (proj1 (view_events_keep_zoom_in_range _ released fresh H)).
Defined.

Lemma pointer_moves_pan sx sy pts : forall st,
  let p := {| isDragging := true; dragData := Some (PanData sx sy) |} in
  fst (view_steps (pointer_moves pts) (p, st)) = p /\
  zoom (snd (view_steps (pointer_moves pts) (p, st))) = zoom st /\
  selectedBlock (snd (view_steps (pointer_moves pts) (p, st))) = selectedBlock st /\
  match rev pts with
  | [] => snd (view_steps (pointer_moves pts) (p, st)) = st
  | (x, y) :: _ =>
      panX (snd (view_steps (pointer_moves pts) (p, st))) = (x - sx)%Q /\
      panY (snd (view_steps (pointer_moves pts) (p, st))) = (y - sy)%Q
  end.
Proof.
  cbv zeta. induction pts as [|[x y] pts IH] using rev_ind; intros st.
  - repeat split.
  - unfold pointer_moves. rewrite map_app. cbn [map].
    rewrite view_steps_snoc, rev_app_distr. cbn [rev app fst snd].
    fold (pointer_moves pts).
    destruct (IH st) as (I1 & I2 & I3 & _).
    destruct (view_steps (pointer_moves pts) _) as [p1 st1]. cbn [fst snd] in *.
    subst p1. cbn [view_step onCanvasMouseMove isDragging dragData fst snd
                   with_view zoom panX panY selectedBlock].
    repeat split; assumption.
Qed.

Lemma pointer_moves_document sx sy pts st :
  document_of (snd (view_steps (pointer_moves pts)
                      ({| isDragging := true; dragData := Some (PanData sx sy) |}, st)))
  = document_of st.
Proof.
  induction pts as [|pt pts IH] using rev_ind; [reflexivity|].
  unfold pointer_moves. rewrite map_app. cbn [map]. rewrite view_steps_snoc.
  fold (pointer_moves pts). now rewrite view_step_document.
Qed.

Lemma pointer_moves_last sx sy pts x y : forall st,
  view_steps (pointer_moves (pts ++ [(x, y)]))
    ({| isDragging := true; dragData := Some (PanData sx sy) |}, st)
  = onCanvasMouseMove x y
      ({| isDragging := true; dragData := Some (PanData sx sy) |}, st).
Proof.
  induction pts as [|[a b] pts IH]; intros st; [reflexivity|].
  cbn [app pointer_moves map]. unfold view_steps. cbn [fold_left].
  change (fold_left (fun s ev => view_step ev s) (map _ (pts ++ [(x, y)])) ?s)
    with (view_steps (pointer_moves (pts ++ [(x, y)])) s).
  cbn [view_step onCanvasMouseMove isDragging dragData].
  rewrite IH. reflexivity.
Qed.

Lemma pointer_moves_released pts st :
  view_steps (pointer_moves pts) (released, st) = (released, st).
Proof.
  induction pts as [|[a b] pts IH]; [reflexivity|exact IH].
Qed.

(** X19.  Panning forgets the path: after a [mousedown] on the canvas
    background and any [mousemove] events, the editor is in the state
    a single move to the last pointer position gives after that
    [mousedown]; the zoom and the document are unchanged and the
    selection is dropped; after the [mouseup] further moves do
    nothing. *)
Theorem pan_is_set_by_last_move (p : Pointer) (st : State) (x0 y0 : Q)
    (pts : list (Q * Q)) (x y : Q) (after : list (Q * Q)) :
  let r := view_steps (VMouseDown true x0 y0 :: pointer_moves (pts ++ [(x, y)]))
             (p, st) in
  r = view_steps [VMouseDown true x0 y0; VMouseMove x y] (p, st) /\
  zoom (snd r) = zoom st /\ selectedBlock (snd r) = None /\
  document_of (snd r) = document_of st /\
  view_steps (VMouseUp :: pointer_moves after) r = (released, snd r).
Proof.
  cbv zeta.
  assert (E : view_steps (VMouseDown true x0 y0 :: pointer_moves (pts ++ [(x, y)]))
                (p, st)
              = view_steps (pointer_moves (pts ++ [(x, y)]))
                  ({| isDragging := true;
                      dragData := Some (PanData (x0 - panX st)%Q (y0 - panY st)%Q) |},
                   with_selectedBlock None st)) by reflexivity.
  rewrite E. clear E.
  destruct (pointer_moves_pan (x0 - panX st)%Q (y0 - panY st)%Q (pts ++ [(x, y)])
              (with_selectedBlock None st)) as (I1 & I2 & I3 & I4).
  rewrite rev_app_distr in I4. cbn [rev app] in I4. destruct I4 as [I4 I5].
  pose proof (pointer_moves_document (x0 - panX st)%Q (y0 - panY st)%Q
                (pts ++ [(x, y)]) (with_selectedBlock None st)) as D.
  pose proof (pointer_moves_last (x0 - panX st)%Q (y0 - panY st)%Q pts x y
                (with_selectedBlock None st)) as L.
  change (view_steps [VMouseDown true x0 y0; VMouseMove x y] (p, st))
    with (onCanvasMouseMove x y
            ({| isDragging := true;
                dragData := Some (PanData (x0 - panX st)%Q (y0 - panY st)%Q) |},
             with_selectedBlock None st)).
  destruct (view_steps (pointer_moves (pts ++ [(x, y)])) _) as [p1 st1].
  cbn [fst snd] in *. subst p1.
  split; [|split; [exact I2|split; [exact I3|split; [exact D|]]]].
  - exact L.
  - change (view_steps (VMouseUp :: pointer_moves after) ?s)
      with (view_steps (pointer_moves after) (onCanvasMouseUp s)).
    cbn [onCanvasMouseUp isDragging dragData]. apply pointer_moves_released.
Qed.

(** X20.  A block element that a session load has built cannot be
    dragged: after a [mousedown] on it, pointer moves and releases
    change neither the view nor any block, and the editor stays in its
    dragging mode, which only a [mousedown] on the canvas background
    ends. *)
Theorem loaded_block_cannot_be_dragged (p : Pointer) (st : State)
    (blockId : Id) (e : Element) (offsetX offsetY : Q) (evs : list ViewEvent) :
  map_get blockId (blocks st) = Some e ->
  carries_listener e = true ->
  Forall move_or_release evs ->
  view_steps (VLoadedBlockMouseDown blockId offsetX offsetY :: evs) (p, st)
  = ({| isDragging := true; dragData := Some (BlockData offsetX offsetY) |},
     with_selectedBlock None st).
Proof.
  intros G L H. unfold view_steps.
  cbn [fold_left view_step onLoadedBlockMouseDown]. rewrite G, L.
  induction H as [|ev evs Hev _ IH]; [reflexivity|].
  cbn [fold_left]. destruct ev; simpl in Hev; try contradiction; exact IH.
Qed.

Lemma loaded_block_cannot_be_dragged_witness :
  let st := steps [EvCatalog ["start"]; EvLoad off_grid_session] fresh in
  let evs := [VMouseMove (120 # 1) (80 # 1); VMouseMove (300 # 1) (90 # 1);
              VMouseUp; VMouseMove (10 # 1) (10 # 1)] in
  map_get (Some "block_1") (blocks st) = Some (loaded_element None off_grid_block) /\
  carries_listener (loaded_element None off_grid_block) = true /\
  Forall move_or_release evs /\
  snd (view_steps (VLoadedBlockMouseDown (Some "block_1") 5 5 :: evs) (released, st))
  = with_selectedBlock None st.
Proof.
  intros st evs.
  assert (G : map_get (Some "block_1") (blocks st)
              = Some (loaded_element None off_grid_block)) by (vm_compute; reflexivity).
  assert (L : carries_listener (loaded_element None off_grid_block) = true)
    by reflexivity.
  assert (F : Forall move_or_release evs) by (repeat constructor).
  split; [exact G|]. split; [exact L|]. split; [exact F|].
  now rewrite (loaded_block_cannot_be_dragged released st (Some "block_1") _ 5 5 evs
                 G L F).
Defined.

(** ** The auto-linker and the numbers of the ids *)

Lemma parse_digits_cons radix c s acc :
  parse_digits radix (String c s) acc
  = match digit_value c with
    | Some d =>
        if d <? radix
        then parse_digits radix s
               (Some (match acc with Some a => a * radix + d | None => d end))
        else acc
    | None => acc
    end.
Proof. reflexivity. Qed.

Lemma parse_digits_uint u : forall a : nat,
  parse_digits 10 (NilEmpty.string_of_uint u) (Some (Z.of_nat a))
  = Some (Z.of_nat (Nat.of_uint_acc u a)).
Proof.
  induction u; intros a; cbn [NilEmpty.string_of_uint Nat.of_uint_acc];
    [reflexivity|..];
    rewrite parse_digits_cons;
    match goal with
    | |- context [digit_value ?c] =>
        let v := eval vm_compute in (digit_value c) in
        change (digit_value c) with v
    end;
    cbv iota beta;
    match goal with
    | |- context [(?d <? 10)] => change (d <? 10) with true
    end;
    cbv iota;
    rewrite <- IHu; do 2 f_equal; rewrite Nat.tail_mul_spec; lia.
Qed.

Ltac parseInt_from k :=
  match goal with
  | |- parseInt (Some (NilEmpty.string_of_uint (_ ?u))) = _ =>
      transitivity (option_map (Z.mul 1)
                      (parse_digits 10 (NilEmpty.string_of_uint u)
                         (Some (Z.of_nat k))));
      [reflexivity|];
      rewrite parse_digits_uint; cbn [option_map]; rewrite Z.mul_1_l; reflexivity
  end.

Lemma parseInt_uint u :
  u <> Decimal.Nil ->
  parseInt (Some (NilEmpty.string_of_uint u)) = Some (Z.of_nat (Nat.of_uint u)).
Proof.
  intros H. destruct u as [|u|u|u|u|u|u|u|u|u|u]; [congruence|..].
  - destruct u as [|u|u|u|u|u|u|u|u|u|u]; [reflexivity|..];
      match goal with
      | |- parseInt (Some (NilEmpty.string_of_uint (Decimal.D0 ?v))) = _ =>
          transitivity (option_map (Z.mul 1)
                          (parse_digits 10 (NilEmpty.string_of_uint v)
                             (Some (Z.of_nat 0))));
          [reflexivity|];
          rewrite parse_digits_uint; cbn [option_map]; rewrite Z.mul_1_l; reflexivity
      end.
  - parseInt_from 1%nat.
  - parseInt_from 2%nat.
  - parseInt_from 3%nat.
  - parseInt_from 4%nat.
  - parseInt_from 5%nat.
  - parseInt_from 6%nat.
  - parseInt_from 7%nat.
  - parseInt_from 8%nat.
  - parseInt_from 9%nat.
Qed.

Lemma to_uint_nonnil n : Nat.to_uint n <> Decimal.Nil.
Proof.
  pose proof (Unsigned.to_of (Nat.to_uint n)) as H.
  rewrite Unsigned.of_to in H. rewrite H. unfold Decimal.unorm.
  destruct (Decimal.nzhead (Nat.to_uint n)); discriminate.
Qed.

Lemma parseInt_decimal n : parseInt (Some (decimal n)) = Some (Z.of_nat n).
Proof.
  unfold decimal. rewrite parseInt_uint by apply to_uint_nonnil.
  now rewrite Unsigned.of_to.
Qed.

Lemma split_on_uint u :
  split_on "_" (NilEmpty.string_of_uint u) = [NilEmpty.string_of_uint u].
Proof.
  induction u; cbn [NilEmpty.string_of_uint split_on]; [reflexivity|..];
    rewrite IHu; reflexivity.
Qed.

Lemma id_number_of_block e j :
  el_id e = ("canvas-" ++ block_id j)%string ->
  id_number e = Some (Z.of_nat j).
Proof.
  intros E. unfold id_number. rewrite E. unfold block_id, decimal.
  cbn [append split_on]. rewrite split_on_uint.
  change (parseInt (Some (NilEmpty.string_of_uint (Nat.to_uint j))) = Some (Z.of_nat j)).
  apply parseInt_decimal.
Qed.

(** The first element after the sort of the auto-linker has the
    greatest id number, when every element has one. *)
Lemma sort_head_greatest l :
  Forall (fun e => exists n, id_number e = Some n) l ->
  forall x rest, sort by_id_number_desc l = x :: rest ->
  forall y n m, In y l -> id_number y = Some n -> id_number x = Some m -> n <= m.
Proof.
  induction l as [|a l IH]; intros Hl x rest S y n m Hy Ny Nx; [destruct Hy|].
  inversion Hl as [|? ? [na Ha] Hl']; subst.
  cbn [sort fold_right] in S. fold (sort by_id_number_desc l) in S.
  destruct (sort by_id_number_desc l) as [|b r] eqn:Sl.
  - assert (l = []).
    { destruct l as [|c l0]; [reflexivity|].
      assert (I : In c (sort by_id_number_desc (c :: l0)))
        by (apply sort_In; now left).
      rewrite Sl in I. destruct I. }
    subst l. cbn in S. injection S as <- _.
    destruct Hy as [<-|[]]. rewrite Ny in Nx. injection Nx as ->. lia.
  - assert (Hb : In b l) by (apply (sort_In by_id_number_desc); rewrite Sl; now left).
    destruct (proj1 (Forall_forall _ _) Hl' b Hb) as [nb Nb].
    cbn [insert_sorted] in S. unfold by_id_number_desc at 1 in S.
    rewrite Nb, Ha in S.
    destruct (nb - na <=? 0) eqn:C.
    + apply Z.leb_le in C. injection S as <- _.
      rewrite Ha in Nx. injection Nx as <-.
      destruct Hy as [<-|Hy]; [rewrite Ha in Ny; injection Ny as <-; lia|].
      pose proof (IH Hl' b r eq_refl y n nb Hy Ny Nb). lia.
    + apply Z.leb_gt in C. injection S as <- _.
      rewrite Nb in Nx. injection Nx as <-.
      destruct Hy as [<-|Hy]; [rewrite Ha in Ny; injection Ny as <-; lia|].
      exact (IH Hl' b r eq_refl y n nb Hy Ny Nb).
Qed.

Lemma In_map_get {V} k v (m : JsMap V) :
  In (k, v) m -> exists v', map_get k m = Some v'.
Proof.
  induction m as [|[k0 v0] m IH]; intros H; [destruct H|].
  cbn [map_get]. destruct (str_eqb k0 k) eqn:C; [eauto|].
  destruct H as [E|H]; [|auto].
  injection E as -> _. now rewrite str_eqb_refl in C.
Qed.

Lemma elements_of_blocks evs :
  Forall typed_add_or_remove evs ->
  forall k e, In (k, e) (blocks (steps evs fresh)) -> element_of_block k e.
Proof.
  induction evs as [|ev evs IH] using rev_ind; intros Hevs k e.
  - intros [].
  - apply Forall_app in Hevs. destruct Hevs as [H1 H2].
    inversion H2 as [|? ? Hev _]; subst. specialize (IH H1).
    rewrite steps_snoc. set (st := steps evs fresh) in *.
    destruct ev as [[t|] position definition|blockId| | | | | | | | | | |];
      simpl in Hev; try contradiction; cbn [step].
    + rewrite addBlock_blocks. intros Hin. apply In_map_set in Hin.
      destruct Hin as [E|Hin]; [|auto].
      injection E as -> ->. exists (S (blockCounter st)). split; reflexivity.
    + pose proof (removeBlock_graph blockId st) as G. cbv zeta in G.
      destruct (map_get blockId (blocks st)); [|rewrite G; apply IH].
      rewrite (proj1 G). intros Hin. apply In_map_delete in Hin. auto.
Qed.

(** X21.  In a session of typed insertions and removals, the
    auto-linker starts the link of a new block, unless that is a start
    block or the canvas is empty, at the element of the block with the
    greatest id number in the store: the most recently inserted block
    that is still there. *)
Theorem autolink_starts_at_latest_block (evs : list Event) (t : string)
    (position : option Q * option Q) (definition : BlockDefinition) :
  Forall typed_add_or_remove evs ->
  t <> "start" ->
  blocks (steps evs fresh) <> [] ->
  let st := steps evs fresh in
  exists j,
    names_block st (Some (block_id j)) = true /\
    (forall j', names_block st (Some (block_id j')) = true -> (j' <= j)%nat) /\
    connections (snd (addBlock (Some t) position definition st))
    = connections st
      ++ [conn (Some ("canvas-" ++ block_id j)%string)
               (Some (block_id (S (blockCounter st))))].
Proof.
  intros Hevs Ht Hne. cbv zeta.
  pose proof (elements_of_blocks evs Hevs) as Inv.
  set (st := steps evs fresh) in *.
  set (block := new_block (block_id (S (blockCounter st))) (Some t) position definition).
  set (st1 := with_blockCounter (S (blockCounter st)) st).
  assert (C : connections (snd (addBlock (Some t) position definition st))
              = connections (autoConnectNewBlock block st1)).
  { unfold addBlock, bind, run, ret.
    cbn [fst snd createBlockElement new_block b_type b_definition b_properties
         notify connections].
    rewrite saveState_connections. reflexivity. }
  rewrite C. unfold autoConnectNewBlock.
  change (blocks st1) with (blocks st).
  destruct (sort by_id_number_desc (map_values (blocks st))) as [|x rest] eqn:S.
  { exfalso. destruct (blocks st) as [|[k0 e0] m]; [congruence|].
    assert (I : In e0 (sort by_id_number_desc (map_values ((k0, e0) :: m))))
      by (apply sort_In; now left).
    rewrite S in I. exact I. }
  assert (Hx : In x (map_values (blocks st)))
    by (apply (sort_In by_id_number_desc); rewrite S; now left).
  unfold map_values in Hx. apply in_map_iff in Hx. destruct Hx as ([kx ex] & Ex & Hx).
  cbn [snd] in Ex. subst ex.
  destruct (Inv kx x Hx) as (j & -> & Ej).
  assert (T : str_eqb (b_type block) (Some "start") = false).
  { apply str_eqb_neq. cbn. congruence. }
  rewrite T. cbn [el_type str_eqb andb]. exists j. split; [|split].
  - unfold names_block. destruct (In_map_get _ _ _ Hx) as [v ->]. reflexivity.
  - intros j' Hj'. unfold names_block in Hj'.
    destruct (map_get (Some (block_id j')) (blocks st)) as [e'|] eqn:G; [|discriminate].
    apply map_get_In in G.
    destruct (Inv _ _ G) as (j'' & Ek & Ee).
    assert (j'' = j') by (apply block_id_inj; congruence). subst j''.
    assert (L : Z.of_nat j' <= Z.of_nat j).
    { apply (sort_head_greatest (map_values (blocks st))) with (x := x) (rest := rest)
                                                                (y := e').
      - apply Forall_forall. intros e1 H1. unfold map_values in H1.
        apply in_map_iff in H1. destruct H1 as ([k1 e1'] & <- & H1).
        destruct (Inv _ _ H1) as (j1 & _ & E1). exists (Z.of_nat j1).
        now apply id_number_of_block.
      - exact S.
      - unfold map_values. apply in_map_iff. exists (Some (block_id j'), e'). auto.
      - now apply id_number_of_block.
      - now apply id_number_of_block. }
    lia.
  - cbn [with_connections connections]. rewrite Ej. reflexivity.
Qed.

Lemma autolink_starts_at_latest_block_witness :
  let evs := [insert "start"; insert "assign"; insert "print";
              EvRemoveBlock (Some "block_3")] in
  Forall typed_add_or_remove evs /\ "end" <> "start" /\
  blocks (steps evs fresh) <> [] /\
  exists j,
    names_block (steps evs fresh) (Some (block_id j)) = true /\
    connections (snd (addBlock (Some "end") origin no_definition (steps evs fresh)))
    = connections (steps evs fresh)
      ++ [conn (Some ("canvas-" ++ block_id j)%string) (Some "block_4")].
Proof.
  intros evs.
  assert (F : Forall typed_add_or_remove evs) by (repeat constructor).
  assert (T : "end" <> "start") by discriminate.
  assert (N : blocks (steps evs fresh) <> []) by (vm_compute; discriminate).
  split; [exact F|]. split; [exact T|]. split; [exact N|].
  destruct (autolink_starts_at_latest_block evs "end" origin no_definition F T N)
    as (j & J1 & _ & J3).
  exists j. split; [exact J1|exact J3].
Defined.

(** ** Debounced and throttled functions *)

Section WrapperFacts.
Context {Args : Type}.
Implicit Types (s : Debounced Args) (a : Args).

Lemma db_clear_own id due a : db_clear (Some id) [(id, (due, a))] = [].
Proof. cbn. now rewrite Nat.eqb_refl. Qed.

Lemma executedFunction_armed wait a s :
  db_wf s ->
  db_pending (executedFunction wait a s)
  = [(db_next s, (db_clock s + Z.max 0 wait, a))] /\
  db_timeout (executedFunction wait a s) = Some (db_next s) /\
  db_calls (executedFunction wait a s) = db_calls s /\
  db_clock (executedFunction wait a s) = db_clock s.
Proof.
  intros [E | (id & due & a' & E & T)]; cbn [executedFunction db_pending db_timeout
                                             db_calls db_clock]; rewrite E.
  - destruct (db_timeout s); repeat split.
  - rewrite T, db_clear_own. repeat split.
Qed.

Lemma db_tick_before_due dt s id due a :
  db_pending s = [(id, (due, a))] -> db_clock s + Z.of_nat dt < due ->
  db_pending (db_tick dt s) = db_pending s /\
  db_timeout (db_tick dt s) = db_timeout s /\
  db_calls (db_tick dt s) = db_calls s /\
  db_clock (db_tick dt s) = db_clock s + Z.of_nat dt.
Proof.
  intros E H. unfold db_tick. rewrite E. cbn [db_fire].
  destruct (due <=? db_clock s + Z.of_nat dt) eqn:C; [apply Z.leb_le in C; lia|].
  cbn [andb db_pending db_timeout db_calls db_clock]. rewrite E. repeat split.
Qed.

Lemma db_tick_when_due dt s id due a :
  db_pending s = [(id, (due, a))] -> db_timeout s = Some id ->
  due <= db_clock s + Z.of_nat dt ->
  db_pending (db_tick dt s) = [] /\
  db_calls (db_tick dt s) = db_calls s ++ [(due, a)].
Proof.
  intros E T H. unfold db_tick. rewrite E. cbn [db_fire].
  destruct (due <=? db_clock s + Z.of_nat dt) eqn:C; [|apply Z.leb_gt in C; lia].
  rewrite E. cbn [existsb fst andb orb]. rewrite Nat.eqb_refl.
  cbn [andb orb db_fire later db_pending db_calls db_timeout filter fst negb].
  rewrite Nat.eqb_refl. cbn [negb]. rewrite T. cbn [db_clear filter]. split; reflexivity.
Qed.

Lemma last_cons_default {A} (x : A) l d d' :
  last (d :: x :: l) d' = last (x :: l) d.
Proof.
  cbn [last]. revert x. induction l as [|y l IH]; intros x; [reflexivity|].
  cbn [last] in *. apply IH.
Qed.

Lemma db_burst_armed wait b : forall s a0 id,
  0 <= wait ->
  Forall (fun p => Z.of_nat (fst p) < wait) b ->
  db_pending s = [(id, (db_clock s + wait, a0))] -> db_timeout s = Some id ->
  let s1 := db_burst wait b s in
  db_calls s1 = db_calls s /\
  exists id1, db_pending s1 = [(id1, (db_clock s1 + wait, last (map snd b) a0))] /\
              db_timeout s1 = Some id1.
Proof.
  induction b as [|[gap a] b IH]; intros s a0 id Hw Hb E T; cbv zeta.
  - cbn. split; [reflexivity|eauto].
  - inversion Hb as [|? ? Hgap Hb']; subst. cbn [fst] in Hgap.
    cbn [db_burst].
    destruct (db_tick_before_due gap s id _ a0 E ltac:(lia)) as (P1 & P2 & P3 & P4).
    assert (W : db_wf (db_tick gap s)).
    { right. exists id, (db_clock s + wait), a0. rewrite P1, P2. auto. }
    destruct (executedFunction_armed wait a (db_tick gap s) W) as (Q1 & Q2 & Q3 & Q4).
    rewrite Z.max_r in Q1 by lia. rewrite <- Q4 in Q1.
    destruct (IH _ a _ Hw Hb' Q1 Q2) as (R1 & id1 & R2 & R3). cbv zeta in *.
    split; [now rewrite R1, Q3, P3|].
    exists id1. split; [|exact R3]. rewrite R2. do 3 f_equal.
    cbn [map snd]. destruct (map snd b) as [|a1 l]; [reflexivity|].
    symmetry. apply last_cons_default.
Qed.

(** X22.  A function made by [Utils.debounce] runs the wrapped
    function once per burst: while the calls come less than [wait]
    milliseconds apart nothing is run, and once [wait] milliseconds
    have passed without a call the wrapped function has been run
    exactly once, [wait] milliseconds after the last call and with the
    arguments of the last call; nothing stays pending. *)
Theorem debounce_runs_once_with_last_arguments (wait : Z) (a0 : Args)
    (b : list (nat * Args)) (idle : nat) (s : Debounced Args) :
  db_wf s -> 0 <= wait ->
  Forall (fun p => Z.of_nat (fst p) < wait) b ->
  wait <= Z.of_nat idle ->
  let s1 := db_burst wait b (executedFunction wait a0 s) in
  db_calls s1 = db_calls s /\
  db_calls (db_tick idle s1)
  = db_calls s ++ [(db_clock s1 + wait, last (map snd b) a0)] /\
  db_pending (db_tick idle s1) = [].
Proof.
  intros W Hw Hb Hi. cbv zeta.
  destruct (executedFunction_armed wait a0 s W) as (Q1 & Q2 & Q3 & Q4).
  rewrite Z.max_r in Q1 by lia. rewrite <- Q4 in Q1.
  destruct (db_burst_armed wait b _ a0 _ Hw Hb Q1 Q2) as (R1 & id1 & R2 & R3).
  cbv zeta in *.
  destruct (db_tick_when_due idle _ _ _ _ R2 R3 ltac:(lia)) as [T1 T2].
  rewrite R1, Q3. split; [reflexivity|]. split; [|exact T1].
  rewrite T2, R1, Q3. reflexivity.
Qed.

Lemma StronglySorted_snoc {A} (R : A -> A -> Prop) l c :
  StronglySorted R l -> Forall (fun x => R x c) l -> StronglySorted R (l ++ [c]).
Proof.
  induction 1 as [|x l Hl IH Hx]; intros F; cbn [app].
  - constructor; constructor.
  - inversion F as [|? ? Fx Fl]; subst. constructor; [now apply IH|].
    apply Forall_app. split; [exact Hx|]. constructor; [exact Fx|constructor].
Qed.

Lemma th_step_inv limit ev (s : Throttled Args) bound :
  th_inv limit bound s -> exists bound', th_inv limit bound' (th_step limit ev s).
Proof.
  intros (C & S & P). destruct ev as [a|dt]; cbn [th_step].
  - unfold throttled. destruct (th_inThrottle s) eqn:T.
    + exists bound. unfold th_inv. rewrite T. auto.
    + destruct P as [P B]. exists (th_clock s + Z.max 0 limit).
      unfold th_inv. cbn [th_calls th_inThrottle th_pending]. split; [|split].
      * apply Forall_app. split.
        -- eapply Forall_impl; [|exact C]. cbn. intros c Hc. lia.
        -- constructor; [cbn; lia|constructor].
      * rewrite map_app. cbn [map fst]. apply StronglySorted_snoc; [exact S|].
        rewrite Forall_map. eapply Forall_impl; [|exact C]. cbn. intros c Hc. lia.
      * now rewrite P.
  - exists bound. unfold th_inv, th_tick. cbn [th_calls th_inThrottle th_pending th_clock].
    split; [exact C|]. split; [exact S|].
    destruct (th_inThrottle s) eqn:T.
    + rewrite P. cbn [existsb filter orb].
      destruct (bound <=? th_clock s + Z.of_nat dt) eqn:D; cbn [negb].
      * apply Z.leb_le in D. split; [reflexivity|lia].
      * reflexivity.
    + destruct P as [P B]. rewrite P. cbn [existsb filter]. split; [reflexivity|lia].
Qed.

(** X23.  A function made by [Utils.throttle] spaces the runs of the
    wrapped function: whatever the calls and the pauses, any two runs
    are at least [limit] milliseconds apart; a call on a new wrapper
    runs at once, and a call while the wrapper is throttled is dropped
    for good. *)
Theorem throttle_spaces_the_calls (limit : Z) (now : Z)
    (evs : list (ThrottleEvent Args)) (a : Args) :
  let s := th_steps limit evs (th_new now) in
  StronglySorted (fun t t' => t + Z.max 0 limit <= t') (map fst (th_calls s)) /\
  th_calls (throttled limit a (th_new now)) = [(now, a)] /\
  (th_inThrottle s = true -> throttled limit a s = s).
Proof.
  cbv zeta. split; [|split].
  - assert (I : exists bound, th_inv limit bound (th_steps limit evs (th_new now))).
    { induction evs as [|ev evs [bound IH]] using rev_ind.
      - exists now. unfold th_inv. cbn. repeat split; try constructor. lia.
      - unfold th_steps. rewrite fold_left_app. cbn [fold_left].
        now apply (th_step_inv limit ev _ bound). }
    destruct I as (bound & _ & S & _). exact S.
  - reflexivity.
  - intros T. unfold throttled. now rewrite T.
Qed.
End WrapperFacts.

Lemma debounce_runs_once_with_last_arguments_witness :
  let s := {| db_clock := 0; db_timeout := None; db_pending := [];
              db_next := 1; db_calls := @nil (Z * string) |} in
  let s1 := db_burst 250 [(100%nat, "b"); (240%nat, "c")]
              (executedFunction 250 "a" s) in
  db_wf s /\ 0 <= 250 /\
  Forall (fun p : nat * string => Z.of_nat (fst p) < 250)
    [(100%nat, "b"); (240%nat, "c")] /\
  250 <= Z.of_nat 250 /\
  db_calls s1 = [] /\
  db_calls (db_tick 250 s1) = [(590, "c")].
Proof.
  intros s s1.
  assert (W : db_wf s) by (now left).
  assert (H0 : 0 <= 250) by lia.
  assert (F : Forall (fun p : nat * string => Z.of_nat (fst p) < 250)
                [(100%nat, "b"); (240%nat, "c")])
    by (repeat constructor; simpl; lia).
  assert (I : 250 <= Z.of_nat 250) by lia.
  destruct (debounce_runs_once_with_last_arguments 250 "a"
              [(100%nat, "b"); (240%nat, "c")] 250 s W H0 F I) as (R1 & R2 & _).
  split; [exact W|]. split; [exact H0|]. split; [exact F|]. split; [exact I|].
  split; [exact R1|].
  subst s1. rewrite R2. vm_compute. reflexivity.
Defined.

(** ** The connections sent to the compiler *)

Lemma insert_sorted_Permutation {A} (cmp : A -> A -> Z) a l :
  Permutation (insert_sorted cmp a l) (a :: l).
Proof.
  induction l as [|b l IH]; cbn [insert_sorted]; [reflexivity|].
  destruct (cmp a b <=? 0); [reflexivity|].
  rewrite IH. apply perm_swap.
Qed.

Lemma sort_Permutation {A} (cmp : A -> A -> Z) l : Permutation (sort cmp l) l.
Proof.
  induction l as [|a l IH]; [reflexivity|].
  cbn [sort fold_right]. fold (sort cmp l).
  rewrite insert_sorted_Permutation. now constructor.
Qed.

Lemma sequential_length l : List.length (sequential l) = pred (List.length l).
Proof.
  induction l as [|a [|b l] IH]; [reflexivity|reflexivity|].
  cbn [sequential List.length pred] in *. now rewrite IH.
Qed.

Lemma sequential_chain l : forall i c c',
  nth_error (sequential l) i = Some c ->
  nth_error (sequential l) (S i) = Some c' ->
  conn_to c = conn_from c'.
Proof.
  induction l as [|a [|b l] IH]; intros i c c' H H';
    [destruct i; discriminate|destruct i; discriminate|].
  destruct i as [|i].
  - cbn [sequential nth_error] in H. injection H as <-.
    destruct l as [|d l]; [discriminate|].
    cbn [sequential nth_error] in H'. injection H' as <-. reflexivity.
  - change (sequential (a :: b :: l)) with (conn (bv_id a) (bv_id b) :: sequential (b :: l))
      in H, H'.
    cbn [nth_error] in H, H'. exact (IH i c c' H H').
Qed.

Lemma sequential_ends l : forall a b,
  bv_id a :: map conn_to (sequential (a :: b :: l)) = map bv_id (a :: b :: l).
Proof.
  induction l as [|d l IH]; intros a b; [reflexivity|].
  change (sequential (a :: b :: d :: l))
    with (conn (bv_id a) (bv_id b) :: sequential (b :: d :: l)).
  cbn [map conn conn_to]. f_equal. exact (IH b d).
Qed.

(** X24.  [prepareConnectionsData] chains the blocks of the map: for
    [n] blocks it returns [n - 1] connections (none for an empty map or
    a single block), each ending where the next one starts, and the
    start of the first one followed by the ends of all of them lists
    the ids of the blocks, each block once.  This holds for whatever
    order the sort arrives at. *)
Theorem prepareConnectionsData_chains_all_blocks (values : list BlockView) :
  let cs := prepareConnectionsData values in
  List.length cs = pred (List.length values) /\
  (forall i c c', nth_error cs i = Some c -> nth_error cs (S i) = Some c' ->
                  conn_to c = conn_from c') /\
  (forall c rest, cs = c :: rest ->
     Permutation (conn_from c :: map conn_to cs) (map bv_id values)).
Proof.
  cbv zeta. unfold prepareConnectionsData.
  pose proof (sort_Permutation by_position values) as P.
  split; [|split].
  - rewrite sequential_length. f_equal. now apply Permutation_length.
  - apply sequential_chain.
  - intros c rest E.
    destruct (sort by_position values) as [|a [|b l]] eqn:S; try discriminate.
    pose proof (sequential_ends l a b) as I2.
    assert (F : conn_from c = bv_id a).
    { change (sequential (a :: b :: l))
        with (conn (bv_id a) (bv_id b) :: sequential (b :: l)) in E.
      injection E as <- _. reflexivity. }
    rewrite F, I2. now apply Permutation_map.
Qed.

(** ** Saved sessions *)

Lemma fold_createBlockFromData_complete (layout : Layout) (st : State)
    (m : JsMap Element) : forall s,
  NoDup (map_keys (blocks s) ++ map_keys m) ->
  (forall k e, In (k, e) m -> complete_block k e) ->
  (forall k e o, In (k, e) m -> el_blockData e = Some o ->
                 known_type (obj_type o) s = true) ->
  let doc_blocks := match sd_blocks (saveToJSON_payload layout (with_blocks m st)) with
                    | Some bs => bs | None => [] end in
  typed_contents (fold_left (fun s b => createBlockFromData b s) doc_blocks s)
  = typed_contents s
    ++ map (fun kv => (fst kv,
                       option_map (fun o => (obj_type o, obj_properties o))
                                  (el_blockData (snd kv)))) m.
Proof.
  induction m as [|[k e] m IH]; intros s Hnd Hc Hk; cbv zeta.
  - cbn. now rewrite app_nil_r.
  - destruct (Hc k e (or_introl eq_refl)) as (b & t & p & d & B & Bk & Bt & Bp & Bd).
    cbn [saveToJSON_payload sd_blocks with_blocks blocks map_values map snd flat_map].
    rewrite B. cbn [app fold_left obj_id obj_type obj_properties obj_language].
    rewrite Bk, Bt, Bp.
    assert (K : known_type (Some t) s = true).
    { specialize (Hk k e (Plain b) (or_introl eq_refl) B). cbn [obj_type] in Hk.
      now rewrite Bt in Hk. }
    unfold createBlockFromData at 2. cbn [b_type b_id b_x b_y b_properties b_language].
    rewrite K.
    assert (Hn : ~ In k (map_keys (blocks s))).
    { intros Hin. apply NoDup_remove_2 in Hnd. apply Hnd. apply in_or_app. now left. }
    rewrite (map_set_new _ _ _ Hn).
    match goal with
    | |- typed_contents (fold_left _ _ ?s1) = _ =>
        transitivity
          (typed_contents s1
           ++ map (fun kv => (fst kv,
                              option_map (fun o => (obj_type o, obj_properties o))
                                         (el_blockData (snd kv)))) m);
        [apply (IH s1)|]
    end.
    + cbn [with_blocks blocks]. unfold map_keys in *. rewrite map_app, <- app_assoc.
      exact Hnd.
    + intros k' e' Hin. apply Hc. now right.
    + intros k' e' o Hin Ho. unfold known_type. cbn [availableBlocks with_blocks].
      apply (Hk k' e' o); [now right|exact Ho].
    + unfold typed_contents. cbn [with_blocks blocks]. rewrite map_app, <- app_assoc.
      cbn [map app fst snd el_blockData option_map obj_type obj_properties
           b_type b_properties].
      now rewrite Bt, Bp.
Qed.

(** X25.  The document [saveToJSON] builds for a store of complete
    blocks brings the graph back when it is handed to
    [restoreFromJSONState] in an editor whose catalogue knows the types:
    the same blocks under the same keys and in the same order, with
    their types and properties, and the same connections; the id
    counter starts again at 0. *)
Theorem saved_session_restores_graph (layout : Layout) (st st' : State) :
  complete_store st ->
  types_known st st' ->
  let st2 := restoreFromJSONState (saveToJSON_payload layout st) st' in
  typed_contents st2 = typed_contents st /\
  connections st2 = connections st /\
  blockCounter st2 = 0%nat.
Proof.
  intros [Hnd Hc] Hk. cbv zeta.
  destruct (restoreFromJSONState_effect (saveToJSON_payload layout st) st')
    as (R1 & _ & _ & _ & _ & R6 & _).
  split; [|split; [|exact R1]].
  - pose proof (fold_createBlockFromData_complete layout st (blocks st)
                  (clearCanvas st')) as F.
    cbv zeta in F.
    assert (E : with_blocks (blocks st) st = st) by (destruct st; reflexivity).
    rewrite E in F.
    unfold restoreFromJSONState.
    cbn [saveToJSON_payload sd_blocks sd_connections] in F |- *.
    unfold typed_contents at 1.
    cbn [with_currentLanguage with_view with_connections blocks].
    fold (typed_contents
            (fold_left (fun s b => createBlockFromData b s)
               (flat_map
                  (fun blockElement =>
                     match el_blockData blockElement with
                     | Some block =>
                         [ {| b_id := obj_id block;
                              b_type := obj_type block;
                              b_x := Some ((fst (layout blockElement) - panX st)
                                           / zoom st)%Q;
                              b_y := Some ((snd (layout blockElement) - panY st)
                                           / zoom st)%Q;
                              b_properties :=
                                Some (match obj_properties block with
                                      | Some p => p | None => [] end);
                              b_definition := None;
                              b_language := str_or (obj_language block)
                                              (currentLanguage st) |} ]
                     | None => []
                     end) (map_values (blocks st)))
               (clearCanvas st'))).
    rewrite F; [reflexivity|exact Hnd|exact Hc|].
    intros k e o Hin Ho. exact (Hk k e o Hin Ho).
  - rewrite R6. cbn [saveToJSON_payload sd_connections].
    induction (connections st) as [|[] cs IH]; [reflexivity|].
    cbn [map]. now rewrite IH.
Qed.

Lemma saved_session_restores_graph_witness :
  let st := steps [EvCatalog ["start"; "print"]; insert "start"; insert "print";
                   EvSaveProperties (Some "block_2") [("message", "hello")]] fresh in
  let st2 := restoreFromJSONState (saveToJSON_payload (fun _ => (0%Q, 0%Q)) st) st in
  complete_store st /\ types_known st st /\
  typed_contents st2 = typed_contents st /\ connections st2 = connections st.
Proof.
  intros st.
  assert (C : complete_store st).
  { split.
    - vm_compute. repeat constructor; simpl; intuition discriminate.
    - intros k e Hin. vm_compute in Hin.
      destruct Hin as [E|[E|[]]]; injection E as <- <-;
        eexists _, _, _, _; repeat split. }
  assert (K : types_known st st).
  { intros k e o Hin Ho. vm_compute in Hin.
    destruct Hin as [E|[E|[]]]; injection E as <- <-;
      injection Ho as <-; vm_compute; reflexivity. }
  destruct (saved_session_restores_graph (fun _ => (0%Q, 0%Q)) st st C K)
    as (R1 & R2 & _).
  split; [exact C|]. split; [exact K|]. split; [exact R1|exact R2].
Defined.

(** ** The Delete key *)

(** X26.  In a session of typed insertions and removals the Delete key
    removes nothing: the selected block is an element of the store,
    [removeBlock] is handed the id of the element, [canvas-block_j],
    which is no key of the block map, and returns without a change. *)
Theorem delete_key_removes_nothing (evs : list Event) (k : Id) (sel : Element) :
  Forall typed_add_or_remove evs ->
  In (k, sel) (blocks (steps evs fresh)) ->
  onDeleteKey (with_selectedBlock (Some sel) (steps evs fresh))
  = (Ok tt, with_selectedBlock (Some sel) (steps evs fresh)).
Proof.
  intros Hevs Hin.
  pose proof (elements_of_blocks evs Hevs) as Inv.
  destruct (Inv k sel Hin) as (j & _ & Ej).
  unfold onDeleteKey. cbn [selectedBlock with_selectedBlock].
  unfold removeBlock. cbn [blocks with_selectedBlock].
  destruct (map_get (Some (el_id sel)) (blocks (steps evs fresh))) as [e|] eqn:G;
    [|reflexivity].
  exfalso. apply map_get_In in G. destruct (Inv _ _ G) as (j' & Ek & _).
  rewrite Ej in Ek. unfold block_id in Ek. cbn in Ek. discriminate.
Qed.

Lemma delete_key_removes_nothing_witness :
  let evs := [insert "start"; insert "print"] in
  let sel := {| el_id := "canvas-block_2";
                el_left := snap (Some 0%Q); el_top := snap (Some 0%Q);
                el_blockData :=
                  Some (Plain (new_block "block_2" (Some "print") origin no_definition));
                el_x := None; el_y := None; el_draggable := true |} in
  Forall typed_add_or_remove evs /\
  In (Some "block_2", sel) (blocks (steps evs fresh)) /\
  map_keys (blocks (snd (onDeleteKey (with_selectedBlock (Some sel) (steps evs fresh)))))
  = [Some "block_1"; Some "block_2"].
Proof.
  intros evs sel.
  assert (F : Forall typed_add_or_remove evs) by (repeat constructor).
  assert (I : In (Some "block_2", sel) (blocks (steps evs fresh)))
    by (vm_compute; right; left; reflexivity).
  split; [exact F|]. split; [exact I|].
  rewrite (delete_key_removes_nothing evs _ sel F I). vm_compute. reflexivity.
Defined.

(** ** The connections on the screen *)

(** X27.  In a session of insertions and removals no connection is
    ever drawn: [renderConnections] looks both ends up in the block
    map, and the start of every auto-link is the id of an element,
    which is no key of the map. *)
Theorem autolinks_are_never_drawn (evs : list Event) :
  Forall add_or_remove evs ->
  drawn_connections (steps evs fresh) = [].
Proof.
  intros Hevs. unfold drawn_connections.
  pose proof (autolink_source_names_no_block evs Hevs) as N.
  induction (connections (steps evs fresh)) as [|c cs IH]; [reflexivity|].
  cbn [filter]. rewrite (N c (or_introl eq_refl)). cbn [andb].
  apply IH. intros c' Hc'. apply N. now right.
Qed.

Lemma autolinks_are_never_drawn_witness :
  Forall add_or_remove [insert "start"; insert "assign"; insert "print"] /\
  List.length (connections (steps [insert "start"; insert "assign"; insert "print"] fresh))
  = 2%nat /\
  drawn_connections (steps [insert "start"; insert "assign"; insert "print"] fresh) = [].
Proof.
  assert (F : Forall add_or_remove [insert "start"; insert "assign"; insert "print"])
    by (repeat constructor).
  split; [exact F|]. split; [vm_compute; reflexivity|].
  exact (autolinks_are_never_drawn _ F).
Defined.
